(** * Hikvision_SYNC: incremental synchronisation of plate detections

    A shallow embedding of the synchronisation engine of the repository
    (the multi-camera entry point, whose single-camera sibling
    [index.js] is the same code with the table [VehicleDetection] and the
    camera settings fixed): [getLastSyncTime], [fetchVehiclesFromCamera],
    [insertVehiclesToSQL], [syncVehicles] and [syncAllCameras].

    JavaScript values are a small tagged union, exceptions and the mutable
    surroundings (SQL tables, console, device, clock) are threaded by a
    state-and-exception monad, and the SQL tables are a finite map from
    table names to the rows inserted so far, oldest first. *)

From Stdlib Require Import ZArith String Ascii List Bool Lia.
From stdpp Require Import base option list gmap strings.

Set Warnings "-register-all".

Local Open Scope string_scope.
Local Open Scope Z_scope.

(** ** JavaScript values *)

Module Js.

(** What [xml2js] hands back and what the code reads out of it. *)
Inductive JsVal : Type :=
  | JUndefined
  | JNull
  | JStr (s : string)
  | JArr (items : list JsVal)
  | JObj (props : list (string * JsVal)).

(** A [Date]: a time value in milliseconds since the epoch, or NaN. *)
Inductive JDate : Type :=
  | ValidDate (ms : Z)
  | InvalidDate.

(** Thrown values, by origin. *)
Inductive JsError : Type :=
  | TypeError (what : string)
  | HttpError (status : Z) (statusText : string)
  | NetError (what : string)
  | XmlError (what : string)
  | SqlError (what : string).

Inductive Result (A : Type) : Type :=
  | Ok (a : A)
  | Throw (e : JsError).
Arguments Ok {A} a.
Arguments Throw {A} e.

(** [v] in a boolean position ([if (v)], [a && b]). *)
Definition truthy (v : JsVal) : bool :=
  match v with
  | JUndefined | JNull => false
  | JStr s => negb (String.eqb s "")
  | JArr _ | JObj _ => true
  end.

Fixpoint lookupProp (k : string) (props : list (string * JsVal)) : JsVal :=
  match props with
  | [] => JUndefined
  | (k', v) :: rest => if String.eqb k k' then v else lookupProp k rest
  end.

(** [v.name] for the element and field names the code reads; none of them
    is a member of a prototype, so strings and arrays answer [undefined]. *)
Definition getField (v : JsVal) (name : string) : Result JsVal :=
  match v with
  | JUndefined => Throw (TypeError ("Cannot read properties of undefined: " ++ name))
  | JNull => Throw (TypeError ("Cannot read properties of null: " ++ name))
  | JStr _ | JArr _ => Ok JUndefined
  | JObj props => Ok (lookupProp name props)
  end.

(** [v[0]]. *)
Definition getIndex0 (v : JsVal) : Result JsVal :=
  match v with
  | JUndefined => Throw (TypeError "Cannot read properties of undefined: 0")
  | JNull => Throw (TypeError "Cannot read properties of null: 0")
  | JStr EmptyString => Ok JUndefined
  | JStr (String c _) => Ok (JStr (String c EmptyString))
  | JArr [] => Ok JUndefined
  | JArr (x :: _) => Ok x
  | JObj props => Ok (lookupProp "0" props)
  end.

(** Equality of two values as the store compares what was bound for a
    column: equality of strings on strings, structural otherwise. *)
Fixpoint jsEqb (a b : JsVal) : bool :=
  match a, b with
  | JUndefined, JUndefined => true
  | JNull, JNull => true
  | JStr s, JStr t => String.eqb s t
  | JArr xs, JArr ys =>
      (fix items (xs ys : list JsVal) : bool :=
         match xs, ys with
         | [], [] => true
         | x :: xs', y :: ys' => jsEqb x y && items xs' ys'
         | _, _ => false
         end) xs ys
  | JObj ps, JObj qs =>
      (fix props (ps qs : list (string * JsVal)) : bool :=
         match ps, qs with
         | [], [] => true
         | (k, x) :: ps', (l, y) :: qs' => String.eqb k l && jsEqb x y && props ps' qs'
         | _, _ => false
         end) ps qs
  | _, _ => false
  end.

(** Induction over values, through the lists of arrays and objects. *)
Section JsValInd.
Variable P : JsVal -> Prop.
Hypothesis Hundef : P JUndefined.
Hypothesis Hnull : P JNull.
Hypothesis Hstr : forall s, P (JStr s).
Hypothesis Harr : forall items, Forall P items -> P (JArr items).
Hypothesis Hobj : forall props, Forall (fun kv => P (snd kv)) props -> P (JObj props).

Fixpoint JsVal_nested_ind (v : JsVal) : P v :=
  match v with
  | JUndefined => Hundef
  | JNull => Hnull
  | JStr s => Hstr s
  | JArr items =>
      Harr items
        ((fix all (l : list JsVal) : Forall P l :=
            match l with
            | [] => @List.Forall_nil _ P
            | x :: l' => @List.Forall_cons _ P x l' (JsVal_nested_ind x) (all l')
            end) items)
  | JObj props =>
      Hobj props
        ((fix all (l : list (string * JsVal)) : Forall (fun kv => P (snd kv)) l :=
            match l with
            | [] => @List.Forall_nil _ _
            | kv :: l' => @List.Forall_cons _ (fun kv => P (snd kv)) kv l' (JsVal_nested_ind (snd kv)) (all l')
            end) props)
  end.
End JsValInd.

Definition isArray (v : JsVal) : bool :=
  match v with
  | JArr _ => true
  | _ => false
  end.

(** The elements a [for ... of] loop over an array visits. *)
Definition arrayItems (v : JsVal) : list JsVal :=
  match v with
  | JArr items => items
  | _ => []
  end.

(** [String.prototype.substring(start, end)] with [start <= end], both
    clamped to the length of the string. *)
Definition substring (s : string) (start finish : nat) : string :=
  String.substring start (finish - start) s.

(** [v.substring(start, end)]: only a string has the method. *)
Definition callSubstring (v : JsVal) (start finish : nat) : Result string :=
  match v with
  | JStr s => Ok (substring s start finish)
  | JUndefined => Throw (TypeError "Cannot read properties of undefined: substring")
  | JNull => Throw (TypeError "Cannot read properties of null: substring")
  | JArr _ | JObj _ => Throw (TypeError "substring is not a function")
  end.

End Js.
Export Js.

(** ** Calendar arithmetic and time zones *)

Module Calendar.

(** A wall-clock reading. *)
Record Civil : Type := mkCivil {
  year : Z; month : Z; day : Z; hour : Z; minute : Z; second : Z
}.

Definition isLeap (y : Z) : bool :=
  ((y mod 4 =? 0) && negb (y mod 100 =? 0)) || (y mod 400 =? 0).

Definition daysInMonth (y m : Z) : Z :=
  if m =? 2 then (if isLeap y then 29 else 28)
  else if (m =? 4) || (m =? 6) || (m =? 9) || (m =? 11) then 30
  else 31.

(** Days from 1970-01-01 to the given proleptic Gregorian date. *)
Definition daysFromCivil (y m d : Z) : Z :=
  let y' := if m <=? 2 then y - 1 else y in
  let era := y' / 400 in
  let yoe := y' - era * 400 in
  let mp := (m + 9) mod 12 in
  let doy := (153 * mp + 2) / 5 + d - 1 in
  let doe := yoe * 365 + yoe / 4 - yoe / 100 + doy in
  era * 146097 + doe - 719468.

Definition msPerDay : Z := 86400000.

(** The wall-clock reading as milliseconds, counted as if it were UTC. *)
Definition civilMs (c : Civil) : Z :=
  daysFromCivil (year c) (month c) (day c) * msPerDay
  + (hour c * 3600 + minute c * 60 + second c) * 1000.

(** A time zone, by its two conversions (ECMAScript's LocalTime and UTC):
    from an instant to the wall-clock time value, and back. *)
Record Zone : Type := mkZone {
  toLocal : Z -> Z;
  fromLocal : Z -> Z
}.

(** A zone with one offset all year. *)
Definition fixedZone (offsetMs : Z) : Zone :=
  {| toLocal := fun t => t + offsetMs; fromLocal := fun l => l - offsetMs |}.

(** [d.setHours(0, 0, 0, 0)] on a valid date, in the zone of the process. *)
Definition setHours0 (host : Zone) (t : Z) : Z :=
  let l := toLocal host t in
  fromLocal host (l - l mod msPerDay).

(** The proleptic Gregorian date of a day count from 1970-01-01, as
    [Date] computes it: [doe] is the day within the 400-year era that
    starts on 1 March, which [civilInEra] turns into the year within the
    era, the month and the day of the month; [marchMonth] is the month
    that comes so many months after March. *)
Definition marchMonth (mp : Z) : Z := if mp <? 10 then mp + 3 else mp - 9.

Definition civilInEra (doe : Z) : Z * Z * Z :=
  let yoe := (doe - doe / 1460 + doe / 36524 - doe / 146096) / 365 in
  let doy := doe - (365 * yoe + yoe / 4 - yoe / 100) in
  let mp := (5 * doy + 2) / 153 in
  let d := doy - (153 * mp + 2) / 5 + 1 in
  let m := marchMonth mp in
  (if m <=? 2 then yoe + 1 else yoe, m, d).

Definition civilFromDays (z : Z) : Z * Z * Z :=
  let z' := z + 719468 in
  let era := z' / 146097 in
  let doe := z' - era * 146097 in
  let '(y, m, d) := civilInEra doe in
  (y + era * 400, m, d).

(** The wall-clock reading of a time value counted as if it were UTC; the
    milliseconds are dropped. *)
Definition civilOfMs (l : Z) : Civil :=
  let days := l / msPerDay in
  let rest := l mod msPerDay in
  let '(y, m, d) := civilFromDays days in
  mkCivil y m d (rest / 3600000) (rest / 60000 mod 60) (rest / 1000 mod 60).

(** [Date.prototype.getFullYear] of a valid date, in a zone. *)
Definition fullYear (zone : Zone) (t : Z) : Z := year (civilOfMs (toLocal zone t)).

End Calendar.
Export Calendar.

(** ** Decoding the device's capture time *)

Module TimeCodec.

Definition isDigit (c : ascii) : bool :=
  let n := nat_of_ascii c in (48 <=? n)%nat && (n <=? 57)%nat.

Definition digitVal (c : ascii) : Z := Z.of_nat (nat_of_ascii c) - 48.

Fixpoint digitsFrom (acc : Z) (s : string) : option Z :=
  match s with
  | EmptyString => Some acc
  | String c rest =>
      if isDigit c then digitsFrom (acc * 10 + digitVal c) rest else None
  end.

(** The number written by exactly [n] decimal digits. *)
Definition digits (n : nat) (s : string) : option Z :=
  if (String.length s =? n)%nat then digitsFrom 0 s else None.

(** The six [substring] calls of the decoding loop, in source order:
    year, month, day, hour, minute, second. Position 8 is read by none. *)
Definition captureTimeFields (captureTimeStr : string)
  : string * string * string * string * string * string :=
  (substring captureTimeStr 0 4,
   substring captureTimeStr 4 6,
   substring captureTimeStr 6 8,
   substring captureTimeStr 9 11,
   substring captureTimeStr 11 13,
   substring captureTimeStr 13 15).

(** The template literal handed to [moment.tz]. *)
Definition captureTimeIso (captureTimeStr : string) : string :=
  let '(year, month, day, hour, minute, second) := captureTimeFields captureTimeStr in
  year ++ "-" ++ month ++ "-" ++ day ++ "T" ++ hour ++ ":" ++ minute ++ ":" ++ second.

(** What moment's ISO-8601 recogniser makes of a string. Of the formats
    it knows, a string built by the template above can only be
    [YYYY-MM-DDTHH:mm:ss]: four digits, two, two, [T], two, two, two. *)
Inductive IsoParse : Type :=
  | IsoNoMatch
  | IsoOverflow
  | IsoCivil (c : Civil).

Definition isSep (iso : string) (i : nat) (c : ascii) : bool :=
  match String.get i iso with
  | Some c' => Ascii.eqb c c'
  | None => false
  end.

(** moment's overflow check: month 1-12, day within the month, hour 0-24
    with 24 only as 24:00:00, minute and second 0-59. *)
Definition civilInRange (c : Civil) : bool :=
  (1 <=? month c) && (month c <=? 12)
  && (1 <=? day c) && (day c <=? daysInMonth (year c) (month c))
  && (hour c <=? 24)
  && negb ((hour c =? 24) && negb ((minute c =? 0) && (second c =? 0)))
  && (minute c <=? 59) && (second c <=? 59).

Definition momentIso (iso : string) : IsoParse :=
  if (String.length iso =? 19)%nat
     && isSep iso 4 "-" && isSep iso 7 "-" && isSep iso 10 "T"
     && isSep iso 13 ":" && isSep iso 16 ":"
  then
    match digits 4 (substring iso 0 4), digits 2 (substring iso 5 7),
          digits 2 (substring iso 8 10), digits 2 (substring iso 11 13),
          digits 2 (substring iso 14 16), digits 2 (substring iso 17 19) with
    | Some y, Some mo, Some d, Some h, Some mi, Some s =>
        let c := mkCivil y mo d h mi s in
        if civilInRange c then IsoCivil c else IsoOverflow
    | _, _, _, _, _, _ => IsoNoMatch
    end
  else IsoNoMatch.

Section Decode.

(** The zone [Asia/Jerusalem] as the time-zone data of the installation
    gives it. *)
Variable jerusalem : Zone.

(** What the engine's [Date] constructor answers for a string moment
    does not recognise (moment's deprecated fall-back). *)
Variable dateFallback : string -> JDate.

(** [moment.tz(iso, 'Asia/Jerusalem').toDate()]. A recognised reading
    is taken as wall-clock time of the zone; one with a field out of
    range is an invalid date. *)
Definition momentTz (iso : string) : JDate :=
  match momentIso iso with
  | IsoCivil c => ValidDate (fromLocal jerusalem (civilMs c))
  | IsoOverflow => InvalidDate
  | IsoNoMatch => dateFallback iso
  end.

Definition decodeCaptureTime (captureTimeStr : string) : JDate :=
  momentTz (captureTimeIso captureTimeStr).

End Decode.

End TimeCodec.
Export TimeCodec.

(** ** Exceptions and state *)

Module Effects.

(** A computation over a state [S] that returns or throws; the state
    reached is kept in both cases, as effects done before a [throw] are. *)
Definition M (S A : Type) : Type := S -> Result A * S.

Definition ret {S A} (a : A) : M S A := fun s => (Ok a, s).

Definition throw {S A} (e : JsError) : M S A := fun s => (Throw e, s).

Definition bind {S A B} (m : M S A) (k : A -> M S B) : M S B :=
  fun s =>
    match m s with
    | (Ok a, s') => k a s'
    | (Throw e, s') => (Throw e, s')
    end.

(** [try { m } catch (error) { handler error }]. *)
Definition tryCatch {S A} (m : M S A) (handler : JsError -> M S A) : M S A :=
  fun s =>
    match m s with
    | (Ok a, s') => (Ok a, s')
    | (Throw e, s') => handler e s'
    end.

(** A pure step that may throw. *)
Definition liftR {S A} (r : Result A) : M S A := fun s => (r, s).

Definition bindR {A B} (r : Result A) (k : A -> Result B) : Result B :=
  match r with
  | Ok a => k a
  | Throw e => Throw e
  end.

End Effects.
Export Effects.

Declare Scope js_scope.
Delimit Scope js_scope with js.
Notation "x <- m ;; k" := (bind m (fun x => k))
  (at level 100, m at next level, right associativity) : js_scope.
Notation "m ;; k" := (bind m (fun _ => k))
  (at level 100, right associativity) : js_scope.
Notation "x <~ r ;; k" := (bindR r (fun x => k))
  (at level 100, r at next level, right associativity) : js_scope.
Local Open Scope js_scope.

(** ** The surroundings: store, device, console, clock *)

Module Env.

(** A decoded detection, as pushed on [vehicles]. *)
Record Vehicle : Type := mkVehicle {
  captureTime : JDate;
  plateNumber : JsVal;
  picName : JsVal;
  country : JsVal;
  direction : JsVal
}.

(** A row of a detection table. A text column holds the value that was
    bound for it, which for the text-only elements of the device's XML is
    a string; the two time columns hold instants. *)
Record Row : Type := mkRow {
  CaptureTime : Z;
  PlateNumber : JsVal;
  PicName : JsVal;
  Country : JsVal;
  Direction : JsVal;
  InsertTime : Z
}.

Record CameraConfig : Type := mkCamera {
  name : string;
  url : string;
  username : string;
  password : string;
  tableName : string
}.

(** What reading and parsing the body of a response comes to. *)
Inductive Body : Type :=
  | BodyFail (what : string)
  | BodyDoc (result : JsVal).

(** What one call of the digest client comes to: no response at all
    (refused, timed out), or a response with a status. *)
Inductive Reply : Type :=
  | Unreachable (what : string)
  | Http (status : Z) (statusText : string) (body : Body).

(** [res.ok]: the status is in the range 200-299. *)
Definition ok (status : Z) : bool := (200 <=? status) && (status <=? 299).

(** The lines written to the console, by call site. *)
Inductive LogEntry : Type :=
  | ErrLastSync (table : string) (error : JsError)
  | LogSearching (camera : string) (fromTime : Z)
  | LogFound (camera : string) (count : nat)
  | ErrCamera (camera : string) (error : JsError)
  | LogInserted (camera : string) (plate dir : JsVal)
  | ErrInsert (camera : string) (plate : JsVal) (error : JsError)
  | LogSaved (camera : string) (inserted : nat)
  | LogStart (camera : string) (at_ : Z)
  | LogLastSync (camera : string) (lastSync : Z)
  | LogNoNew (camera : string)
  | LogCompleted (camera : string)
  | ErrSync (camera : string) (error : JsError).

(** Everything a cycle reads or writes. [sqlFaults] and [device] are what
    the surroundings will answer next: one flag for each SQL request sent
    ([true]: the request fails), one reply for each device call; when a
    queue is used up, SQL requests succeed and the device does not
    answer. [now] is the clock, which stands still during a cycle. *)
Record World : Type := mkWorld {
  tables : gmap string (list Row);
  sqlFaults : list bool;
  device : list Reply;
  now : Z;
  console : list LogEntry
}.

Definition setTables (t : gmap string (list Row)) (w : World) : World :=
  mkWorld t (sqlFaults w) (device w) (now w) (console w).

Definition setSqlFaults (f : list bool) (w : World) : World :=
  mkWorld (tables w) f (device w) (now w) (console w).

Definition setDevice (d : list Reply) (w : World) : World :=
  mkWorld (tables w) (sqlFaults w) d (now w) (console w).

Definition setConsole (c : list LogEntry) (w : World) : World :=
  mkWorld (tables w) (sqlFaults w) (device w) (now w) c.

(** [console.log] and [console.error]. *)
Definition consoleWrite (entry : LogEntry) : M World unit :=
  fun w => (Ok tt, setConsole (console w ++ [entry])%list w).

(** [new Date()]. *)
Definition newDate : M World Z := fun w => (Ok (now w), w).

(** Whether the next SQL request sent fails. *)
Definition nextFault (w : World) : bool :=
  match sqlFaults w with
  | [] => false
  | b :: _ => b
  end.

(** Sending one request to the SQL server. It fails when the next fault
    flag says so, when the server does not accept the parameters as they
    are sent ([wellFormed] is false), or when the table does not exist;
    otherwise it runs [op] on the rows of the table. *)
Definition sqlSend {A} (wellFormed : bool) (table : string) (op : list Row -> M World A)
  : M World A :=
  fun w =>
    let w1 := setSqlFaults (tail (sqlFaults w)) w in
    if nextFault w then (Throw (SqlError "request failed"), w1)
    else if negb wellFormed then (Throw (SqlError "invalid data length"), w1)
    else match tables w1 !! table with
         | None => (Throw (SqlError "Invalid object name"), w1)
         | Some rows => op rows w1
         end.

(** A request without parameters. *)
Definition sqlRequest {A} (table : string) (op : list Row -> M World A) : M World A :=
  sqlSend true table op.

(** The driver checks every bound parameter before it sends a request,
    and a value it refuses makes the request fail without being sent.

    A value bound as [NVarChar]: a string is sent as it is, [null] and
    [undefined] are sent as NULL ([None]), anything else is refused. *)
Definition validateNVarChar (v : JsVal) : Result (option string) :=
  match v with
  | JStr s => Ok (Some s)
  | JUndefined | JNull => Ok None
  | JArr _ | JObj _ => Throw (TypeError "Invalid string.")
  end.

(** A [Date] bound as [DateTime2], the connection having [useUTC: false]:
    the year it reads in the zone of the process must be one of 1 to
    9999 (the year of an invalid date is NaN, which passes that test), and
    the date must be valid. *)
Definition validateDateTime2 (host : Zone) (d : JDate) : Result Z :=
  match d with
  | ValidDate t =>
      if (fullYear host t <? 1) || (9999 <? fullYear host t)
      then Throw (TypeError "Out of range.")
      else Ok t
  | InvalidDate => Throw (TypeError "Invalid date.")
  end.

(** A text parameter is declared with a length, [NVarChar(n)], and the
    driver sends the whole string: the server does not accept a request
    in which a string is longer than declared. *)
Definition fits (declared : nat) (text : option string) : bool :=
  match text with
  | Some s => (String.length s <=? declared)%nat
  | None => true
  end.

Fixpoint maxCaptureTime (rows : list Row) : option Z :=
  match rows with
  | [] => None
  | r :: rest =>
      match maxCaptureTime rest with
      | None => Some (CaptureTime r)
      | Some m => Some (Z.max (CaptureTime r) m)
      end
  end.

(** [SELECT MAX(CaptureTime) as LastTime FROM table]: [None] is NULL. *)
Definition sqlMaxCaptureTime (table : string) : M World (option Z) :=
  sqlRequest table (fun rows => ret (maxCaptureTime rows)).

(** [SELECT 1 FROM table WHERE PicName = @picName] with [@picName]
    bound as [NVarChar(100)]: the matching rows. Names are compared
    character by character; NULL equals nothing. *)
Definition sqlSelectByPicName (table : string) (picName : JsVal) : M World (list Row) :=
  bound <- liftR (validateNVarChar picName);;
  sqlSend (fits 100 bound) table (fun rows =>
    ret (match bound with
         | Some s => List.filter (fun r => jsEqb (PicName r) (JStr s)) rows
         | None => []
         end)).

Definition rowOf (t : Z) (v : Vehicle) (insertTime : Z) : Row :=
  mkRow t (plateNumber v) (picName v) (country v) (direction v) insertTime.

(** [INSERT INTO table (...) VALUES (...)] with its six parameters, which
    the driver checks in the order they were bound. [insertTime] is
    [new Date()], the clock of the process, which is taken to read a year
    from 1 to 9999. The definition of the tables is not part of the
    program: the four text columns are taken not to accept NULL. *)
Definition sqlInsert (host : Zone) (table : string) (v : Vehicle) (insertTime : Z)
  : M World unit :=
  t <- liftR (validateDateTime2 host (captureTime v));;
  plate <- liftR (validateNVarChar (plateNumber v));;
  pic <- liftR (validateNVarChar (picName v));;
  ctry <- liftR (validateNVarChar (country v));;
  dir <- liftR (validateNVarChar (direction v));;
  sqlSend (fits 50 plate && fits 100 pic && fits 10 ctry && fits 20 dir) table
    (fun rows w =>
       match plate, pic, ctry, dir with
       | Some _, Some _, Some _, Some _ =>
           (Ok tt, setTables (<[table := (rows ++ [rowOf t v insertTime])%list]> (tables w)) w)
       | _, _, _, _ => (Throw (SqlError "Cannot insert the value NULL"), w)
       end).

(** One call of the digest client: the next reply of the device. *)
Definition clientFetch : M World Reply :=
  fun w =>
    match device w with
    | [] => (Ok (Unreachable "timeout"), w)
    | r :: rest => (Ok r, setDevice rest w)
    end.

End Env.
Export Env.

(** ** The synchronisation engine *)

Module Sync.

Section Engine.

(** The zone of the process, which [Date.prototype.setHours] works in. *)
Variable host : Zone.
Variable jerusalem : Zone.
Variable dateFallback : string -> JDate.

(** The start of today: [new Date()] then [setHours(0, 0, 0, 0)]. *)
Definition startOfToday : M World Z :=
  today <- newDate;;
  ret (setHours0 host today).

Definition getLastSyncTime (tableName : string) : M World Z :=
  tryCatch
    (LastTime <- sqlMaxCaptureTime tableName;;
     match LastTime with
     | Some t => ret t
     | None => startOfToday
     end)
    (fun error =>
       consoleWrite (ErrLastSync tableName error);;
       startOfToday).

(** The body of the decoding loop up to the [push]: the value pushed, or
    the exception that leaves the loop. *)
Definition decodePlate (plate : JsVal) : Result Vehicle :=
  captureTimeField <~ getField plate "captureTime";;
  captureTimeStr <~ getIndex0 captureTimeField;;
  year <~ callSubstring captureTimeStr 0 4;;
  month <~ callSubstring captureTimeStr 4 6;;
  day <~ callSubstring captureTimeStr 6 8;;
  hour <~ callSubstring captureTimeStr 9 11;;
  minute <~ callSubstring captureTimeStr 11 13;;
  second <~ callSubstring captureTimeStr 13 15;;
  let captureTime :=
    momentTz jerusalem dateFallback
      (year ++ "-" ++ month ++ "-" ++ day ++ "T" ++ hour ++ ":" ++ minute ++ ":" ++ second) in
  plateNumberField <~ getField plate "plateNumber";;
  plateNumber <~ getIndex0 plateNumberField;;
  picNameField <~ getField plate "picName";;
  picName <~ getIndex0 picNameField;;
  countryField <~ getField plate "country";;
  country <~ getIndex0 countryField;;
  directionField <~ getField plate "direction";;
  direction <~ getIndex0 directionField;;
  Ok (mkVehicle captureTime plateNumber picName country direction).

(** The [try] block of [fetchVehiclesFromCamera] runs over the world and
    the local array [vehicles], which the [catch] block leaves as it is. *)
Definition FetchState : Type := World * list Vehicle.

Definition liftW {A} (m : M World A) : M FetchState A :=
  fun '(w, vehicles) => let '(r, w') := m w in (r, (w', vehicles)).

Definition push (v : Vehicle) : M FetchState unit :=
  fun '(w, vehicles) => (Ok tt, (w, (vehicles ++ [v])%list)).

Definition vehiclesLength : M FetchState nat :=
  fun '(w, vehicles) => (Ok (length vehicles), (w, vehicles)).

(** [for (const plate of plates) { ... }]. *)
Fixpoint forEachPlate (plates : list JsVal) : M FetchState unit :=
  match plates with
  | [] => ret tt
  | plate :: rest =>
      v <- liftR (decodePlate plate);;
      push v;;
      forEachPlate rest
  end.

(** [Array.isArray(p) ? p : [p]]. *)
Definition normalizePlates (Plate : JsVal) : list JsVal :=
  if isArray Plate then arrayItems Plate else [Plate].

Definition fetchBody (fromTime : Z) (cameraConfig : CameraConfig) : M FetchState unit :=
  liftW (consoleWrite (LogSearching (name cameraConfig) fromTime));;
  res <- liftW clientFetch;;
  match res with
  | Unreachable what => throw (NetError what)
  | Http status statusText body =>
      (if negb (ok status) then throw (HttpError status statusText) else ret tt);;
      result <- liftR (match body with
                       | BodyFail what => Throw (XmlError what)
                       | BodyDoc result => Ok result
                       end);;
      Plates <- liftR (getField result "Plates");;
      (if truthy Plates then
         Plate <- liftR (getField Plates "Plate");;
         if truthy Plate then forEachPlate (normalizePlates Plate) else ret tt
       else ret tt);;
      found <- vehiclesLength;;
      liftW (consoleWrite (LogFound (name cameraConfig) found))
  end.

Definition fetchVehiclesFromCamera (fromTime : Z) (cameraConfig : CameraConfig)
  : M World (list Vehicle) :=
  fun w =>
    let '(_, (w', vehicles)) :=
      tryCatch (fetchBody fromTime cameraConfig)
        (fun error => liftW (consoleWrite (ErrCamera (name cameraConfig) error)))
        (w, []) in
    (Ok vehicles, w').

(** One turn of the loop of [insertVehiclesToSQL]: the existence check
    and the conditional insert, inside their [try]. *)
Definition appendIfAbsent (vehicle : Vehicle) (tableName cameraName : string)
  (inserted : nat) : M World nat :=
  tryCatch
    (checkResult <- sqlSelectByPicName tableName (picName vehicle);;
     if (length checkResult =? 0)%nat then
       insertTime <- newDate;;
       sqlInsert host tableName vehicle insertTime;;
       consoleWrite (LogInserted cameraName (plateNumber vehicle) (direction vehicle));;
       ret (S inserted)
     else ret inserted)
    (fun error =>
       consoleWrite (ErrInsert cameraName (plateNumber vehicle) error);;
       ret inserted).

Fixpoint insertLoop (vehicles : list Vehicle) (tableName cameraName : string)
  (inserted : nat) : M World nat :=
  match vehicles with
  | [] => ret inserted
  | vehicle :: rest =>
      inserted' <- appendIfAbsent vehicle tableName cameraName inserted;;
      insertLoop rest tableName cameraName inserted'
  end.

Definition insertVehiclesToSQL (vehicles : list Vehicle) (tableName cameraName : string)
  : M World nat :=
  if (length vehicles =? 0)%nat then ret 0%nat
  else
    inserted <- insertLoop vehicles tableName cameraName 0%nat;;
    consoleWrite (LogSaved cameraName inserted);;
    ret inserted.

(** What [syncVehicles] does with the vehicles fetched. *)
Definition persistPhase (vehicles : list Vehicle) (cameraConfig : CameraConfig) : M World unit :=
  (if (0 <? length vehicles)%nat then
     insertVehiclesToSQL vehicles (tableName cameraConfig) (name cameraConfig);;
     ret tt
   else consoleWrite (LogNoNew (name cameraConfig)));;
  consoleWrite (LogCompleted (name cameraConfig)).

Definition syncVehicles (cameraConfig : CameraConfig) : M World unit :=
  started <- newDate;;
  consoleWrite (LogStart (name cameraConfig) started);;
  tryCatch
    (lastSync <- getLastSyncTime (tableName cameraConfig);;
     consoleWrite (LogLastSync (name cameraConfig) lastSync);;
     vehicles <- fetchVehiclesFromCamera lastSync cameraConfig;;
     persistPhase vehicles cameraConfig)
    (fun error => consoleWrite (ErrSync (name cameraConfig) error)).

Fixpoint syncAllCameras (cameras : list CameraConfig) : M World unit :=
  match cameras with
  | [] => ret tt
  | camera :: rest =>
      syncVehicles camera;;
      syncAllCameras rest
  end.

(** The life of the store with this program as its only writer: cycles
    of [syncAllCameras] over any cameras, and between them the
    surroundings changing anything but the tables. *)
Inductive Cycles : World -> World -> Prop :=
  | cycles_done (w : World) : Cycles w w
  | cycles_sync (w : World) (cameras : list CameraConfig) (w' : World) :
      Cycles (snd (syncAllCameras cameras w)) w' -> Cycles w w'
  | cycles_env (w w1 w' : World) :
      tables w1 = tables w -> Cycles w1 w' -> Cycles w w'.

End Engine.

End Sync.
Export Sync.

(** ** Invariants and reference functions *)

Module Spec.

(** No two rows of a table share a picture name. *)
Definition uniquePicNames (t : gmap string (list Row)) : Prop :=
  forall table rows, t !! table = Some rows -> NoDup (map PicName rows).

(** One write: a row whose picture name no row of its table has yet is
    put at the end of that table. *)
Definition appendsFresh (t t' : gmap string (list Row)) : Prop :=
  exists table rows row,
    t !! table = Some rows
    /\ (forall r, In r rows -> PicName r <> PicName row)
    /\ t' = <[table := (rows ++ [row])%list]> t.

(** Any number of such writes. *)
Definition evolves : relation (gmap string (list Row)) := rtc appendsFresh.

(** Every SQL request queued to fail or succeed succeeds. *)
Definition noFaults (w : World) : Prop :=
  Forall (fun b => b = false) (sqlFaults w).

Definition recorded (picName : JsVal) (rows : list Row) : bool :=
  existsb (fun r => jsEqb (PicName r) picName) rows.

(** A value that can be sent for a text parameter declared with [n]
    characters and stored in its column: a string no longer than that. *)
Definition isText (n : nat) (v : JsVal) : bool :=
  match v with
  | JStr s => (String.length s <=? n)%nat
  | _ => false
  end.

(** The capture time of a vehicle whose insert the driver and the server
    accept, in a process of zone [host]: a valid date of a year from 1 to
    9999 there, with the four texts within their declared lengths. *)
Definition accepted (host : Zone) (v : Vehicle) : option Z :=
  match validateDateTime2 host (captureTime v) with
  | Ok t =>
      if isText 50 (plateNumber v) && isText 100 (picName v)
         && isText 10 (country v) && isText 20 (direction v)
      then Some t
      else None
  | Throw _ => None
  end.

(** The rows of a table after a fault-free pass of the insert loop over
    [vehicles], all inserted at [insertTime]. *)
Fixpoint persisted (host : Zone) (rows : list Row) (vehicles : list Vehicle) (insertTime : Z)
  : list Row :=
  match vehicles with
  | [] => rows
  | v :: rest =>
      if recorded (picName v) rows then persisted host rows rest insertTime
      else match accepted host v with
           | Some t => persisted host (rows ++ [rowOf t v insertTime])%list rest insertTime
           | None => persisted host rows rest insertTime
           end
  end.

(** A vehicle the insert loop has nothing to do for: its picture name is
    in the table, or its insert is not accepted. *)
Definition settled (host : Zone) (rows : list Row) (v : Vehicle) : Prop :=
  recorded (picName v) rows = true \/ accepted host v = None.

(** The error of a device call that fails before any plate element is
    looked at: no response, a status that is not 2xx, or a body that cannot
    be read or parsed. *)
Definition failureOf (reply : Reply) : option JsError :=
  match reply with
  | Unreachable what => Some (NetError what)
  | Http status statusText body =>
      if negb (ok status) then Some (HttpError status statusText)
      else match body with
           | BodyFail what => Some (XmlError what)
           | BodyDoc _ => None
           end
  end.

(** The vehicles of a list of plate elements that all decode. *)
Definition decodesTo (decode : JsVal -> Result Vehicle)
  (plates : list JsVal) (vehicles : list Vehicle) : Prop :=
  Forall2 (fun plate v => decode plate = Ok v) plates vehicles.

(** The world with [lines] written before everything else on its
    console. *)
Definition logged (lines : list LogEntry) (w : World) : World :=
  setConsole (lines ++ console w)%list w.

Definition loggedFetch (lines : list LogEntry) (s : FetchState) : FetchState :=
  (logged lines (fst s), snd s).

(** A computation that does not read the console: with lines written
    before it starts, it answers the same and leaves the same state, the
    lines still first on the console. *)
Definition blind {S A : Type} (shift : list LogEntry -> S -> S) (m : M S A) : Prop :=
  forall lines s, m (shift lines s) = (fst (m s), shift lines (snd (m s))).

(** The surroundings less the next SQL fault flag and the next reply of
    the device. *)
Definition skipped (w : World) : World :=
  setDevice (tail (device w)) (setSqlFaults (tail (sqlFaults w)) w).

End Spec.
Export Spec.

(** ** Sample data *)

Module Samples.

Definition utc : Zone := fixedZone 0.

(** Israel Standard Time, the offset of [Asia/Jerusalem] in winter. *)
Definition jerusalemWinter : Zone := fixedZone 7200000.

Definition noFallback (s : string) : JDate := InvalidDate.

Definition camera1 : CameraConfig :=
  mkCamera "Camera1" "http://10.0.0.1" "admin" "secret" "VehicleDetection".

Definition camera2 : CameraConfig :=
  mkCamera "Camera2" "http://10.0.0.2" "admin" "secret" "VehicleDetection2".

Definition plateOf (captureTime plateNumber picName : string) : JsVal :=
  JObj [("captureTime", JArr [JStr captureTime]);
        ("plateNumber", JArr [JStr plateNumber]);
        ("picName", JArr [JStr picName]);
        ("country", JArr [JStr "ISR"]);
        ("direction", JArr [JStr "forward"])].

Definition plateA : JsVal := plateOf "20240115T091530+0200" "1234567" "a.jpg".
Definition plateB : JsVal := plateOf "20240115T101530+0200" "7654321" "b.jpg".
Definition plateC : JsVal := plateOf "20240115T111530+0200" "5550123" "c.jpg".

(** A plate element with month 13. *)
Definition plateBadTime : JsVal := plateOf "20241315T101530+0200" "7654321" "b.jpg".

(** A plate element without [picName]. *)
Definition plateNoPic : JsVal :=
  JObj [("captureTime", JArr [JStr "20240115T101530+0200"]);
        ("plateNumber", JArr [JStr "7654321"]);
        ("country", JArr [JStr "ISR"]);
        ("direction", JArr [JStr "forward"])].

Definition docOf (plates : list JsVal) : JsVal :=
  JObj [("Plates", JObj [("Plate", JArr plates)])].

Definition emptyTables : gmap string (list Row) :=
  <["VehicleDetection" := []]> (<["VehicleDetection2" := []]> ∅).

(** 2024-01-15 23:30:00 UTC, which is 01:30 on the 16th in Jerusalem. *)
Definition lateEvening : Z := 1705361400000.

Definition worldWith (faults : list bool) (replies : list Reply) : World :=
  mkWorld emptyTables faults replies lateEvening [].

Definition vehicleA : Vehicle :=
  mkVehicle (ValidDate 1705302930000) (JStr "1234567") (JStr "a.jpg") (JStr "ISR") (JStr "forward").

Definition vehicleB : Vehicle :=
  mkVehicle (ValidDate 1705306530000) (JStr "7654321") (JStr "b.jpg") (JStr "ISR") (JStr "forward").

Definition vehicleC : Vehicle :=
  mkVehicle (ValidDate 1705310130000) (JStr "5550123") (JStr "c.jpg") (JStr "ISR") (JStr "forward").

Definition vehicleBadTime : Vehicle :=
  mkVehicle InvalidDate (JStr "7654321") (JStr "b.jpg") (JStr "ISR") (JStr "forward").

Definition rowA : Row := rowOf 1705302930000 vehicleA lateEvening.

Definition okReply (plates : list JsVal) : Reply := Http 200 "OK" (BodyDoc (docOf plates)).

(** Worlds with empty tables, at [lateEvening]. *)
Definition worldIdle : World := worldWith [] [].
Definition worldCheckFails : World := worldWith [true] [].
Definition worldDuplicates : World :=
  worldWith [] [okReply [plateA; plateB; plateA]; okReply [plateA; plateC]].
Definition worldTwoPlates : World := worldWith [] [okReply [plateA; plateB]].
Definition worldMissingPic : World := worldWith [] [okReply [plateA; plateNoPic; plateC]].
Definition worldBadTime : World := worldWith [] [okReply [plateA; plateBadTime; plateC]].
Definition worldFirstDown : World := worldWith [] [Unreachable "ETIMEDOUT"; okReply [plateA]].
(** A response with one plate element, which has no [picName]. *)
Definition worldLoneNoPic : World := worldWith [] [okReply [plateNoPic]].

Definition world503 : World :=
  worldWith [] [Http 503 "Service Unavailable" (BodyDoc (docOf [plateA]))].

(** A store whose first table holds the detection A, and a device about
    to report B. *)
Definition worldOneRow : World :=
  mkWorld (<["VehicleDetection" := [rowA]]> emptyTables) [] [okReply [plateB]] lateEvening [].

(** Two cycles of the first camera, on a host in UTC. *)
Definition afterCycles (w : World) : World :=
  snd (syncAllCameras utc jerusalemWinter noFallback [camera1]
         (snd (syncAllCameras utc jerusalemWinter noFallback [camera1] w))).

End Samples.
Export Samples.

(** ** The single-camera entry point

    [index.js] has the same functions with the table and the camera taken
    from the environment of the process: they are the functions above at
    the table [VehicleDetection], for one camera, whose name appears in no
    console line. *)

Module Single.

Definition theCamera (CAMERA_URL CAMERA_USERNAME CAMERA_PASSWORD : string) : CameraConfig :=
  mkCamera "" CAMERA_URL CAMERA_USERNAME CAMERA_PASSWORD "VehicleDetection".

Definition getLastSyncTime (host : Zone) : M World Z :=
  Sync.getLastSyncTime host "VehicleDetection".

Definition fetchVehiclesFromCamera (jerusalem : Zone) (dateFallback : string -> JDate)
  (camera : CameraConfig) (fromTime : Z) : M World (list Vehicle) :=
  Sync.fetchVehiclesFromCamera jerusalem dateFallback fromTime camera.

Definition insertVehiclesToSQL (host : Zone) (vehicles : list Vehicle) : M World nat :=
  Sync.insertVehiclesToSQL host vehicles "VehicleDetection" "".

Definition syncVehicles (host jerusalem : Zone) (dateFallback : string -> JDate)
  (camera : CameraConfig) : M World unit :=
  Sync.syncVehicles host jerusalem dateFallback camera.

End Single.

(** ** Reference functions for the store and the decoder *)

Module Reference.

(** The rows a batch can contribute: one for each vehicle whose capture
    time is a date, in the order of the batch, inserted at [insertTime]. *)
Definition candidateRows (vehicles : list Vehicle) (insertTime : Z) : list Row :=
  omap (fun v =>
          match captureTime v with
          | ValidDate t => Some (rowOf t v insertTime)
          | InvalidDate => None
          end) vehicles.

(** The vehicles of the plate elements before the first that throws. *)
Fixpoint decodePrefix (decode : JsVal -> Result Vehicle) (plates : list JsVal)
  : list Vehicle :=
  match plates with
  | [] => []
  | plate :: rest =>
      match decode plate with
      | Ok v => v :: decodePrefix decode rest
      | Throw _ => []
      end
  end.

(** What the first plate element that throws throws. *)
Fixpoint firstFailure (decode : JsVal -> Result Vehicle) (plates : list JsVal)
  : option JsError :=
  match plates with
  | [] => None
  | plate :: rest =>
      match decode plate with
      | Ok _ => firstFailure decode rest
      | Throw e => Some e
      end
  end.

(** [plate.name[0]]. *)
Definition field0 (plate : JsVal) (name : string) : Result JsVal :=
  field <~ getField plate name;;
  getIndex0 field.

(** The positions of a capture time that the decoder reads. *)
Definition readPositions : list nat := [0; 1; 2; 3; 4; 5; 6; 7; 9; 10; 11; 12; 13; 14]%nat.

Definition digitAt (s : string) (i : nat) : bool :=
  match String.get i s with
  | Some c => isDigit c
  | None => false
  end.

Definition allDigitsAt (s : string) : bool := forallb (digitAt s) readPositions.

(** The line of the [catch] block of [syncVehicles]. *)
Definition isSyncError (entry : LogEntry) : bool :=
  match entry with
  | ErrSync _ _ => true
  | _ => false
  end.

(** Console lines none of which is that line. *)
Definition quiet (added : list LogEntry) : Prop :=
  Forall (fun entry => isSyncError entry = false) added.

End Reference.
Export Reference.

(** ** Start-up: the cameras of the environment, the first run, the timer *)

Module Startup.

(** [process.env]: the variables that are set, with their text. *)
Definition Environment : Type := gmap string string.

(** [if (process.env.X)]: set, and not to the empty text. *)
Definition envTruthy (value : option string) : bool :=
  match value with
  | Some s => negb (String.eqb s "")
  | None => false
  end.

(** The text of a variable as a field of a camera. A variable that is not
    set is [undefined] there; the camera record carries text, and the
    engine reads neither the URL nor the credentials, so it is kept as the
    empty text. *)
Definition envText (value : option string) : string := default "" value.

(** The [cameras] array [main] builds: Camera 1, then Camera 2, each only
    when its URL is set. *)
Definition configuredCameras (env : Environment) : list CameraConfig :=
  let cameras := [] in
  let cameras :=
    if envTruthy (env !! "CAMERA1_URL")
    then (cameras ++ [mkCamera "Camera1" (envText (env !! "CAMERA1_URL"))
                        (envText (env !! "CAMERA1_USERNAME"))
                        (envText (env !! "CAMERA1_PASSWORD")) "VehicleDetection"])%list
    else cameras in
  let cameras :=
    if envTruthy (env !! "CAMERA2_URL")
    then (cameras ++ [mkCamera "Camera2" (envText (env !! "CAMERA2_URL"))
                        (envText (env !! "CAMERA2_USERNAME"))
                        (envText (env !! "CAMERA2_PASSWORD")) "VehicleDetection2"])%list
    else cameras in
  cameras.

(** How [main] ends: the process exits with a code, or it stays up with
    its cameras on a timer of so many minutes. In both cases the world it
    has reached. *)
Inductive Started : Type :=
  | Exited (code : Z) (w : World)
  | Running (cameras : list CameraConfig) (intervalMinutes : Z) (w : World).

Section Main.

Variable host : Zone.
Variable jerusalem : Zone.
Variable dateFallback : string -> JDate.

(** [parseInt] of a variable of the environment; [None] is NaN. *)
Variable parseInt : option string -> option Z.

(** [parseInt(process.env.SYNC_INTERVAL_MINUTES) || 2]. *)
Definition intervalMinutes (env : Environment) : Z :=
  match parseInt (env !! "SYNC_INTERVAL_MINUTES") with
  | Some n => if n =? 0 then 2 else n
  | None => 2
  end.

(** [main], given whether [sql.connect] succeeds. The lines [main] itself
    writes are not console lines of the engine and are left out. *)
Definition main (env : Environment) (connects : bool) (w : World) : Started :=
  let cameras := configuredCameras env in
  if (length cameras =? 0)%nat then Exited 1 w
  else if negb connects then Exited 1 w
  else
    let w1 := snd (syncAllCameras host jerusalem dateFallback cameras w) in
    Running cameras (intervalMinutes env) w1.

(** The process after [main]: the timer fires any number of times, each
    time running [syncAllCameras] over the same cameras, one run ending
    before the next begins, the surroundings changing anything but the
    tables in between. *)
Inductive Ticks (cameras : list CameraConfig) : World -> World -> Prop :=
  | ticks_none (w : World) : Ticks cameras w w
  | ticks_job (w w' : World) :
      Ticks cameras (snd (syncAllCameras host jerusalem dateFallback cameras w)) w' ->
      Ticks cameras w w'
  | ticks_env (w w1 w' : World) :
      tables w1 = tables w -> Ticks cameras w1 w' -> Ticks cameras w w'.

End Main.

End Startup.
Export Startup.

(** ** The search time sent to the device *)

From Stdlib Require DecimalString.

Module Request.

(** ['' + n] for an integer [n >= 0]. *)
Definition decimal (n : Z) : string :=
  DecimalString.NilZero.string_of_uint (N.to_uint (Z.to_N n)).

Fixpoint zeros (n : nat) : string :=
  match n with
  | O => ""
  | S k => String "0" (zeros k)
  end.

(** moment's [zeroFill(number, targetLength)]: the sign if negative, then
    the absolute value padded with zeros on the left. *)
Definition zeroFill (number : Z) (targetLength : nat) : string :=
  let absNumber := decimal (Z.abs number) in
  let zerosToFill := (targetLength - String.length absNumber)%nat in
  (if 0 <=? number then "" else "-") ++ zeros zerosToFill ++ absNumber.

(** [format('YYYY-MM-DDTHH:mm:ss')] of a wall-clock reading: each token
    is [zeroFill] of its field to the length of the token. *)
Definition formatCivil (c : Civil) : string :=
  zeroFill (year c) 4 ++ "-" ++ zeroFill (month c) 2 ++ "-" ++ zeroFill (day c) 2
  ++ "T" ++ zeroFill (hour c) 2 ++ ":" ++ zeroFill (minute c) 2
  ++ ":" ++ zeroFill (second c) 2.

(** [moment(fromTime).tz('Asia/Jerusalem').format('YYYY-MM-DDTHH:mm:ss')]
    for a valid date [fromTime]: the [picTime] of the request. *)
Definition picTime (jerusalem : Zone) (fromTime : Z) : string :=
  formatCivil (civilOfMs (toLocal jerusalem fromTime)).

(** The first instant of the year 0 and of the year 10000, as wall-clock
    time values. *)
Definition yearZeroMs : Z := -62167219200000.
Definition yearTenThousandMs : Z := 253402300800000.

(** The character of a decimal digit. *)
Definition digitChar (v : Z) : ascii := ascii_of_nat (48 + Z.to_nat v).

(** A check over the numbers [from], [from + 1], ..., [count] of them. *)
Fixpoint allFrom (check : Z -> bool) (from : Z) (count : nat) : bool :=
  match count with
  | O => true
  | S k => if check from then allFrom check (from + 1) k else false
  end.

(** [zeroFill] writes the decimal digits, and as many as asked. *)
Definition twoDigitsOk (n : Z) : bool :=
  String.eqb (zeroFill n 2)
    (String (digitChar (n / 10)) (String (digitChar (n mod 10)) "")).

Definition fourDigitsOk (n : Z) : bool :=
  String.eqb (zeroFill n 4)
    (String (digitChar (n / 1000)) (String (digitChar (n / 100 mod 10))
      (String (digitChar (n / 10 mod 10)) (String (digitChar (n mod 10)) "")))).

End Request.
Export Request.

(** ** More sample data *)

Module Deployment.

(** Both cameras configured, no interval given. *)
Definition envBoth : Environment :=
  <["CAMERA1_URL" := "http://10.0.0.1"]>
    (<["CAMERA1_USERNAME" := "admin"]>
       (<["CAMERA1_PASSWORD" := "secret"]>
          (<["CAMERA2_URL" := "http://10.0.0.2"]>
             (<["CAMERA2_USERNAME" := "admin"]>
                (<["CAMERA2_PASSWORD" := "secret"]> ∅))))).

(** A [parseInt] that is only ever asked about a variable that is not
    set. *)
Definition parseIntUnset (value : option string) : option Z := None.

(** The world after the first run of [main] with both cameras, on a host
    in UTC, and after the timer has fired once more. *)
Definition afterStart (w : World) : World :=
  snd (syncAllCameras utc jerusalemWinter noFallback [camera1; camera2] w).

Definition afterTick (w : World) : World := afterStart (afterStart w).

(** 09:15:30 on 2024-01-15. *)
Definition quarterPastNine : Civil := mkCivil 2024 1 15 9 15 30.

End Deployment.
Export Deployment.
(** * Properties *)

(** ** Equality of values *)

Lemma jsEqb_eq (a b : JsVal) : jsEqb a b = true <-> a = b.
Proof.
  revert b. induction a as [ | | s | items IH | props IH] using JsVal_nested_ind;
    intros b; destruct b as [ | | t | items' | props']; simpl;
    try (split; [discriminate | congruence]); try (split; reflexivity).
  - rewrite String.eqb_eq. split; congruence.
  - revert items'. induction IH as [ | x xs Hx _ IHxs]; intros [ | y ys];
      try (split; [discriminate | congruence]); [split; reflexivity | ].
    rewrite andb_true_iff, Hx. specialize (IHxs ys). rewrite IHxs.
    split; [intros [-> H]; congruence | intros H; injection H; intros; subst; auto].
  - revert props'. induction IH as [ | [k x] ps Hx _ IHps]; intros [ | [l y] qs];
      try (split; [discriminate | congruence]); [split; reflexivity | ].
    rewrite !andb_true_iff, String.eqb_eq. simpl in Hx. rewrite Hx.
    specialize (IHps qs). rewrite IHps.
    split; [intros [[-> ->] H]; congruence | intros H; injection H; intros; subst; auto].
Qed.

Lemma jsEqb_refl (a : JsVal) : jsEqb a a = true.
Proof. now apply jsEqb_eq. Qed.

Lemma recorded_In (p : JsVal) (rows : list Row) :
  recorded p rows = true <-> In p (map PicName rows).
Proof.
  unfold recorded. rewrite existsb_exists, in_map_iff.
  split; intros [r [H1 H2]]; exists r.
  - apply jsEqb_eq in H2. auto.
  - subst p. split; [assumption | apply jsEqb_refl].
Qed.

Lemma filter_recorded (p : JsVal) (rows : list Row) :
  (length (List.filter (fun r => jsEqb (PicName r) p) rows) =? 0)%nat = negb (recorded p rows).
Proof.
  unfold recorded. induction rows as [ | r rows IH]; simpl; [reflexivity | ].
  destruct (jsEqb (PicName r) p); simpl; [reflexivity | exact IH].
Qed.

Section Properties.

Variable host : Zone.
Variable jerusalem : Zone.
Variable dateFallback : string -> JDate.

Local Abbreviation accepted := (accepted host).
Local Abbreviation persisted := (persisted host).
Local Abbreviation settled := (settled host).
Local Abbreviation sqlInsert := (sqlInsert host).
Local Abbreviation appendIfAbsent := (appendIfAbsent host).
Local Abbreviation insertLoop := (insertLoop host).
Local Abbreviation insertVehiclesToSQL := (insertVehiclesToSQL host).
Local Abbreviation persistPhase := (persistPhase host).
Local Abbreviation getLastSyncTime := (getLastSyncTime host).
Local Abbreviation decodePlate := (decodePlate jerusalem dateFallback).
Local Abbreviation forEachPlate := (forEachPlate jerusalem dateFallback).
Local Abbreviation fetchBody := (fetchBody jerusalem dateFallback).
Local Abbreviation fetchVehiclesFromCamera := (fetchVehiclesFromCamera jerusalem dateFallback).
Local Abbreviation syncVehicles := (syncVehicles host jerusalem dateFallback).
Local Abbreviation syncAllCameras := (syncAllCameras host jerusalem dateFallback).
Local Abbreviation Cycles := (Cycles host jerusalem dateFallback).

(** ** What the driver and the server accept *)

Lemma isText_string (n : nat) (v : JsVal) :
  isText n v = true <-> exists s, v = JStr s /\ (String.length s <= n)%nat.
Proof.
  destruct v as [ | | s | items | props]; simpl;
    try (split; [discriminate | intros (s' & H & _); discriminate]).
  rewrite Nat.leb_le. split; [eauto | intros (s' & [= <-] & H); exact H].
Qed.

Lemma isText_validate (n : nat) (v : JsVal) :
  isText n v = true ->
  exists s, v = JStr s /\ validateNVarChar v = Ok (Some s) /\ fits n (Some s) = true.
Proof.
  intros H. apply isText_string in H as (s & -> & Hlen).
  exists s. repeat split. now apply Nat.leb_le.
Qed.

(** A vehicle is accepted exactly when its capture time passes the check
    of [DateTime2] and its four texts are strings within their lengths. *)
Lemma accepted_some (v : Vehicle) (t : Z) :
  accepted v = Some t
  <-> validateDateTime2 host (captureTime v) = Ok t
      /\ isText 50 (plateNumber v) = true /\ isText 100 (picName v) = true
      /\ isText 10 (country v) = true /\ isText 20 (direction v) = true.
Proof.
  unfold Spec.accepted. destruct (validateDateTime2 host (captureTime v)) as [t' | e].
  - destruct (isText 50 (plateNumber v)), (isText 100 (picName v)),
      (isText 10 (country v)), (isText 20 (direction v)); simpl;
      split; try discriminate; try (intros (_ & ? & ? & ? & ?); discriminate).
    + intros [= ->]. auto.
    + intros ([= ->] & _). reflexivity.
  - split; [discriminate | intros (? & _); discriminate].
Qed.

Lemma validateDateTime2_ok (d : JDate) (t : Z) :
  validateDateTime2 host d = Ok t ->
  d = ValidDate t /\ 1 <= fullYear host t <= 9999.
Proof.
  destruct d as [t' | ]; simpl; [ | discriminate].
  destruct (Z.ltb_spec (fullYear host t') 1); simpl; [discriminate | ].
  destruct (Z.ltb_spec 9999 (fullYear host t')); simpl; [discriminate | ].
  intros [= ->]. split; [reflexivity | lia].
Qed.

Lemma accepted_date (v : Vehicle) (t : Z) :
  accepted v = Some t -> captureTime v = ValidDate t.
Proof. intros H. apply accepted_some in H as (H & _). now apply validateDateTime2_ok in H. Qed.

(** ** The store under one turn of the insert loop *)

(** Closes a goal [exists a w', (Ok _, _) = (Ok a, w') /\ ...] whose run is
    already evaluated. *)
Ltac ran :=
  eexists _, _; split; [reflexivity | ]; simpl; rewrite <- ?app_assoc; eauto 10.

Lemma evolves_append (t : gmap string (list Row)) table rows row :
  t !! table = Some rows -> recorded (PicName row) rows = false ->
  evolves t (<[table := (rows ++ [row])%list]> t).
Proof.
  intros Ht Hf. apply rtc_once. exists table, rows, row. repeat split; try assumption.
  intros r Hr Heq. assert (recorded (PicName row) rows = true) as Habs; [ | congruence].
  apply recorded_In. rewrite <- Heq. now apply in_map.
Qed.

(** The insert of a vehicle that is accepted, sent to a server that
    answers. *)
Lemma sqlInsert_accepted (v : Vehicle) (table : string) (at_ : Z) (w : World)
  (rows : list Row) (t : Z) :
  accepted v = Some t -> nextFault w = false -> tables w !! table = Some rows ->
  sqlInsert table v at_ w
  = (Ok tt,
     setTables (<[table := (rows ++ [rowOf t v at_])%list]> (tables w))
       (setSqlFaults (tail (sqlFaults w)) w)).
Proof.
  intros Hacc Hf Ht. apply accepted_some in Hacc as (Hd & Hp & Hn & Hc & Hdi).
  apply isText_validate in Hp as (sp & _ & Hp & Hfp).
  apply isText_validate in Hn as (sn & _ & Hn & Hfn).
  apply isText_validate in Hc as (sc & _ & Hc & Hfc).
  apply isText_validate in Hdi as (sd & _ & Hdi & Hfd).
  unfold Env.sqlInsert, bind, liftR, sqlSend.
  rewrite Hd, Hp, Hn, Hc, Hdi, Hfp, Hfn, Hfc, Hfd, Hf. simpl. rewrite Ht. reflexivity.
Qed.

Lemma validate_isText (n : nat) (v : JsVal) (s : string) :
  validateNVarChar v = Ok (Some s) -> fits n (Some s) = true -> isText n v = true.
Proof. destruct v; simpl; try discriminate. now intros [= ->]. Qed.

Lemma validate_not_text (n : nat) (v : JsVal) :
  match validateNVarChar v with
  | Ok (Some s) => fits n (Some s) = false
  | Ok None | Throw _ => True
  end ->
  isText n v = false.
Proof. destruct v; simpl; auto. Qed.

Lemma accepted_none (v : Vehicle) :
  (exists e, validateDateTime2 host (captureTime v) = Throw e)
  \/ isText 50 (plateNumber v) = false \/ isText 100 (picName v) = false
  \/ isText 10 (country v) = false \/ isText 20 (direction v) = false ->
  accepted v = None.
Proof.
  intros H. destruct (accepted v) as [t | ] eqn:Hacc; [ | reflexivity].
  apply accepted_some in Hacc as (Hd & Hp & Hn & Hc & Hdi).
  destruct H as [[e He] | [H | [H | [H | H]]]]; congruence.
Qed.

(** The insert of a vehicle, whatever it is and whatever the server does:
    it adds the row of the vehicle when the vehicle is accepted and the
    request goes through, and changes nothing otherwise. *)
Lemma sqlInsert_cases (v : Vehicle) (table : string) (at_ : Z) (w : World) :
  exists r w', sqlInsert table v at_ w = (r, w')
    /\ now w' = now w /\ console w' = console w /\ device w' = device w
    /\ (sqlFaults w' = sqlFaults w \/ sqlFaults w' = tail (sqlFaults w))
    /\ ((exists e, r = Throw e /\ tables w' = tables w
           /\ (accepted v = None \/ nextFault w = true \/ tables w !! table = None))
        \/ (exists rows t, r = Ok tt
              /\ tables w !! table = Some rows /\ accepted v = Some t
              /\ nextFault w = false /\ sqlFaults w' = tail (sqlFaults w)
              /\ tables w' = <[table := (rows ++ [rowOf t v at_])%list]> (tables w))).
Proof.
  assert (forall e w', now w' = now w -> console w' = console w -> device w' = device w ->
            sqlFaults w' = sqlFaults w \/ sqlFaults w' = tail (sqlFaults w) ->
            tables w' = tables w ->
            accepted v = None \/ nextFault w = true \/ tables w !! table = None ->
            exists (r : Result unit) w'', (Throw e, w') = (r, w'')
              /\ now w'' = now w /\ console w'' = console w /\ device w'' = device w
              /\ (sqlFaults w'' = sqlFaults w \/ sqlFaults w'' = tail (sqlFaults w))
              /\ ((exists e, r = Throw e /\ tables w'' = tables w
                     /\ (accepted v = None \/ nextFault w = true \/ tables w !! table = None))
                  \/ (exists rows t, r = Ok tt
                        /\ tables w !! table = Some rows /\ accepted v = Some t
                        /\ nextFault w = false /\ sqlFaults w'' = tail (sqlFaults w)
                        /\ tables w'' = <[table := (rows ++ [rowOf t v at_])%list]> (tables w))))
    as Hthrow.
  { intros e w' H1 H2 H3 H4 H5 H6. exists (Throw e), w'. repeat split; auto. left. eauto. }
  unfold Env.sqlInsert, bind, liftR.
  destruct (validateDateTime2 host (captureTime v)) as [t | e] eqn:Hd.
  2:{ apply Hthrow; auto. left. apply accepted_none. eauto. }
  pose proof (validate_not_text 50 (plateNumber v)) as Np.
  pose proof (validate_not_text 100 (picName v)) as Nn.
  pose proof (validate_not_text 10 (country v)) as Nc.
  pose proof (validate_not_text 20 (direction v)) as Nd.
  destruct (validateNVarChar (plateNumber v)) as [op | e] eqn:Hp.
  2:{ apply Hthrow; auto. left. apply accepted_none. right. left. now apply Np. }
  destruct (validateNVarChar (picName v)) as [on | e] eqn:Hn.
  2:{ apply Hthrow; auto. left. apply accepted_none. do 2 right. left. now apply Nn. }
  destruct (validateNVarChar (country v)) as [oc | e] eqn:Hc.
  2:{ apply Hthrow; auto. left. apply accepted_none. do 3 right. left. now apply Nc. }
  destruct (validateNVarChar (direction v)) as [od | e] eqn:Hdi.
  2:{ apply Hthrow; auto. left. apply accepted_none. do 4 right. now apply Nd. }
  unfold sqlSend. destruct (nextFault w) eqn:Hf; [apply Hthrow; auto | ].
  destruct op as [sp | ].
  2:{ destruct (_ && _ && _ && _); simpl; [destruct (tables w !! table) | ];
        apply Hthrow; auto; left; apply accepted_none; right; left; now apply Np. }
  destruct on as [sn | ].
  2:{ destruct (_ && _ && _ && _); simpl; [destruct (tables w !! table) | ];
        apply Hthrow; auto; left; apply accepted_none; do 2 right; left; now apply Nn. }
  destruct oc as [sc | ].
  2:{ destruct (_ && _ && _ && _); simpl; [destruct (tables w !! table) | ];
        apply Hthrow; auto; left; apply accepted_none; do 3 right; left; now apply Nc. }
  destruct od as [sd | ].
  2:{ destruct (_ && _ && _ && _); simpl; [destruct (tables w !! table) | ];
        apply Hthrow; auto; left; apply accepted_none; do 4 right; now apply Nd. }
  destruct (fits 50 (Some sp)) eqn:Hf1.
  2:{ apply Hthrow; auto. left. apply accepted_none. right. left. now apply Np. }
  destruct (fits 100 (Some sn)) eqn:Hf2.
  2:{ apply Hthrow; auto. left. apply accepted_none. do 2 right. left. now apply Nn. }
  destruct (fits 10 (Some sc)) eqn:Hf3.
  2:{ apply Hthrow; auto. left. apply accepted_none. do 3 right. left. now apply Nc. }
  destruct (fits 20 (Some sd)) eqn:Hf4.
  2:{ apply Hthrow; auto. left. apply accepted_none. do 4 right. now apply Nd. }
  cbn [andb negb tables setSqlFaults].
  destruct (tables w !! table) as [rows | ] eqn:Ht; [ | apply Hthrow; auto].
  eexists _, _. split; [reflexivity | ]. simpl. repeat split; auto.
  right. exists rows, t. repeat split; auto.
  apply accepted_some. repeat split; eauto using validate_isText.
Qed.

(** The existence check, whatever the name is and whatever the server
    does: it answers the rows that carry the name, or throws. *)
Lemma sqlSelectByPicName_cases (table : string) (p : JsVal) (w : World) :
  exists r w', sqlSelectByPicName table p w = (r, w')
    /\ now w' = now w /\ console w' = console w /\ device w' = device w
    /\ tables w' = tables w
    /\ (sqlFaults w' = sqlFaults w \/ sqlFaults w' = tail (sqlFaults w))
    /\ ((exists e, r = Throw e
           /\ (isText 100 p = false \/ nextFault w = true \/ tables w !! table = None))
        \/ (exists rows found, r = Ok found
              /\ tables w !! table = Some rows /\ nextFault w = false
              /\ sqlFaults w' = tail (sqlFaults w)
              /\ ((isText 100 p = true
                   /\ (length found =? 0)%nat = negb (recorded p rows))
                  \/ (isText 100 p = false /\ found = [])))).
Proof.
  unfold sqlSelectByPicName, bind, liftR.
  pose proof (validate_not_text 100 p) as Np.
  destruct (validateNVarChar p) as [bound | e] eqn:Hp.
  2:{ eexists _, _. split; [reflexivity | ]. repeat split; auto. left. eauto. }
  unfold sqlSend. destruct (nextFault w) eqn:Hf.
  { eexists _, _. split; [reflexivity | ]. simpl. repeat split; auto. left. eauto. }
  destruct (fits 100 bound) eqn:Hfit; simpl.
  2:{ eexists _, _. split; [reflexivity | ]. simpl. repeat split; auto. left.
      eexists. split; [reflexivity | ]. left. destruct bound; [auto | discriminate Hfit]. }
  destruct (tables w !! table) as [rows | ] eqn:Ht.
  2:{ eexists _, _. split; [reflexivity | ]. simpl. repeat split; auto. left. eauto. }
  eexists _, _. split; [reflexivity | ]. simpl. repeat split; auto.
  right. eexists rows, _. repeat split; auto.
  destruct bound as [s | ].
  - left. pose proof (validate_isText 100 p s Hp Hfit) as Htext.
    destruct p; simpl in Hp; try discriminate. injection Hp as ->.
    split; [exact Htext | apply filter_recorded].
  - right. split; [auto | reflexivity].
Qed.

(** What one turn does, case by case. *)
Lemma appendIfAbsent_cases (v : Vehicle) (table cam : string) (n : nat) (w : World) :
  exists n' w', appendIfAbsent v table cam n w = (Ok n', w')
    /\ now w' = now w
    /\ (sqlFaults w' = sqlFaults w \/ sqlFaults w' = tail (sqlFaults w)
        \/ sqlFaults w' = tail (tail (sqlFaults w)))
    /\ (exists added, console w' = (console w ++ added)%list)
    /\ ((n' = n /\ tables w' = tables w)
        \/ (exists rows t, n' = S n
              /\ tables w !! table = Some rows
              /\ accepted v = Some t
              /\ recorded (picName v) rows = false
              /\ tables w' = <[table := (rows ++ [rowOf t v (now w)])%list]> (tables w))).
Proof.
  clear jerusalem dateFallback.
  unfold Sync.appendIfAbsent, tryCatch, bind.
  destruct (sqlSelectByPicName_cases table (picName v) w)
    as (r & w1 & -> & Hn1 & Hc1 & _ & Ht1 & Hf1 & Hcase).
  destruct Hcase as [(e & -> & _) | (rows & found & -> & Hrows & Hnf & Hf1' & Hfound)].
  { unfold consoleWrite, ret. simpl. eexists _, _. split; [reflexivity | ]. simpl.
    split; [exact Hn1 | ]. split; [tauto | ]. split; [rewrite Hc1; eauto | ]. left. auto. }
  destruct (length found =? 0)%nat eqn:Hlen.
  2:{ unfold ret. eexists _, _. split; [reflexivity | ]. simpl.
      split; [exact Hn1 | ]. split; [tauto | ]. split; [exists []; now rewrite app_nil_r | ].
      left. auto. }
  unfold newDate. simpl.
  destruct (sqlInsert_cases v table (now w1) w1)
    as (r2 & w2 & Hins & Hn2 & Hc2 & _ & Hf2 & Hcase2).
  change (Env.sqlInsert host table v (now w1) w1) with (sqlInsert table v (now w1) w1).
  rewrite Hins.
  destruct Hcase2 as [(e & -> & Ht2 & _) | (rows2 & t & -> & Hrows2 & Hacc & _ & Hf2' & Ht2)].
  - unfold consoleWrite, ret. simpl. eexists _, _. split; [reflexivity | ]. simpl.
    split; [congruence | ]. split.
    { rewrite Hf1' in *. destruct Hf2 as [-> | ->]; auto. }
    split; [rewrite Hc2, Hc1; eauto | ]. left. split; [reflexivity | congruence].
  - unfold consoleWrite, ret. simpl. eexists _, _. split; [reflexivity | ]. simpl.
    split; [congruence | ]. split; [rewrite Hf2', Hf1'; auto | ].
    split; [rewrite Hc2, Hc1; eauto | ]. right.
    rewrite Ht1, Hrows in Hrows2. injection Hrows2 as <-.
    exists rows, t. repeat split; try assumption.
    + destruct Hfound as [[_ Hl] | [Htext _]].
      * destruct (recorded (picName v) rows); [discriminate Hl | reflexivity].
      * apply accepted_some in Hacc as (_ & _ & Hp & _). congruence.
    + rewrite Ht2, Ht1, Hn1. reflexivity.
Qed.

Lemma noFaults_next (w : World) : noFaults w -> nextFault w = false.
Proof.
  unfold noFaults, nextFault. destruct (sqlFaults w); [reflexivity | ].
  intros H. now inversion H.
Qed.

Lemma noFaults_tail (w w' : World) :
  sqlFaults w' = tail (sqlFaults w) -> noFaults w -> noFaults w'.
Proof.
  unfold noFaults. intros ->. destruct (sqlFaults w); simpl; [auto | ].
  intros H. now inversion H.
Qed.

Lemma noFaults_same (w w' : World) : sqlFaults w' = sqlFaults w -> noFaults w -> noFaults w'.
Proof. unfold noFaults. now intros ->. Qed.

Lemma insertLoop_cases (vs : list Vehicle) (table cam : string) (n : nat) (w : World) :
  exists n' w', insertLoop vs table cam n w = (Ok n', w')
    /\ now w' = now w
    /\ (n <= n')%nat
    /\ evolves (tables w) (tables w')
    /\ (exists added, console w' = (console w ++ added)%list)
    /\ (noFaults w -> noFaults w').
Proof.
  revert n w. induction vs as [ | v vs IH]; intros n w; simpl.
  - exists n, w. unfold ret. repeat split; auto; [apply rtc_refl | ].
    exists []. now rewrite app_nil_r.
  - destruct (appendIfAbsent_cases v table cam n w)
      as (n1 & w1 & Hrun & Hnow & Hfl & (added1 & Hc1) & Hcase).
    destruct (IH n1 w1) as (n2 & w2 & Hrun2 & Hnow2 & Hle & Hev & (added2 & Hc2) & Hnf).
    exists n2, w2. unfold bind.
    change (Sync.appendIfAbsent host v table cam n w) with (appendIfAbsent v table cam n w).
    rewrite Hrun.
    change (Sync.insertLoop host vs table cam n1 w1) with (insertLoop vs table cam n1 w1).
    rewrite Hrun2.
    split; [reflexivity | ]. split; [congruence | ].
    split; [destruct Hcase as [[-> _] | (? & ? & -> & _)]; lia | ].
    split; [ | split; [exists (added1 ++ added2)%list; now rewrite Hc2, Hc1, app_assoc | ]].
    + eapply rtc_trans; [ | exact Hev].
      destruct Hcase as [[_ ->] | (rows & t & _ & Ht & _ & Hrec & ->)]; [apply rtc_refl | ].
      now apply (evolves_append _ _ _ (rowOf t v (now w))).
    + intros Hw. apply Hnf.
      destruct Hfl as [Hfl | [Hfl | Hfl]].
      * exact (noFaults_same w w1 Hfl Hw).
      * exact (noFaults_tail w w1 Hfl Hw).
      * apply (noFaults_tail (setSqlFaults (tail (sqlFaults w)) w) w1 Hfl).
        now apply (noFaults_tail w).
Qed.

Lemma insertVehiclesToSQL_cases (vs : list Vehicle) (table cam : string) (w : World) :
  exists n w', insertVehiclesToSQL vs table cam w = (Ok n, w')
    /\ now w' = now w
    /\ evolves (tables w) (tables w').
Proof.
  unfold Sync.insertVehiclesToSQL. destruct (length vs =? 0)%nat.
  - exists 0%nat, w. unfold ret. repeat split. apply rtc_refl.
  - destruct (insertLoop_cases vs table cam 0 w) as (n & w' & Hrun & Hnow & _ & Hev & _ & _).
    unfold bind. rewrite Hrun. simpl. eexists _, _. split; [reflexivity | ]. simpl. auto.
Qed.

Lemma persistPhase_cases (vs : list Vehicle) (cam : CameraConfig) (w : World) :
  exists w', persistPhase vs cam w = (Ok tt, w')
    /\ now w' = now w
    /\ evolves (tables w) (tables w').
Proof.
  unfold Sync.persistPhase. destruct (0 <? length vs)%nat.
  - destruct (insertVehiclesToSQL_cases vs (tableName cam) (name cam) w) as (n & w' & Hrun & Hnow & Hev).
    unfold bind. rewrite Hrun. simpl. eexists. split; [reflexivity | ]. simpl. auto.
  - unfold bind. simpl. eexists. split; [reflexivity | ]. simpl. split; [reflexivity | apply rtc_refl].
Qed.

(** ** The watermark *)

Lemma getLastSyncTime_cases (table : string) (w : World) :
  exists t w', getLastSyncTime table w = (Ok t, w')
    /\ tables w' = tables w /\ now w' = now w
    /\ sqlFaults w' = tail (sqlFaults w) /\ device w' = device w
    /\ match (if nextFault w then None else tables w !! table) with
       | Some rows =>
           console w' = console w
           /\ t = default (setHours0 host (now w)) (maxCaptureTime rows)
       | None =>
           (exists error, console w' = (console w ++ [ErrLastSync table error])%list)
           /\ t = setHours0 host (now w)
       end.
Proof.
  unfold Sync.getLastSyncTime, tryCatch, bind, sqlMaxCaptureTime, sqlRequest, sqlSend, startOfToday, newDate.
  destruct (nextFault w); simpl.
  { eexists _, _. split; [reflexivity | ]. simpl. eauto 10. }
  destruct (tables w !! table) as [rows | ]; simpl.
  2:{ eexists _, _. split; [reflexivity | ]. simpl. eauto 10. }
  destruct (maxCaptureTime rows) as [m | ]; simpl;
    eexists _, _; (split; [reflexivity | ]); simpl; auto 10.
Qed.

(** ** The decoding loop *)

Lemma forEachPlate_ok (plates : list JsVal) (vs acc : list Vehicle) (w : World) :
  decodesTo decodePlate plates vs ->
  forEachPlate plates (w, acc) = (Ok tt, (w, (acc ++ vs)%list)).
Proof.
  intros H. revert acc. induction H as [ | p v ps vs Hp _ IH]; intros acc; simpl.
  - now rewrite app_nil_r.
  - unfold bind, liftR. rewrite Hp. simpl. rewrite IH, <- app_assoc. reflexivity.
Qed.

Lemma forEachPlate_throw (pre post : list JsVal) (bad : JsVal) (e : JsError)
  (vs acc : list Vehicle) (w : World) :
  decodesTo decodePlate pre vs -> decodePlate bad = Throw e ->
  forEachPlate (pre ++ bad :: post) (w, acc) = (Throw e, (w, (acc ++ vs)%list)).
Proof.
  intros H Hbad. revert acc. induction H as [ | p v ps vs Hp _ IH]; intros acc; simpl.
  - unfold bind, liftR. rewrite Hbad, app_nil_r. reflexivity.
  - unfold bind, liftR. rewrite Hp. simpl.
    change (Sync.forEachPlate jerusalem dateFallback (ps ++ bad :: post) (w, (acc ++ [v])%list))
      with (forEachPlate (ps ++ bad :: post) (w, (acc ++ [v])%list)).
    rewrite IH, <- app_assoc. reflexivity.
Qed.

Lemma forEachPlate_world (plates : list JsVal) (acc : list Vehicle) (w : World) :
  exists r vs, forEachPlate plates (w, acc) = (r, (w, vs)).
Proof.
  revert acc. induction plates as [ | p ps IH]; intros acc; simpl.
  - eexists _, _. reflexivity.
  - unfold bind, liftR. destruct (decodePlate p) as [v | e]; simpl.
    + apply IH.
    + eexists _, _. reflexivity.
Qed.

Lemma fetchVehiclesFromCamera_frame (fromTime : Z) (cam : CameraConfig) (w : World) :
  exists vs w', fetchVehiclesFromCamera fromTime cam w = (Ok vs, w')
    /\ tables w' = tables w /\ now w' = now w /\ sqlFaults w' = sqlFaults w
    /\ device w' = tail (device w).
Proof.
  unfold Sync.fetchVehiclesFromCamera, tryCatch, Sync.fetchBody, bind, liftW, liftR,
    clientFetch, consoleWrite.
  simpl.
  destruct (device w) as [ | [what | status text body] rest] eqn:Hdev; simpl;
    try (eexists _, _; split; [reflexivity | ]; simpl; rewrite ?Hdev; auto; fail).
  destruct (ok status); simpl.
  2:{ eexists _, _. split; [reflexivity | ]. simpl. auto. }
  destruct body as [what | result]; simpl.
  { eexists _, _. split; [reflexivity | ]. simpl. auto. }
  destruct (getField result "Plates") as [Plates | e]; simpl.
  2:{ eexists _, _. split; [reflexivity | ]. simpl. auto. }
  destruct (truthy Plates); simpl.
  2:{ eexists _, _. split; [reflexivity | ]. simpl. auto. }
  destruct (getField Plates "Plate") as [Plate | e]; simpl.
  2:{ eexists _, _. split; [reflexivity | ]. simpl. auto. }
  destruct (truthy Plate); simpl.
  2:{ eexists _, _. split; [reflexivity | ]. simpl. auto. }
  match goal with |- context [Sync.forEachPlate _ _ ?ps (?w1, ?acc)] =>
    destruct (forEachPlate_world ps acc w1) as (r & vs & ->) end.
  destruct r; simpl; eexists _, _; (split; [reflexivity | ]); simpl; auto.
Qed.

(** ** One cycle, phase by phase *)

Lemma syncVehicles_phases (cam : CameraConfig) (w : World) :
  exists lastSync w1 vs w2 w3,
    getLastSyncTime (tableName cam)
      (setConsole (console w ++ [LogStart (name cam) (now w)])%list w) = (Ok lastSync, w1)
    /\ fetchVehiclesFromCamera lastSync cam
         (setConsole (console w1 ++ [LogLastSync (name cam) lastSync])%list w1) = (Ok vs, w2)
    /\ persistPhase vs cam w2 = (Ok tt, w3)
    /\ syncVehicles cam w = (Ok tt, w3)
    /\ tables w2 = tables w /\ now w2 = now w.
Proof.
  destruct (getLastSyncTime_cases (tableName cam)
              (setConsole (console w ++ [LogStart (name cam) (now w)])%list w))
    as (lastSync & w1 & Hwm & Ht1 & Hn1 & _).
  destruct (fetchVehiclesFromCamera_frame lastSync cam
              (setConsole (console w1 ++ [LogLastSync (name cam) lastSync])%list w1))
    as (vs & w2 & Hfetch & Ht2 & Hn2 & _).
  destruct (persistPhase_cases vs cam w2) as (w3 & Hp & _).
  exists lastSync, w1, vs, w2, w3. repeat (split; [assumption | ]).
  split.
  - unfold Sync.syncVehicles, tryCatch, bind, newDate, consoleWrite. simpl.
    rewrite Hwm. simpl. rewrite Hfetch. simpl. rewrite Hp. reflexivity.
  - simpl in *. split; congruence.
Qed.

Lemma syncVehicles_evolves (cam : CameraConfig) (w : World) :
  exists w', syncVehicles cam w = (Ok tt, w') /\ evolves (tables w) (tables w').
Proof.
  destruct (syncVehicles_phases cam w) as (lastSync & w1 & vs & w2 & w3 & _ & _ & Hp & Hrun & Ht & _).
  exists w3. split; [assumption | ].
  destruct (persistPhase_cases vs cam w2) as (w3' & Hp' & _ & Hev).
  rewrite Hp in Hp'. injection Hp' as <-. now rewrite <- Ht.
Qed.

Lemma syncAllCameras_evolves (cameras : list CameraConfig) (w : World) :
  exists w', syncAllCameras cameras w = (Ok tt, w') /\ evolves (tables w) (tables w').
Proof.
  revert w. induction cameras as [ | cam rest IH]; intros w; simpl.
  - exists w. split; [reflexivity | apply rtc_refl].
  - destruct (syncVehicles_evolves cam w) as (w1 & Hrun & Hev).
    destruct (IH w1) as (w2 & Hrun2 & Hev2).
    exists w2. unfold bind. rewrite Hrun. split; [assumption | ].
    eapply rtc_trans; eassumption.
Qed.

Lemma Cycles_evolves (w w' : World) : Cycles w w' -> evolves (tables w) (tables w').
Proof.
  induction 1 as [w | w cameras w' _ IH | w w1 w' Heq _ IH].
  - apply rtc_refl.
  - destruct (syncAllCameras_evolves cameras w) as (w1 & Hrun & Hev).
    rewrite Hrun in IH. simpl in IH. eapply rtc_trans; eassumption.
  - now rewrite <- Heq.
Qed.

(** ** What a store that only takes fresh rows keeps *)

Lemma appendsFresh_unique (t t' : gmap string (list Row)) :
  appendsFresh t t' -> uniquePicNames t -> uniquePicNames t'.
Proof.
  intros (table & rows & row & Ht & Hfresh & ->) Hu table' rows'.
  rewrite lookup_insert. destruct (decide (table = table')) as [<- | Hne].
  - intros [= <-]. rewrite map_app. simpl. apply NoDup_app. split; [ | split].
    + now apply (Hu table).
    + intros p Hp Hin. apply list_elem_of_In in Hp. apply in_map_iff in Hp.
      destruct Hp as (r & <- & Hr). apply list_elem_of_In in Hin.
      destruct Hin as [Heq | []]. now apply (Hfresh r).
    + apply NoDup_singleton.
  - apply Hu.
Qed.

Lemma evolves_unique (t t' : gmap string (list Row)) :
  evolves t t' -> uniquePicNames t -> uniquePicNames t'.
Proof. induction 1; eauto using appendsFresh_unique. Qed.

(** The rows a table had stay, in their order; what comes after them
    carries picture names none of them has. *)
Lemma evolves_grows (t t' : gmap string (list Row)) (table : string) (rows : list Row) :
  evolves t t' -> t !! table = Some rows ->
  exists more, t' !! table = Some (rows ++ more)%list
    /\ forall r, In r more -> ~ In (PicName r) (map PicName rows).
Proof.
  intros Hev. revert rows. induction Hev as [t | t t1 t' Hstep _ IH]; intros rows Ht.
  - exists []. rewrite app_nil_r. split; [assumption | intros r []].
  - destruct Hstep as (table1 & rows1 & row & Ht1 & Hfresh & ->).
    destruct (decide (table1 = table)) as [-> | Hne].
    + rewrite Ht in Ht1. injection Ht1 as <-.
      destruct (IH (rows ++ [row])%list) as (more & Ht' & Hmore); [apply lookup_insert_eq | ].
      exists (row :: more). rewrite <- app_assoc in Ht'. split; [exact Ht' | ].
      intros r [<- | Hr] Hin.
      * apply in_map_iff in Hin. destruct Hin as (r' & Heq & Hr'). now apply (Hfresh r').
      * apply (Hmore r Hr). rewrite map_app. apply in_or_app. now left.
    + destruct (IH rows) as (more & Ht' & Hmore); [now rewrite lookup_insert_ne | ].
      exists more. split; assumption.
Qed.

Lemma maxCaptureTime_bounds (rows : list Row) :
  match maxCaptureTime rows with
  | None => rows = []
  | Some m => (exists r, In r rows /\ CaptureTime r = m)
              /\ (forall r, In r rows -> CaptureTime r <= m)
  end.
Proof.
  induction rows as [ | r rows IH]; simpl; [reflexivity | ].
  destruct (maxCaptureTime rows) as [m | ].
  - destruct IH as [(r0 & Hin & Heq) Hle]. split.
    + destruct (Z.max_spec (CaptureTime r) m) as [[_ ->] | [_ ->]]; eauto.
    + intros r' [<- | Hr']; [lia | ]. specialize (Hle r' Hr'). lia.
  - subst rows. split; [eauto | ]. intros r' [<- | []]. lia.
Qed.

Lemma maxCaptureTime_app (rows more : list Row) (m m' : Z) :
  maxCaptureTime rows = Some m -> maxCaptureTime (rows ++ more) = Some m' -> m <= m'.
Proof.
  intros H H'.
  pose proof (maxCaptureTime_bounds rows) as B. rewrite H in B.
  pose proof (maxCaptureTime_bounds (rows ++ more)) as B'. rewrite H' in B'.
  destruct B as [(r & Hin & <-) _]. apply B'. apply in_or_app. now left.
Qed.

Lemma sqlMaxCaptureTime_some (table : string) (w : World) (t : Z) :
  fst (sqlMaxCaptureTime table w) = Ok (Some t) ->
  nextFault w = false
  /\ exists rows, tables w !! table = Some rows /\ maxCaptureTime rows = Some t.
Proof.
  unfold sqlMaxCaptureTime, sqlRequest, sqlSend. destruct (nextFault w); [discriminate | ].
  simpl. destruct (tables w !! table) as [rows | ]; [ | discriminate].
  simpl. intros [= H]. eauto.
Qed.

(** ** Properties of the engine *)

(** C1. With this program as the only writer, no sequence of cycles makes
    two rows of a table share a picture name: [insertVehiclesToSQL], and
    so every cycle, keeps the names of each table distinct, the rows a
    table had stay, and no row added later repeats the name of one that
    was there (an event already recorded is not ingested again). *)
Theorem C1_picture_names_stay_unique (w w' : World) :
  uniquePicNames (tables w) -> Cycles w w' ->
  uniquePicNames (tables w')
  /\ (forall vehicles table cam,
        uniquePicNames (tables (snd (insertVehiclesToSQL vehicles table cam w))))
  /\ (forall table rows, tables w !! table = Some rows ->
        exists more, tables w' !! table = Some (rows ++ more)%list
          /\ forall r, In r more -> ~ In (PicName r) (map PicName rows)).
Proof.
  intros Hu Hc. pose proof (Cycles_evolves w w' Hc) as Hev.
  split; [now apply (evolves_unique (tables w)) | ]. split.
  - intros vehicles table cam.
    destruct (insertVehiclesToSQL_cases vehicles table cam w) as (n & w1 & -> & _ & Hev1).
    now apply (evolves_unique (tables w)).
  - intros table rows Ht. now apply (evolves_grows (tables w)).
Qed.

(** C10. The watermark does not go back: when [getLastSyncTime] takes its
    branch for a table with rows at two points of a sequence of cycles,
    it answers the greatest capture time of the table both times, and the
    later answer is not the smaller one. *)
Theorem C10_watermark_monotone (w w' : World) (table : string) (t t' : Z) :
  Cycles w w' ->
  fst (sqlMaxCaptureTime table w) = Ok (Some t) ->
  fst (sqlMaxCaptureTime table w') = Ok (Some t') ->
  fst (getLastSyncTime table w) = Ok t
  /\ fst (getLastSyncTime table w') = Ok t'
  /\ t <= t'.
Proof.
  intros Hc H H'.
  apply sqlMaxCaptureTime_some in H. destruct H as (Hf & rows & Ht & Hm).
  apply sqlMaxCaptureTime_some in H'. destruct H' as (Hf' & rows' & Ht' & Hm').
  destruct (getLastSyncTime_cases table w) as (x & w1 & Hrun & _ & _ & _ & _ & Hcase).
  destruct (getLastSyncTime_cases table w') as (x' & w1' & Hrun' & _ & _ & _ & _ & Hcase').
  rewrite Hf, Ht in Hcase. rewrite Hf', Ht' in Hcase'.
  rewrite Hm in Hcase. rewrite Hm' in Hcase'. simpl in Hcase, Hcase'.
  destruct Hcase as [_ ->]. destruct Hcase' as [_ ->].
  rewrite Hrun, Hrun'. repeat split.
  destruct (evolves_grows _ _ table rows (Cycles_evolves w w' Hc) Ht) as (more & Hgrow & _).
  rewrite Hgrow in Ht'. injection Ht' as <-.
  eapply maxCaptureTime_app; eassumption.
Qed.

(** C4, as the code has it. [getLastSyncTime] never throws. When the query
    succeeds on a table with rows it answers their greatest capture time;
    when the table is empty, and when the query fails (then after writing
    the error to the console), it answers the start of today taken in the
    time zone of the process, which for a zone of fixed offset is the
    latest instant up to now that reads 00:00:00 there. *)
Theorem C4_watermark_resolution (table : string) (w : World) :
  exists t w', getLastSyncTime table w = (Ok t, w') /\ tables w' = tables w
  /\ (forall rows, nextFault w = false -> tables w !! table = Some rows -> rows <> [] ->
        (exists r, In r rows /\ CaptureTime r = t)
        /\ (forall r, In r rows -> CaptureTime r <= t)
        /\ console w' = console w)
  /\ (nextFault w = false -> tables w !! table = Some [] ->
        t = setHours0 host (now w) /\ console w' = console w)
  /\ (nextFault w = true \/ tables w !! table = None ->
        t = setHours0 host (now w)
        /\ exists error, console w' = (console w ++ [ErrLastSync table error])%list)
  /\ (forall offset now_,
        let midnight := setHours0 (fixedZone offset) now_ in
        toLocal (fixedZone offset) midnight mod msPerDay = 0
        /\ midnight <= now_ < midnight + msPerDay).
Proof.
  destruct (getLastSyncTime_cases table w) as (t & w' & Hrun & Ht & _ & _ & _ & Hcase).
  exists t, w'. split; [assumption | ]. split; [assumption | ]. split; [ | split; [ | split]].
  - intros rows Hf Hrows Hne. rewrite Hf, Hrows in Hcase. destruct Hcase as [Hc ->].
    pose proof (maxCaptureTime_bounds rows) as B.
    destruct (maxCaptureTime rows) as [m | ]; [ | contradiction]. simpl.
    destruct B as [B1 B2]. auto.
  - intros Hf Hrows. rewrite Hf, Hrows in Hcase. destruct Hcase as [Hc ->]. auto.
  - intros [Hf | Hnone].
    + rewrite Hf in Hcase. destruct Hcase as [He ->]. auto.
    + destruct (nextFault w); [ | rewrite Hnone in Hcase]; destruct Hcase as [He ->]; auto.
  - intros offset now_. unfold setHours0, fixedZone, msPerDay. simpl.
    pose proof (Z.mod_pos_bound (now_ + offset) 86400000 ltac:(lia)) as Hb.
    split; [ | lia].
    replace (now_ + offset - (now_ + offset) mod 86400000 - offset + offset)
      with (now_ + offset - (now_ + offset) mod 86400000) by lia.
    rewrite Zminus_mod, Zmod_mod, Z.sub_diag. reflexivity.
Qed.

(** C3, as the code has it. The capture time is read by position: year at
    0-3, month at 4-5, day at 6-7, nothing at 8, hour at 9-10, minute at
    11-12, second at 13-14; the reading is taken as wall-clock time of
    the fixed zone. The string "20240115", any one character, "091530"
    decodes to 2024-01-15 09:15:30 of that zone, whatever follows it; and
    this decoding is what the loop stores as the capture time of a plate
    element. *)
Theorem C3_positional_decode :
  (forall (y1 y2 y3 y4 m1 m2 d1 d2 gap h1 h2 n1 n2 s1 s2 : ascii) (rest : string),
      let str (l : list ascii) := string_of_list_ascii l in
      captureTimeFields
        (str [y1; y2; y3; y4; m1; m2; d1; d2; gap; h1; h2; n1; n2; s1; s2] ++ rest)
      = (str [y1; y2; y3; y4], str [m1; m2], str [d1; d2],
         str [h1; h2], str [n1; n2], str [s1; s2]))
  /\ (forall (gap : ascii) (rest : string),
        decodeCaptureTime jerusalem dateFallback ("20240115" ++ String gap ("091530" ++ rest))
        = ValidDate (fromLocal jerusalem (civilMs (mkCivil 2024 1 15 9 15 30))))
  /\ (forall (captureTimeStr : string) (plateNumber picName country direction : JsVal),
        decodePlate
          (JObj [("captureTime", JArr [JStr captureTimeStr]);
                 ("plateNumber", JArr [plateNumber]); ("picName", JArr [picName]);
                 ("country", JArr [country]); ("direction", JArr [direction])])
        = Ok (mkVehicle (decodeCaptureTime jerusalem dateFallback captureTimeStr)
                plateNumber picName country direction)).
Proof.
  split; [ | split].
  - intros. destruct rest; reflexivity.
  - intros gap rest. destruct rest; reflexivity.
  - intros. reflexivity.
Qed.

(** The fetch of a source whose device answers with a document holding
    plate elements at [Plates.Plate]: the vehicles of the elements up to
    the first that does not decode, and the line written for it. *)
Lemma fetch_plates (fromTime : Z) (cam : CameraConfig) (w : World)
  (status : Z) (statusText : string) (result Plates Plate : JsVal) (rest : list Reply) :
  device w = Http status statusText (BodyDoc result) :: rest -> ok status = true ->
  getField result "Plates" = Ok Plates -> truthy Plates = true ->
  getField Plates "Plate" = Ok Plate -> truthy Plate = true ->
  forall r vs, forEachPlate (normalizePlates Plate)
      (setDevice rest (setConsole (console w ++ [LogSearching (name cam) fromTime])%list w), [])
    = (r, (setDevice rest (setConsole (console w ++ [LogSearching (name cam) fromTime])%list w), vs)) ->
  fetchVehiclesFromCamera fromTime cam w
  = (Ok vs,
     setConsole (console w ++ [LogSearching (name cam) fromTime;
                               match r with
                               | Ok _ => LogFound (name cam) (length vs)
                               | Throw e => ErrCamera (name cam) e
                               end])%list
       (setDevice rest w)).
Proof.
  intros Hdev Hok HP HtP HPl HtPl r vs Hloop.
  unfold Sync.fetchVehiclesFromCamera, tryCatch, Sync.fetchBody, bind, liftW, liftR,
    clientFetch, consoleWrite.
  simpl. rewrite Hdev. simpl. rewrite Hok. simpl. rewrite HP. simpl. rewrite HtP. simpl.
  rewrite HPl. simpl. rewrite HtPl. rewrite Hloop.
  destruct r; simpl; unfold setConsole, setDevice; simpl; rewrite <- app_assoc; reflexivity.
Qed.

(** A device call that fails: no vehicles, the error on the console. *)
Lemma fetch_failure (fromTime : Z) (cam : CameraConfig) (w : World)
  (reply : Reply) (rest : list Reply) (e : JsError) :
  device w = reply :: rest -> failureOf reply = Some e ->
  fetchVehiclesFromCamera fromTime cam w
  = (Ok [],
     setConsole (console w ++ [LogSearching (name cam) fromTime; ErrCamera (name cam) e])%list
       (setDevice rest w)).
Proof.
  intros Hdev Hfail.
  unfold Sync.fetchVehiclesFromCamera, tryCatch, Sync.fetchBody, bind, liftW, liftR,
    clientFetch, consoleWrite.
  simpl. rewrite Hdev. simpl.
  destruct reply as [what | status statusText body]; simpl in *.
  - injection Hfail as <-. unfold setConsole, setDevice. simpl.
    rewrite <- app_assoc. reflexivity.
  - destruct (ok status); simpl in *.
    + destruct body as [what | result]; [ | discriminate]. injection Hfail as <-.
      unfold setConsole, setDevice. simpl. rewrite <- app_assoc. reflexivity.
    + injection Hfail as <-. unfold setConsole, setDevice. simpl.
      rewrite <- app_assoc. reflexivity.
Qed.

(** The cycle of a source whose fetch comes back with the vehicles [vs]
    whatever the watermark and the console are. *)
Lemma syncVehicles_fetched (cam : CameraConfig) (w : World) (rest : list Reply)
  (vs : list Vehicle) (entry : Z -> LogEntry) :
  (forall fromTime w0, device w0 = device w ->
     fetchVehiclesFromCamera fromTime cam w0
     = (Ok vs, setConsole (console w0 ++ [LogSearching (name cam) fromTime; entry fromTime])%list
                 (setDevice rest w0))) ->
  exists lastSync w2,
    tables w2 = tables w /\ now w2 = now w /\ device w2 = rest
    /\ sqlFaults w2 = tail (sqlFaults w)
    /\ (exists logged, console w2 = (console w ++ logged ++ [entry lastSync])%list)
    /\ syncVehicles cam w = (Ok tt, snd (persistPhase vs cam w2)).
Proof.
  intros Hfetch.
  destruct (syncVehicles_phases cam w)
    as (lastSync & w1 & vs' & w2 & w3 & Hwm & Hf & Hp & Hrun & Ht & Hn).
  destruct (getLastSyncTime_cases (tableName cam)
              (setConsole (console w ++ [LogStart (name cam) (now w)])%list w))
    as (x & w1' & Hwm' & _ & _ & Hf1 & Hd1 & Hcase).
  rewrite Hwm in Hwm'. injection Hwm' as <- <-. simpl in Hd1, Hf1.
  rewrite Hfetch in Hf by (simpl; congruence). injection Hf as <- Hw2.
  exists lastSync, w2. split; [exact Ht | ]. split; [exact Hn | ].
  subst w2. simpl. split; [reflexivity | ]. split; [exact Hf1 | ]. split.
  - destruct (if nextFault _ then None else _) as [rows | ].
    + destruct Hcase as [-> _]. simpl.
      exists [LogStart (name cam) (now w); LogLastSync (name cam) lastSync;
              LogSearching (name cam) lastSync].
      rewrite <- !app_assoc. reflexivity.
    + destruct Hcase as [[error ->] _]. simpl.
      exists [LogStart (name cam) (now w); ErrLastSync (tableName cam) error;
              LogLastSync (name cam) lastSync; LogSearching (name cam) lastSync].
      rewrite <- !app_assoc. reflexivity.
  - rewrite Hrun, Hp. reflexivity.
Qed.

Lemma syncVehicles_failure (cam : CameraConfig) (w : World)
  (reply : Reply) (rest : list Reply) (e : JsError) :
  device w = reply :: rest -> failureOf reply = Some e ->
  exists w', syncVehicles cam w = (Ok tt, w')
    /\ tables w' = tables w /\ device w' = rest
    /\ In (ErrCamera (name cam) e) (console w')
    /\ In (LogNoNew (name cam)) (console w').
Proof.
  intros Hdev Hfail.
  destruct (syncVehicles_fetched cam w rest [] (fun _ => ErrCamera (name cam) e))
    as (lastSync & w2 & Ht & _ & Hd & _ & (logged & Hc) & Hrun).
  { intros fromTime w0 Hd0. apply (fetch_failure fromTime cam w0 reply rest e); congruence. }
  eexists. split; [exact Hrun | ].
  unfold persistPhase, bind, consoleWrite. simpl.
  split; [exact Ht | ]. split; [exact Hd | ]. rewrite Hc. split.
  - apply in_or_app. left. apply in_or_app. left. apply in_or_app. right.
    apply in_or_app. right. simpl. auto.
  - apply in_or_app. left. apply in_or_app. right. simpl. auto.
Qed.

(** C8. A response whose status is not 2xx: the fetch throws the error
    carrying the status and catches it itself, answers no vehicles and
    leaves a world in which the body does not appear (the body is not
    looked at), and the cycle of the source ends without throwing, with
    the tables as they were. *)
Theorem C8_non_success_response (fromTime : Z) (cam : CameraConfig) (w : World)
  (status : Z) (statusText : string) (body : Body) (rest : list Reply) :
  device w = Http status statusText body :: rest ->
  ~ (200 <= status <= 299) ->
  fetchVehiclesFromCamera fromTime cam w
  = (Ok [],
     setConsole (console w ++ [LogSearching (name cam) fromTime;
                               ErrCamera (name cam) (HttpError status statusText)])%list
       (setDevice rest w))
  /\ exists w', syncVehicles cam w = (Ok tt, w')
       /\ tables w' = tables w /\ device w' = rest
       /\ In (ErrCamera (name cam) (HttpError status statusText)) (console w')
       /\ In (LogNoNew (name cam)) (console w').
Proof.
  intros Hdev Hst.
  assert (failureOf (Http status statusText body) = Some (HttpError status statusText)) as Hfail.
  { simpl. replace (ok status) with false; [reflexivity | ]. symmetry.
    unfold ok. apply andb_false_iff. destruct (Z.leb_spec 200 status); [right | now left].
    apply Z.leb_gt. lia. }
  split.
  - now apply (fetch_failure fromTime cam w (Http status statusText body)).
  - now apply (syncVehicles_failure cam w (Http status statusText body)).
Qed.


Lemma normalizePlates_lone (Plate : JsVal) :
  isArray Plate = false -> normalizePlates Plate = [Plate].
Proof. unfold normalizePlates. now intros ->. Qed.

Lemma fetch_all_decoded (fromTime : Z) (cam : CameraConfig) (w : World)
  (status : Z) (statusText : string) (result Plates Plate : JsVal) (rest : list Reply)
  (vs : list Vehicle) :
  device w = Http status statusText (BodyDoc result) :: rest -> ok status = true ->
  getField result "Plates" = Ok Plates -> truthy Plates = true ->
  getField Plates "Plate" = Ok Plate -> truthy Plate = true ->
  decodesTo decodePlate (normalizePlates Plate) vs ->
  fetchVehiclesFromCamera fromTime cam w
  = (Ok vs,
     setConsole (console w ++ [LogSearching (name cam) fromTime;
                               LogFound (name cam) (length vs)])%list
       (setDevice rest w)).
Proof.
  intros Hdev Hok HP HtP HPl HtPl Hdec.
  apply (fetch_plates fromTime cam w status statusText result Plates Plate rest
           Hdev Hok HP HtP HPl HtPl (Ok tt) vs).
  exact (forEachPlate_ok _ vs [] _ Hdec).
Qed.

(** C6, as the code has it. A document without the [Plates] root, or whose
    root has no [Plate] child, gives no vehicles and no error. When its
    plate elements all decode, a lone [Plate] element gives one vehicle, a
    list of one gives one, a list of two gives two in the order of the
    response, each element decoded once; in general a response whose plate
    elements all decode gives one vehicle for each, in order. An element
    that does not decode ends the fetch with nothing returned: a lone
    element without [picName] gives no vehicle. *)
Theorem C6_parser_normalization (fromTime : Z) (cam : CameraConfig) (w : World)
  (status : Z) (statusText : string) (props : list (string * JsVal)) (rest : list Reply) :
  device w = Http status statusText (BodyDoc (JObj props)) :: rest -> ok status = true ->
  let found (vs : list Vehicle) :=
    (Ok vs,
     setConsole (console w ++ [LogSearching (name cam) fromTime;
                               LogFound (name cam) (length vs)])%list
       (setDevice rest w)) in
  let Plates := lookupProp "Plates" props in
  (Plates = JUndefined \/ getField Plates "Plate" = Ok JUndefined ->
     fetchVehiclesFromCamera fromTime cam w = found [])
  /\ (forall Plate vs, truthy Plates = true -> getField Plates "Plate" = Ok Plate ->
        truthy Plate = true -> decodesTo decodePlate (normalizePlates Plate) vs ->
        fetchVehiclesFromCamera fromTime cam w = found vs
        /\ length vs = length (normalizePlates Plate))
  /\ (forall p v, truthy Plates = true -> getField Plates "Plate" = Ok p ->
        truthy p = true -> isArray p = false -> decodePlate p = Ok v ->
        fetchVehiclesFromCamera fromTime cam w = found [v])
  /\ (forall p v, truthy Plates = true -> getField Plates "Plate" = Ok (JArr [p]) ->
        decodePlate p = Ok v ->
        fetchVehiclesFromCamera fromTime cam w = found [v])
  /\ (forall p1 p2 v1 v2, truthy Plates = true -> getField Plates "Plate" = Ok (JArr [p1; p2]) ->
        decodePlate p1 = Ok v1 -> decodePlate p2 = Ok v2 ->
        fetchVehiclesFromCamera fromTime cam w = found [v1; v2]).
Proof.
  intros Hdev Hok found Plates.
  assert (forall Plate vs, truthy Plates = true -> getField Plates "Plate" = Ok Plate ->
            truthy Plate = true -> decodesTo decodePlate (normalizePlates Plate) vs ->
            fetchVehiclesFromCamera fromTime cam w = found vs) as Hall.
  { intros Plate vs HtP HPl HtPl Hdec.
    now apply (fetch_all_decoded fromTime cam w status statusText (JObj props) Plates Plate rest). }
  split; [ | split; [ | split; [ | split]]].
  - intros Habs.
    unfold Sync.fetchVehiclesFromCamera, tryCatch, Sync.fetchBody, bind, liftW, liftR,
      clientFetch, consoleWrite.
    simpl. rewrite Hdev. simpl. rewrite Hok. simpl. fold Plates.
    destruct (truthy Plates) eqn:HtP; simpl.
    + destruct Habs as [Habs | Habs]; [rewrite Habs in HtP; discriminate | ].
      rewrite Habs. simpl. unfold found, setConsole, setDevice. simpl.
      rewrite <- app_assoc. reflexivity.
    + unfold found, setConsole, setDevice. simpl. rewrite <- app_assoc. reflexivity.
  - intros Plate vs HtP HPl HtPl Hdec. split; [now apply (Hall Plate) | ].
    symmetry. eapply Forall2_length. eassumption.
  - intros p v HtP HPl Htp Hlone Hp. apply (Hall p); try assumption.
    rewrite normalizePlates_lone by assumption. repeat constructor. assumption.
  - intros p v HtP HPl Hp. apply (Hall (JArr [p])); try assumption; try reflexivity.
    repeat constructor. assumption.
  - intros p1 p2 v1 v2 HtP HPl Hp1 Hp2. apply (Hall (JArr [p1; p2])); try assumption; try reflexivity.
    repeat constructor; assumption.
Qed.

(** ** All sources of a run *)

Lemma syncAllCameras_app (before later : list CameraConfig) (w : World) :
  syncAllCameras (before ++ later) w = syncAllCameras later (snd (syncAllCameras before w)).
Proof.
  revert w. induction before as [ | cam before IH]; intros w; simpl; [reflexivity | ].
  destruct (syncVehicles_evolves cam w) as (w1 & Hrun & _).
  unfold bind. rewrite Hrun. apply IH.
Qed.

(** *** Nothing the engine does depends on what the console holds *)

Lemma logged_setConsole (lines c : list LogEntry) (w : World) :
  setConsole (lines ++ c)%list w = logged lines (setConsole c w).
Proof. reflexivity. Qed.

Lemma blind_ret {S A} (shift : list LogEntry -> S -> S) (a : A) : blind shift (ret a).
Proof. intros lines s. reflexivity. Qed.

Lemma blind_throw {S A} (shift : list LogEntry -> S -> S) (e : JsError) :
  blind shift (@throw S A e).
Proof. intros lines s. reflexivity. Qed.

Lemma blind_liftR {S A} (shift : list LogEntry -> S -> S) (r : Result A) :
  blind shift (liftR r).
Proof. intros lines s. reflexivity. Qed.

Lemma blind_bind {S A B} (shift : list LogEntry -> S -> S) (m : M S A) (k : A -> M S B) :
  blind shift m -> (forall a, blind shift (k a)) -> blind shift (bind m k).
Proof.
  intros Hm Hk lines s. unfold bind. rewrite Hm.
  destruct (m s) as [[a | e] s1]; simpl; [apply Hk | reflexivity].
Qed.

Lemma blind_tryCatch {S A} (shift : list LogEntry -> S -> S) (m : M S A)
  (handler : JsError -> M S A) :
  blind shift m -> (forall e, blind shift (handler e)) -> blind shift (tryCatch m handler).
Proof.
  intros Hm Hh lines s. unfold tryCatch. rewrite Hm.
  destruct (m s) as [[a | e] s1]; simpl; [reflexivity | apply Hh].
Qed.

Lemma blind_consoleWrite (entry : LogEntry) : blind logged (consoleWrite entry).
Proof.
  intros lines w. unfold consoleWrite, logged, setConsole. simpl.
  now rewrite app_assoc.
Qed.

Lemma blind_newDate : blind logged newDate.
Proof. intros lines w. reflexivity. Qed.

Lemma blind_clientFetch : blind logged clientFetch.
Proof. intros lines w. unfold clientFetch. simpl. destruct (device w); reflexivity. Qed.

Lemma blind_sqlSend {A} (wellFormed : bool) (table : string) (op : list Row -> M World A) :
  (forall rows, blind logged (op rows)) -> blind logged (sqlSend wellFormed table op).
Proof.
  intros Hop lines w. unfold sqlSend.
  change (nextFault (logged lines w)) with (nextFault w).
  destruct (nextFault w); [reflexivity | ]. destruct wellFormed; [ | reflexivity].
  simpl. destruct (tables w !! table) as [rows | ]; [ | reflexivity].
  exact (Hop rows lines (setSqlFaults (tail (sqlFaults w)) w)).
Qed.

Lemma blind_getLastSyncTime (table : string) : blind logged (getLastSyncTime table).
Proof.
  apply blind_tryCatch.
  - apply blind_bind.
    + apply blind_sqlSend. intros rows. apply blind_ret.
    + intros [t | ]; [apply blind_ret | ].
      apply blind_bind; [apply blind_newDate | intros; apply blind_ret].
  - intros e. apply blind_bind; [apply blind_consoleWrite | intros _].
    apply blind_bind; [apply blind_newDate | intros; apply blind_ret].
Qed.

Lemma blind_liftW {A} (m : M World A) : blind logged m -> blind loggedFetch (liftW m).
Proof.
  intros Hm lines [w vs]. unfold liftW, loggedFetch. simpl. rewrite Hm.
  destruct (m w) as [r w1]. reflexivity.
Qed.

Lemma blind_forEachPlate (plates : list JsVal) : blind loggedFetch (forEachPlate plates).
Proof.
  induction plates as [ | plate plates IH]; [apply blind_ret | ].
  simpl. apply blind_bind; [apply blind_liftR | intros v].
  apply blind_bind; [ | intros _; exact IH].
  intros lines [w vs]. reflexivity.
Qed.

Lemma blind_fetchBody (fromTime : Z) (cam : CameraConfig) :
  blind loggedFetch (fetchBody fromTime cam).
Proof.
  apply blind_bind; [apply blind_liftW, blind_consoleWrite | intros _].
  apply blind_bind; [apply blind_liftW, blind_clientFetch | intros res].
  destruct res as [what | status statusText body]; [apply blind_throw | ].
  apply blind_bind.
  { destruct (negb (ok status)); [apply blind_throw | apply blind_ret]. }
  intros _. apply blind_bind; [apply blind_liftR | intros result].
  apply blind_bind; [apply blind_liftR | intros Plates].
  apply blind_bind.
  { destruct (truthy Plates); [ | apply blind_ret].
    apply blind_bind; [apply blind_liftR | intros Plate].
    destruct (truthy Plate); [apply blind_forEachPlate | apply blind_ret]. }
  intros _. apply blind_bind.
  { intros lines [w vs]. reflexivity. }
  intros found. apply blind_liftW, blind_consoleWrite.
Qed.

Lemma blind_fetchVehiclesFromCamera (fromTime : Z) (cam : CameraConfig) :
  blind logged (fetchVehiclesFromCamera fromTime cam).
Proof.
  intros lines w. unfold Sync.fetchVehiclesFromCamera.
  pose proof (blind_tryCatch loggedFetch (fetchBody fromTime cam)
                (fun error => liftW (consoleWrite (ErrCamera (name cam) error)))
                (blind_fetchBody fromTime cam)
                (fun error => blind_liftW _ (blind_consoleWrite _)) lines (w, [])) as H.
  unfold loggedFetch in H. simpl in H. rewrite H.
  match goal with
  | |- context [tryCatch ?m ?h (w, [])] => destruct (tryCatch m h (w, [])) as [r [w1 vs]]
  end.
  reflexivity.
Qed.

Lemma blind_appendIfAbsent (v : Vehicle) (table cam : string) (n : nat) :
  blind logged (appendIfAbsent v table cam n).
Proof.
  apply blind_tryCatch.
  - apply blind_bind.
    { apply blind_bind; [apply blind_liftR | intros bound].
      apply blind_sqlSend. intros rows. apply blind_ret. }
    intros checkResult. destruct (length checkResult =? 0)%nat; [ | apply blind_ret].
    apply blind_bind; [apply blind_newDate | intros insertTime].
    apply blind_bind.
    { apply blind_bind; [apply blind_liftR | intros t].
      apply blind_bind; [apply blind_liftR | intros plate].
      apply blind_bind; [apply blind_liftR | intros pic].
      apply blind_bind; [apply blind_liftR | intros ctry].
      apply blind_bind; [apply blind_liftR | intros dir].
      apply blind_sqlSend. intros rows lines w.
      destruct plate, pic, ctry, dir; reflexivity. }
    intros _. apply blind_bind; [apply blind_consoleWrite | intros _; apply blind_ret].
  - intros e. apply blind_bind; [apply blind_consoleWrite | intros _; apply blind_ret].
Qed.

Lemma blind_insertLoop (vs : list Vehicle) (table cam : string) (n : nat) :
  blind logged (insertLoop vs table cam n).
Proof.
  revert n. induction vs as [ | v vs IH]; intros n; [apply blind_ret | ].
  simpl. apply blind_bind; [apply blind_appendIfAbsent | intros n'; apply IH].
Qed.

Lemma blind_persistPhase (vs : list Vehicle) (cam : CameraConfig) :
  blind logged (persistPhase vs cam).
Proof.
  apply blind_bind; [ | intros _; apply blind_consoleWrite].
  destruct (0 <? length vs)%nat; [ | apply blind_consoleWrite].
  apply blind_bind; [ | intros _; apply blind_ret].
  unfold Sync.insertVehiclesToSQL. destruct (length vs =? 0)%nat; [apply blind_ret | ].
  apply blind_bind; [apply blind_insertLoop | intros inserted].
  apply blind_bind; [apply blind_consoleWrite | intros _; apply blind_ret].
Qed.

Lemma blind_syncVehicles (cam : CameraConfig) : blind logged (syncVehicles cam).
Proof.
  apply blind_bind; [apply blind_newDate | intros started].
  apply blind_bind; [apply blind_consoleWrite | intros _].
  apply blind_tryCatch; [ | intros e; apply blind_consoleWrite].
  apply blind_bind; [apply blind_getLastSyncTime | intros lastSync].
  apply blind_bind; [apply blind_consoleWrite | intros _].
  apply blind_bind; [apply blind_fetchVehiclesFromCamera | intros vehicles].
  apply blind_persistPhase.
Qed.

Lemma blind_syncAllCameras (cameras : list CameraConfig) :
  blind logged (syncAllCameras cameras).
Proof.
  induction cameras as [ | cam rest IH]; [apply blind_ret | ].
  simpl. apply blind_bind; [apply blind_syncVehicles | intros _; exact IH].
Qed.

(** Two runs from worlds that differ in the console only: the same
    surroundings afterwards, and the same lines written. *)
Lemma syncAllCameras_console (cameras : list CameraConfig) (w : World)
  (c c' : list LogEntry) :
  exists w' added,
    syncAllCameras cameras (setConsole c w) = (Ok tt, setConsole (c ++ added)%list w')
    /\ syncAllCameras cameras (setConsole c' w) = (Ok tt, setConsole (c' ++ added)%list w').
Proof.
  destruct (syncAllCameras_evolves cameras (setConsole [] w)) as (w' & Hrun & _).
  exists w', (console w').
  pose proof (blind_syncAllCameras cameras c (setConsole [] w)) as H.
  pose proof (blind_syncAllCameras cameras c' (setConsole [] w)) as H'.
  rewrite Hrun in H, H'. unfold logged in H, H'. simpl in H, H'.
  rewrite app_nil_r in H, H'. unfold setConsole in *. simpl in *. split; assumption.
Qed.

Lemma syncVehicles_console_free (cam : CameraConfig) (w : World) (c c' : list LogEntry) :
  exists w' added,
    syncVehicles cam (setConsole c w) = (Ok tt, setConsole (c ++ added)%list w')
    /\ syncVehicles cam (setConsole c' w) = (Ok tt, setConsole (c' ++ added)%list w').
Proof.
  destruct (syncAllCameras_console [cam] w c c') as (w' & added & H & H').
  simpl in H, H'. unfold bind in H, H'.
  destruct (syncVehicles_evolves cam (setConsole c w)) as (w1 & Hrun & _).
  destruct (syncVehicles_evolves cam (setConsole c' w)) as (w1' & Hrun' & _).
  rewrite Hrun in H. rewrite Hrun' in H'. unfold ret in H, H'.
  exists w', added. split; congruence.
Qed.

(** The cycle of a source whose device call fails: what it leaves. *)
Lemma syncVehicles_failure_world (cam : CameraConfig) (w : World)
  (reply : Reply) (rest : list Reply) (e : JsError) :
  device w = reply :: rest -> failureOf reply = Some e ->
  exists lines,
    syncVehicles cam w = (Ok tt, setConsole (console w ++ lines)%list (skipped w))
    /\ In (ErrCamera (name cam) e) lines
    /\ In (LogNoNew (name cam)) lines
    /\ forall entry count, In entry lines ->
         entry <> LogFound (name cam) count /\ entry <> LogSaved (name cam) count.
Proof.
  intros Hdev Hfail.
  destruct (syncVehicles_phases cam w)
    as (lastSync & w1 & vs & w2 & w3 & Hwm & Hf & Hp & Hrun & _).
  destruct (getLastSyncTime_cases (tableName cam)
              (setConsole (console w ++ [LogStart (name cam) (now w)])%list w))
    as (x & w1' & Hwm' & Ht1 & Hn1 & Hf1 & Hd1 & Hcase).
  rewrite Hwm in Hwm'. injection Hwm' as <- <-. simpl in Ht1, Hn1, Hf1, Hd1.
  rewrite (fetch_failure lastSync cam _ reply rest e) in Hf by (simpl; congruence || assumption).
  injection Hf as <- <-.
  unfold Sync.persistPhase, bind, consoleWrite in Hp. simpl in Hp. injection Hp as <-.
  rewrite Hrun.
  assert (exists first, console w1 = (console w ++ LogStart (name cam) (now w) :: first)%list
                        /\ forall entry, In entry first -> exists error,
                             entry = ErrLastSync (tableName cam) error) as (first & Hc1 & Hfirst).
  { destruct (if nextFault _ then None else _) as [rows | ].
    - destruct Hcase as [-> _]. simpl. exists []. split; [reflexivity | ].
      intros entry [].
    - destruct Hcase as [[error ->] _]. simpl. exists [ErrLastSync (tableName cam) error].
      split; [now rewrite <- app_assoc | ]. intros entry [<- | []]. eauto. }
  exists (LogStart (name cam) (now w) :: first
          ++ [LogLastSync (name cam) lastSync; LogSearching (name cam) lastSync;
              ErrCamera (name cam) e; LogNoNew (name cam); LogCompleted (name cam)])%list.
  split; [ | split; [ | split]].
  - f_equal. destruct w1 as [tb f d nw c]. simpl in *. subst tb f d nw c.
    unfold skipped, setConsole, setDevice, setSqlFaults. simpl. rewrite Hdev. simpl.
    f_equal. rewrite <- !app_assoc. simpl. rewrite <- ?app_assoc. reflexivity.
  - right. apply in_or_app. right. simpl. auto.
  - right. apply in_or_app. right. simpl. auto.
  - intros entry count [<- | Hin]; [split; discriminate | ].
    apply in_app_or in Hin as [Hin | Hin].
    + destruct (Hfirst entry Hin) as [error ->]. split; discriminate.
    + simpl in Hin. repeat (destruct Hin as [<- | Hin]; [split; discriminate | ]).
      destruct Hin.
Qed.

(** C7. [syncAllCameras] takes the sources one after the other, each
    cycle starting in the world the one before left. When the device
    call of a source fails (no answer, a status that is not 2xx, an
    unreadable body), its cycle ends without throwing: it has sent its
    watermark query and made its device call, written its failure and no
    count to the console, and left the tables and the clock as they were.
    The sources after it then run as they would have run had the failing
    source not been in the list and its query and call not been made:
    every one of them completes its cycle, from the same tables, with the
    same answers of the store and the device, to the same tables, writing
    the same lines (its own count among them). *)
Theorem C7_sources_are_isolated (before later : list CameraConfig) (failing : CameraConfig)
  (w : World) (reply : Reply) (rest : list Reply) (e : JsError) :
  device (snd (syncAllCameras before w)) = reply :: rest ->
  failureOf reply = Some e ->
  exists w1 w2 lines,
    syncAllCameras before w = (Ok tt, w1)
    /\ syncVehicles failing w1 = (Ok tt, w2)
    /\ w2 = setConsole (console w1 ++ lines)%list (skipped w1)
    /\ tables w2 = tables w1 /\ now w2 = now w1
    /\ device w2 = rest /\ sqlFaults w2 = tail (sqlFaults w1)
    /\ In (ErrCamera (name failing) e) lines
    /\ In (LogNoNew (name failing)) lines
    /\ (forall entry count, In entry lines ->
          entry <> LogFound (name failing) count /\ entry <> LogSaved (name failing) count)
    /\ syncAllCameras (before ++ failing :: later) w = syncAllCameras later w2
    /\ (exists w3 added,
          syncAllCameras later w2 = (Ok tt, setConsole (console w2 ++ added)%list w3)
          /\ syncAllCameras later (skipped w1)
             = (Ok tt, setConsole (console w1 ++ added)%list w3))
    /\ forall pre cam post, later = (pre ++ cam :: post)%list ->
         exists wa linesPre wb linesCam,
           syncAllCameras pre w2 = (Ok tt, setConsole (console w2 ++ linesPre)%list wa)
           /\ syncAllCameras pre (skipped w1)
              = (Ok tt, setConsole (console w1 ++ linesPre)%list wa)
           /\ syncVehicles cam (setConsole (console w2 ++ linesPre)%list wa)
              = (Ok tt, setConsole ((console w2 ++ linesPre) ++ linesCam)%list wb)
           /\ syncVehicles cam (setConsole (console w1 ++ linesPre)%list wa)
              = (Ok tt, setConsole ((console w1 ++ linesPre) ++ linesCam)%list wb)
           /\ syncAllCameras (before ++ failing :: later) w
              = syncAllCameras post (setConsole ((console w2 ++ linesPre) ++ linesCam)%list wb).
Proof.
  intros Hdev Hfail.
  destruct (syncAllCameras_evolves before w) as (w1 & Hbefore & _).
  rewrite Hbefore in Hdev. simpl in Hdev.
  destruct (syncVehicles_failure_world failing w1 reply rest e Hdev Hfail)
    as (lines & Hrun & Herr & Hnone & Hcount).
  set (w2 := setConsole (console w1 ++ lines)%list (skipped w1)) in *.
  assert (syncAllCameras (before ++ failing :: later) w = syncAllCameras later w2) as Hsplit.
  { rewrite syncAllCameras_app, Hbefore. simpl. unfold bind. rewrite Hrun. reflexivity. }
  assert (forall cameras, exists w3 added,
            syncAllCameras cameras w2 = (Ok tt, setConsole (console w2 ++ added)%list w3)
            /\ syncAllCameras cameras (skipped w1)
               = (Ok tt, setConsole (console w1 ++ added)%list w3)) as Hsame.
  { intros cameras.
    destruct (syncAllCameras_console cameras (skipped w1) (console w1 ++ lines)%list (console w1))
      as (w3 & added & H & H').
    exists w3, added. split; [exact H | ].
    replace (setConsole (console w1) (skipped w1)) with (skipped w1) in H'; [exact H' | ].
    now destruct w1. }
  exists w1, w2, lines. split; [exact Hbefore | ]. split; [exact Hrun | ].
  split; [reflexivity | ]. split; [reflexivity | ]. split; [reflexivity | ].
  split; [subst w2; simpl; now rewrite Hdev | ]. split; [reflexivity | ].
  split; [exact Herr | ]. split; [exact Hnone | ]. split; [exact Hcount | ].
  split; [exact Hsplit | ]. split; [apply Hsame | ].
  intros pre cam post ->.
  destruct (Hsame pre) as (wa & linesPre & Hpre & Hpre').
  destruct (syncVehicles_console_free cam wa (console w2 ++ linesPre)%list
              (console w1 ++ linesPre)%list) as (wb & linesCam & Hcam & Hcam').
  exists wa, linesPre, wb, linesCam.
  split; [exact Hpre | ]. split; [exact Hpre' | ]. split; [exact Hcam | ].
  split; [exact Hcam' | ].
  rewrite Hsplit, syncAllCameras_app, Hpre. cbn [snd Sync.syncAllCameras]. unfold bind.
  rewrite Hcam. reflexivity.
Qed.

(** ** The insert loop on a store that answers *)

Lemma persisted_one (rows : list Row) (v : Vehicle) (at_ : Z) :
  persisted rows [v] at_
  = if recorded (picName v) rows then rows
    else match accepted v with
         | Some t => (rows ++ [rowOf t v at_])%list
         | None => rows
         end.
Proof.
  simpl. destruct (recorded (picName v) rows); [reflexivity | ].
  destruct (accepted v); reflexivity.
Qed.

Lemma appendIfAbsent_noFaults (v : Vehicle) (table cam : string) (n : nat) (w : World)
  (rows : list Row) :
  noFaults w -> tables w !! table = Some rows ->
  exists n' w', appendIfAbsent v table cam n w = (Ok n', w')
    /\ noFaults w' /\ now w' = now w
    /\ tables w' = <[table := persisted rows [v] (now w)]> (tables w).
Proof.
  intros Hnf Ht. rewrite persisted_one.
  pose proof (noFaults_next w Hnf) as Hf.
  unfold Sync.appendIfAbsent, tryCatch, bind.
  destruct (sqlSelectByPicName_cases table (picName v) w)
    as (r & w1 & -> & Hn1 & Hc1 & _ & Ht1 & Hf1 & Hcase).
  assert (noFaults w1) as Hnf1.
  { destruct Hf1 as [Hf1 | Hf1]; [exact (noFaults_same w w1 Hf1 Hnf) | ].
    exact (noFaults_tail w w1 Hf1 Hnf). }
  destruct Hcase as [(e & -> & Hwhy) | (rows' & found & -> & Hrows & _ & _ & Hfound)].
  { unfold consoleWrite, ret. simpl. eexists _, _. split; [reflexivity | ]. simpl.
    split; [exact Hnf1 | ]. split; [exact Hn1 | ].
    destruct Hwhy as [Htext | [Habs | Habs]]; [ | congruence | congruence].
    rewrite Ht1. rewrite (accepted_none v) by auto.
    destruct (recorded (picName v) rows); now rewrite insert_id. }
  rewrite Ht in Hrows. injection Hrows as <-.
  destruct (length found =? 0)%nat eqn:Hlen.
  2:{ unfold ret. eexists _, _. split; [reflexivity | ].
      split; [exact Hnf1 | ]. split; [exact Hn1 | ].
      destruct Hfound as [[_ Hl] | [_ ->]]; [ | discriminate Hlen].
      destruct (recorded (picName v) rows); [ | discriminate Hl].
      rewrite Ht1. now rewrite insert_id. }
  assert (recorded (picName v) rows = false \/ accepted v = None) as Hnew.
  { destruct Hfound as [[_ Hl] | [Htext _]].
    - left. destruct (recorded (picName v) rows); [discriminate Hl | reflexivity].
    - right. apply accepted_none. auto. }
  unfold newDate. simpl.
  destruct (sqlInsert_cases v table (now w1) w1)
    as (r2 & w2 & Hins & Hn2 & Hc2 & _ & Hf2 & Hcase2).
  change (Env.sqlInsert host table v (now w1) w1) with (sqlInsert table v (now w1) w1).
  rewrite Hins.
  assert (noFaults w2) as Hnf2.
  { destruct Hf2 as [Hf2 | Hf2]; [exact (noFaults_same w1 w2 Hf2 Hnf1) | ].
    exact (noFaults_tail w1 w2 Hf2 Hnf1). }
  destruct Hcase2 as [(e & -> & Ht2 & Hwhy) | (rows2 & t & -> & Hrows2 & Hacc & _ & _ & Ht2)].
  - unfold consoleWrite, ret. simpl. eexists _, _. split; [reflexivity | ]. simpl.
    split; [exact Hnf2 | ]. split; [congruence | ].
    destruct Hwhy as [Hacc | [Habs | Habs]].
    + rewrite Hacc, Ht2, Ht1. destruct (recorded (picName v) rows); now rewrite insert_id.
    + rewrite (noFaults_next w1 Hnf1) in Habs. discriminate Habs.
    + rewrite Ht1, Ht in Habs. discriminate Habs.
  - unfold consoleWrite, ret. simpl. eexists _, _. split; [reflexivity | ]. simpl.
    split; [exact Hnf2 | ]. split; [congruence | ].
    rewrite Ht1, Ht in Hrows2. injection Hrows2 as <-.
    destruct Hnew as [Hrec | Hnone]; [ | congruence].
    rewrite Hrec, Hacc, Ht2, Ht1, Hn1. reflexivity.
Qed.

Lemma insertLoop_noFaults (vs : list Vehicle) (table cam : string) (n : nat) (w : World)
  (rows : list Row) :
  noFaults w -> tables w !! table = Some rows ->
  exists n' w', insertLoop vs table cam n w = (Ok n', w')
    /\ tables w' = <[table := persisted rows vs (now w)]> (tables w).
Proof.
  revert n w rows. induction vs as [ | v vs IH]; intros n w rows Hnf Ht.
  - exists n, w. split; [reflexivity | ]. simpl. now rewrite insert_id.
  - destruct (appendIfAbsent_noFaults v table cam n w rows Hnf Ht)
      as (n1 & w1 & Hrun & Hnf1 & Hnow & Ht1).
    destruct (IH n1 w1 (persisted rows [v] (now w)) Hnf1) as (n2 & w2 & Hrun2 & Ht2).
    { rewrite Ht1. apply lookup_insert_eq. }
    exists n2, w2. simpl Sync.insertLoop. unfold bind.
    change (Sync.appendIfAbsent host v table cam n w) with (appendIfAbsent v table cam n w).
    rewrite Hrun. split; [exact Hrun2 | ].
    rewrite Ht2, Ht1, insert_insert_eq, Hnow. f_equal.
    rewrite persisted_one. simpl.
    destruct (recorded (picName v) rows); [reflexivity | ]. destruct (accepted v); reflexivity.
Qed.

Lemma recorded_app (p : JsVal) (rows more : list Row) :
  recorded p (rows ++ more) = recorded p rows || recorded p more.
Proof. unfold recorded. apply existsb_app. Qed.

Lemma persisted_keeps (p : JsVal) (vs : list Vehicle) (rows : list Row) (at_ : Z) :
  recorded p rows = true -> recorded p (persisted rows vs at_) = true.
Proof.
  revert rows. induction vs as [ | v vs IH]; intros rows H; simpl; [assumption | ].
  destruct (recorded (picName v) rows); [now apply IH | ].
  destruct (accepted v); apply IH; try assumption.
  rewrite recorded_app, H. reflexivity.
Qed.

Lemma persisted_settles (vs : list Vehicle) (rows : list Row) (at_ : Z) :
  Forall (settled (persisted rows vs at_)) vs.
Proof.
  revert rows. induction vs as [ | v vs IH]; intros rows; simpl; [constructor | ].
  destruct (recorded (picName v) rows) eqn:Hrec.
  - constructor; [ | apply IH]. left. now apply persisted_keeps.
  - destruct (accepted v) as [t | ] eqn:Hacc; constructor; try apply IH.
    + left. apply persisted_keeps. rewrite recorded_app. unfold recorded at 2. simpl.
      rewrite jsEqb_refl. apply orb_true_r.
    + now right.
Qed.

(** After a pass on a store that answers, every vehicle of the batch that
    is accepted has its picture name in the table. *)
Lemma persisted_holds (vs : list Vehicle) (rows : list Row) (at_ : Z) (v : Vehicle) (t : Z) :
  In v vs -> accepted v = Some t -> In (picName v) (map PicName (persisted rows vs at_)).
Proof.
  intros Hin Hacc. pose proof (persisted_settles vs rows at_) as Hs.
  rewrite List.Forall_forall in Hs. destruct (Hs v Hin) as [Hrec | Hnone]; [ | congruence].
  now apply recorded_In.
Qed.

Lemma evolves_absent (t t' : gmap string (list Row)) (table : string) :
  evolves t t' -> t !! table = None -> t' !! table = None.
Proof.
  induction 1 as [ | t t1 t' (table1 & rows & row & Ht1 & _ & ->) _ IH]; [auto | ].
  intros Hnone. apply IH. rewrite lookup_insert_ne; [assumption | congruence].
Qed.

(** Vehicles the table has, or that cannot be inserted, leave it alone. *)
Lemma insertLoop_settled (vs : list Vehicle) (table cam : string) (n : nat) (w : World) :
  match tables w !! table with
  | Some rows => Forall (settled rows) vs
  | None => True
  end ->
  exists w', insertLoop vs table cam n w = (Ok n, w') /\ tables w' = tables w.
Proof.
  revert w. induction vs as [ | v vs IH]; intros w Hs.
  - exists w. split; reflexivity.
  - destruct (appendIfAbsent_cases v table cam n w) as (n1 & w1 & Hrun & _ & _ & _ & Hcase).
    simpl Sync.insertLoop. unfold bind.
    change (Sync.appendIfAbsent host v table cam n w) with (appendIfAbsent v table cam n w).
    rewrite Hrun.
    destruct Hcase as [[-> Ht] | (rows & t & _ & Hrows & Hacc & Hrec & _)].
    + destruct (IH w1) as (w2 & Hrun2 & Ht2).
      { rewrite Ht. destruct (tables w !! table); [ | exact I]. now inversion Hs. }
      exists w2. split; [assumption | congruence].
    + rewrite Hrows in Hs. inversion Hs as [ | ? ? [Hv | Hv] _]; congruence.
Qed.

(** ** A vehicle whose capture time is refused in the middle of a batch *)

Lemma insertLoop_app (xs ys : list Vehicle) (table cam : string) (n : nat) (w : World) :
  insertLoop (xs ++ ys) table cam n w
  = (n' <- insertLoop xs table cam n;; insertLoop ys table cam n') w.
Proof.
  revert n w. induction xs as [ | x xs IH]; intros n w; simpl; [reflexivity | ].
  unfold bind. destruct (Sync.appendIfAbsent host x table cam n w) as [[n1 | e] w1];
    [ | reflexivity].
  rewrite IH. reflexivity.
Qed.

Lemma persisted_app (rows : list Row) (xs ys : list Vehicle) (at_ : Z) :
  persisted rows (xs ++ ys) at_ = persisted (persisted rows xs at_) ys at_.
Proof.
  revert rows. induction xs as [ | x xs IH]; intros rows; simpl; [reflexivity | ].
  destruct (recorded (picName x) rows); [apply IH | ]. destruct (accepted x); apply IH.
Qed.

Lemma persisted_skips_refused (rows : list Row) (xs ys : list Vehicle) (bad : Vehicle) (at_ : Z) :
  accepted bad = None ->
  persisted rows (xs ++ bad :: ys) at_ = persisted rows (xs ++ ys) at_.
Proof.
  intros Hbad. rewrite !persisted_app. simpl. rewrite Hbad.
  now destruct (recorded (picName bad) (persisted rows xs at_)).
Qed.

(** The existence check of a name that is a text within its length, on a
    server that answers. *)
Lemma sqlSelectByPicName_text (table : string) (p : JsVal) (w : World) (rows : list Row) :
  isText 100 p = true -> nextFault w = false -> tables w !! table = Some rows ->
  exists found,
    sqlSelectByPicName table p w = (Ok found, setSqlFaults (tail (sqlFaults w)) w)
    /\ (length found =? 0)%nat = negb (recorded p rows).
Proof.
  intros Htext Hf Ht. apply isText_validate in Htext as (s & -> & Hv & Hfit).
  unfold sqlSelectByPicName, bind, liftR, sqlSend. rewrite Hv, Hfit, Hf. simpl. rewrite Ht.
  eexists. split; [reflexivity | apply filter_recorded].
Qed.

Lemma appendIfAbsent_refused (v : Vehicle) (table cam : string) (n : nat) (w : World)
  (rows : list Row) (e : JsError) :
  noFaults w -> tables w !! table = Some rows ->
  isText 100 (picName v) = true -> recorded (picName v) rows = false ->
  validateDateTime2 host (captureTime v) = Throw e ->
  appendIfAbsent v table cam n w
  = (Ok n,
     setConsole (console w ++ [ErrInsert cam (plateNumber v) e])%list
       (setSqlFaults (tail (sqlFaults w)) w)).
Proof.
  intros Hnf Ht Htext Hrec Hct.
  destruct (sqlSelectByPicName_text table (picName v) w rows Htext (noFaults_next w Hnf) Ht)
    as (found & Hsel & Hlen).
  unfold Sync.appendIfAbsent, tryCatch, bind. rewrite Hsel, Hlen, Hrec. simpl.
  unfold Env.sqlInsert, bind, liftR, newDate. simpl. rewrite Hct. reflexivity.
Qed.

(** The insert loop over a batch with such a vehicle, on a store that
    answers: the table ends as for the batch without it, and its refusal
    is on the console when its picture name was new at its turn. *)
Lemma insertLoop_skips_refused (xs ys : list Vehicle) (bad : Vehicle) (table cam : string)
  (w : World) (rows : list Row) (e : JsError) :
  noFaults w -> tables w !! table = Some rows ->
  validateDateTime2 host (captureTime bad) = Throw e ->
  exists n w', insertLoop (xs ++ bad :: ys) table cam 0 w = (Ok n, w')
    /\ tables w' = <[table := persisted rows (xs ++ ys) (now w)]> (tables w)
    /\ (exists added, console w' = (console w ++ added)%list
          /\ (isText 100 (picName bad) = true ->
              recorded (picName bad) (persisted rows xs (now w)) = false ->
              In (ErrInsert cam (plateNumber bad) e) added)).
Proof.
  intros Hnf Ht Hbad.
  assert (accepted bad = None) as Hnone by (apply accepted_none; eauto).
  destruct (insertLoop_noFaults (xs ++ bad :: ys) table cam 0 w rows Hnf Ht)
    as (n & w' & Hrun & Htab).
  exists n, w'. split; [exact Hrun | ]. split.
  { rewrite Htab. now rewrite persisted_skips_refused. }
  rewrite insertLoop_app in Hrun. unfold bind in Hrun.
  destruct (insertLoop_cases xs table cam 0 w)
    as (na & wa & Hxs & Hnowa & _ & _ & (added1 & Hca) & Hnfa).
  destruct (insertLoop_noFaults xs table cam 0 w rows Hnf Ht) as (na' & wa' & Hxs' & Htaba).
  rewrite Hxs in Hxs'. injection Hxs' as <- <-.
  rewrite Hxs in Hrun. simpl Sync.insertLoop in Hrun. unfold bind in Hrun.
  destruct (appendIfAbsent_cases bad table cam na wa)
    as (nb & wb & Hb & _ & _ & (added2 & Hcb) & _).
  change (Sync.appendIfAbsent host bad table cam na wa)
    with (appendIfAbsent bad table cam na wa) in Hrun.
  rewrite Hb in Hrun.
  destruct (insertLoop_cases ys table cam nb wb)
    as (nc & wc & Hys & _ & _ & _ & (added3 & Hcc) & _).
  change (Sync.insertLoop host ys table cam nb wb) with (insertLoop ys table cam nb wb) in Hrun.
  rewrite Hys in Hrun. injection Hrun as <- <-.
  exists (added1 ++ added2 ++ added3)%list. split.
  { rewrite Hcc, Hcb, Hca, <- !app_assoc. reflexivity. }
  intros Htext Hrec. apply in_or_app. right. apply in_or_app. left.
  rewrite (appendIfAbsent_refused bad table cam na wa (persisted rows xs (now w)) e) in Hb;
    try assumption.
  - injection Hb as _ <-. simpl in Hcb. apply app_inv_head in Hcb. subst added2. simpl. auto.
  - now apply Hnfa.
  - rewrite Htaba. apply lookup_insert_eq.
Qed.


Lemma appendIfAbsent_inserts (v : Vehicle) (table cam : string) (n : nat) (w : World)
  (rows : list Row) (t : Z) :
  sqlFaults w = [] -> tables w !! table = Some rows ->
  recorded (picName v) rows = false -> accepted v = Some t ->
  appendIfAbsent v table cam n w
  = (Ok (S n),
     setConsole (console w ++ [LogInserted cam (plateNumber v) (direction v)])%list
       (setTables (<[table := (rows ++ [rowOf t v (now w)])%list]> (tables w)) w)).
Proof.
  destruct w as [tb f d nw c]. simpl. intros -> Ht Hrec Hacc.
  pose proof Hacc as Htext. apply accepted_some in Htext as (_ & _ & Htext & _).
  destruct (sqlSelectByPicName_text table (picName v) (mkWorld tb [] d nw c) rows Htext eq_refl Ht)
    as (found & Hsel & Hlen).
  unfold Sync.appendIfAbsent, tryCatch, bind. rewrite Hsel, Hlen, Hrec. simpl.
  unfold newDate. simpl.
  change (Env.sqlInsert host table v nw (setSqlFaults [] (mkWorld tb [] d nw c)))
    with (sqlInsert table v nw (mkWorld tb [] d nw c)).
  rewrite (sqlInsert_accepted v table nw (mkWorld tb [] d nw c) rows t Hacc eq_refl Ht).
  reflexivity.
Qed.

Lemma appendIfAbsent_invalid (v : Vehicle) (table cam : string) (n : nat) (w : World)
  (rows : list Row) (e : JsError) :
  sqlFaults w = [] -> tables w !! table = Some rows ->
  isText 100 (picName v) = true -> recorded (picName v) rows = false ->
  validateDateTime2 host (captureTime v) = Throw e ->
  appendIfAbsent v table cam n w
  = (Ok n, setConsole (console w ++ [ErrInsert cam (plateNumber v) e])%list w).
Proof.
  intros Hf Ht Htext Hrec Hct.
  rewrite (appendIfAbsent_refused v table cam n w rows e); try assumption.
  - destruct w as [tb f d nw c]. simpl in *. subst f. reflexivity.
  - unfold noFaults. rewrite Hf. constructor.
Qed.

(** A cycle over a batch whose elements all decode, one of them to a
    capture time the driver refuses, on a store that answers. *)
Lemma syncVehicles_skips_refused (cam : CameraConfig) (w : World)
  (status : Z) (statusText : string) (result Plates Plate : JsVal) (rest : list Reply)
  (pre post : list JsVal) (bad : JsVal) (vsPre vsPost : list Vehicle) (vBad : Vehicle)
  (rows : list Row) (e : JsError) :
  device w = Http status statusText (BodyDoc result) :: rest -> ok status = true ->
  getField result "Plates" = Ok Plates -> truthy Plates = true ->
  getField Plates "Plate" = Ok Plate -> truthy Plate = true ->
  normalizePlates Plate = (pre ++ bad :: post)%list ->
  decodesTo decodePlate pre vsPre -> decodePlate bad = Ok vBad ->
  decodesTo decodePlate post vsPost ->
  validateDateTime2 host (captureTime vBad) = Throw e ->
  noFaults w -> tables w !! tableName cam = Some rows ->
  exists w',
    syncVehicles cam w = (Ok tt, w')
    /\ tables w'
       = <[tableName cam := persisted rows (vsPre ++ vsPost) (now w)]> (tables w)
    /\ (isText 100 (picName vBad) = true ->
        recorded (picName vBad) (persisted rows vsPre (now w)) = false ->
        In (ErrInsert (name cam) (plateNumber vBad) e) (console w')).
Proof.
  intros Hdev Hok HP HtP HPl HtPl Hnorm Hpre Hbad Hpost Hinv Hnf Ht.
  destruct (syncVehicles_phases cam w)
    as (x & w1 & vs & w2 & w3 & Hwm & Hfetch & Hp & Hrun & Ht2 & Hn2).
  exists w3. split; [exact Hrun | ]. clear Hrun.
  destruct (getLastSyncTime_cases (tableName cam)
              (setConsole (console w ++ [LogStart (name cam) (now w)])%list w))
    as (x' & w1' & Hwm' & _ & _ & Hf1 & Hd1 & _).
  rewrite Hwm in Hwm'. injection Hwm' as <- <-. simpl in Hf1, Hd1.
  rewrite (fetch_all_decoded x cam _ status statusText result Plates Plate rest
             (vsPre ++ vBad :: vsPost)) in Hfetch; try assumption.
  2:{ simpl. congruence. }
  2:{ rewrite Hnorm. apply Forall2_app; [assumption | ]. constructor; assumption. }
  injection Hfetch as <- Hw2.
  assert (noFaults w2) as Hnf2.
  { apply (noFaults_tail w); [ | assumption]. subst w2. simpl. exact Hf1. }
  rewrite <- Ht2 in Ht.
  destruct (insertLoop_skips_refused vsPre vsPost vBad (tableName cam) (name cam) w2 rows e
              Hnf2 Ht Hinv) as (n & w' & Hloop & Htab & added & Hcon & Hlog).
  unfold Sync.persistPhase, Sync.insertVehiclesToSQL, bind in Hp.
  assert (length (vsPre ++ vBad :: vsPost) <> 0%nat) as Hlen.
  { rewrite length_app. simpl. lia. }
  destruct (Nat.ltb_spec 0 (length (vsPre ++ vBad :: vsPost))); [ | lia].
  destruct (Nat.eqb_spec (length (vsPre ++ vBad :: vsPost)) 0); [lia | ].
  unfold bind in Hp.
  change (Sync.insertLoop host (vsPre ++ vBad :: vsPost) (tableName cam) (name cam) 0 w2)
    with (insertLoop (vsPre ++ vBad :: vsPost) (tableName cam) (name cam) 0 w2) in Hp.
  rewrite Hloop in Hp. simpl in Hp. injection Hp as <-. simpl.
  rewrite Htab, Ht2, Hn2. split; [reflexivity | ].
  intros Htext Hrec. rewrite Hcon. rewrite Hn2 in Hlog.
  apply in_or_app. left. apply in_or_app. left. apply in_or_app. right. now apply Hlog.
Qed.

(** Three new events of which the second has a capture time the driver
    refuses, on a store that answers: the whole cycle. *)
Lemma syncVehicles_three_events (cam : CameraConfig) (w : World)
  (status : Z) (statusText : string) (result Plates Plate : JsVal) (rest : list Reply)
  (p1 p2 p3 : JsVal) (v1 v2 v3 : Vehicle) (t1 t3 : Z) (e : JsError) (rows : list Row) :
  device w = Http status statusText (BodyDoc result) :: rest -> ok status = true ->
  getField result "Plates" = Ok Plates -> truthy Plates = true ->
  getField Plates "Plate" = Ok Plate -> truthy Plate = true ->
  normalizePlates Plate = [p1; p2; p3] ->
  decodePlate p1 = Ok v1 -> decodePlate p2 = Ok v2 -> decodePlate p3 = Ok v3 ->
  accepted v1 = Some t1 -> validateDateTime2 host (captureTime v2) = Throw e ->
  accepted v3 = Some t3 -> isText 100 (picName v2) = true ->
  sqlFaults w = [] -> tables w !! tableName cam = Some rows ->
  recorded (picName v1) rows = false -> recorded (picName v2) rows = false ->
  recorded (picName v3) rows = false ->
  jsEqb (picName v1) (picName v2) = false -> jsEqb (picName v1) (picName v3) = false ->
  let lastSync := default (setHours0 host (now w)) (maxCaptureTime rows) in
  exists w',
    syncVehicles cam w = (Ok tt, w')
    /\ tables w'
       = <[tableName cam := (rows ++ [rowOf t1 v1 (now w); rowOf t3 v3 (now w)])%list]> (tables w)
    /\ console w'
       = (console w ++
          [LogStart (name cam) (now w);
           LogLastSync (name cam) lastSync;
           LogSearching (name cam) lastSync;
           LogFound (name cam) 3;
           LogInserted (name cam) (plateNumber v1) (direction v1);
           ErrInsert (name cam) (plateNumber v2) e;
           LogInserted (name cam) (plateNumber v3) (direction v3);
           LogSaved (name cam) 2;
           LogCompleted (name cam)])%list.
Proof.
  intros Hdev Hok HP HtP HPl HtPl Hnorm Hp1 Hp2 Hp3 Hc1 Hc2 Hc3 Htext2 Hf Ht
    Hr1 Hr2 Hr3 H12 H13 lastSync.
  destruct (syncVehicles_phases cam w)
    as (x & w1 & vs & w2 & w3 & Hwm & Hfetch & Hp & Hrun & _).
  exists w3. split; [exact Hrun | ]. clear Hrun.
  destruct (getLastSyncTime_cases (tableName cam)
              (setConsole (console w ++ [LogStart (name cam) (now w)])%list w))
    as (x' & w1' & Hwm' & Ht1 & Hn1 & Hf1 & Hd1 & Hcase).
  rewrite Hwm in Hwm'. injection Hwm' as <- <-.
  unfold nextFault in Hcase. simpl in Ht1, Hn1, Hf1, Hd1, Hcase.
  rewrite Hf, Ht in Hcase. rewrite Hf in Hf1. simpl in Hf1. destruct Hcase as [Hc1' Hx].
  fold lastSync in Hx. subst x.
  rewrite (fetch_all_decoded lastSync cam _ status statusText result Plates Plate rest
             [v1; v2; v3]) in Hfetch; try assumption.
  2:{ simpl. congruence. }
  2:{ rewrite Hnorm. repeat constructor; assumption. }
  injection Hfetch as <- <-.
  destruct w1 as [tb1 f1 d1 n1 c1]. simpl in *. subst tb1 f1 d1 n1 c1.
  unfold Sync.persistPhase, Sync.insertVehiclesToSQL, bind in Hp. simpl in Hp.
  unfold bind in Hp.
  change (Sync.appendIfAbsent host) with appendIfAbsent in Hp.
  rewrite (appendIfAbsent_inserts v1 _ _ _ _ rows t1) in Hp; try assumption; try reflexivity.
  simpl in Hp.
  rewrite (appendIfAbsent_invalid v2 _ _ _ _ (rows ++ [rowOf t1 v1 (now w)])%list e) in Hp;
    try assumption; try reflexivity.
  2:{ simpl. apply lookup_insert_eq. }
  2:{ rewrite recorded_app, Hr2. unfold recorded. simpl. now rewrite H12. }
  simpl in Hp.
  rewrite (appendIfAbsent_inserts v3 _ _ _ _ (rows ++ [rowOf t1 v1 (now w)])%list t3) in Hp;
    try assumption; try reflexivity.
  2:{ simpl. apply lookup_insert_eq. }
  2:{ rewrite recorded_app, Hr3. unfold recorded. simpl. now rewrite H13. }
  simpl in Hp. unfold consoleWrite, ret in Hp. simpl in Hp. injection Hp as <-. simpl.
  split.
  - rewrite insert_insert_eq, <- app_assoc. reflexivity.
  - repeat rewrite <- app_assoc. reflexivity.
Qed.


End Properties.

(** ** The properties on sample data *)

Lemma emptyTables_unique : uniquePicNames emptyTables.
Proof.
  intros table rows. unfold emptyTables. rewrite !lookup_insert.
  repeat case_decide; intros [= <-]; constructor.
Qed.

(** Two cycles over a response that names the picture [a.jpg] twice. *)
Lemma C1_witness :
  uniquePicNames (tables (afterCycles worldDuplicates))
  /\ (forall vehicles table cam,
        uniquePicNames (tables (snd (insertVehiclesToSQL utc vehicles table cam worldDuplicates))))
  /\ (forall table rows, tables worldDuplicates !! table = Some rows ->
        exists more, tables (afterCycles worldDuplicates) !! table = Some (rows ++ more)%list
          /\ forall r, In r more -> ~ In (PicName r) (map PicName rows)).
Proof.
  apply (C1_picture_names_stay_unique utc jerusalemWinter noFallback
           worldDuplicates (afterCycles worldDuplicates)).
  - exact emptyTables_unique.
  - unfold afterCycles. apply cycles_sync with (cameras := [camera1]).
    apply cycles_sync with (cameras := [camera1]).
    apply cycles_done.
Defined.



(** The fourteen digits "20240115091530" have no gap at position 8: read
    by the positions of the code the hour is 91, the minute 53, the second
    0. *)
Lemma C3_counterexample :
  captureTimeFields "20240115091530" = ("2024", "01", "15", "91", "53", "0")
  /\ captureTimeIso "20240115091530" = "2024-01-15T91:53:0"
  /\ momentIso (captureTimeIso "20240115091530") = IsoNoMatch
  /\ decodeCaptureTime jerusalemWinter noFallback "20240115091530"
     <> ValidDate (fromLocal jerusalemWinter (civilMs (mkCivil 2024 1 15 9 15 30))).
Proof. repeat split; try reflexivity. discriminate. Qed.

(** A process running in UTC at 23:30: today starts at 00:00 UTC, while
    in Jerusalem it is already the next day. *)
Lemma C4_counterexample :
  fst (getLastSyncTime utc "VehicleDetection" worldIdle) = Ok 1705276800000
  /\ setHours0 jerusalemWinter (now worldIdle) = 1705356000000
  /\ fst (getLastSyncTime utc "VehicleDetection" worldIdle)
     <> Ok (setHours0 jerusalemWinter (now worldIdle)).
Proof. repeat split; try reflexivity. discriminate. Qed.

Lemma C4_witness :
  exists t w', getLastSyncTime jerusalemWinter "VehicleDetection" worldOneRow = (Ok t, w')
    /\ t = 1705302930000 /\ console w' = [].
Proof.
  destruct (C4_watermark_resolution jerusalemWinter "VehicleDetection" worldOneRow)
    as (t & w' & Hrun & _ & Hrows & _).
  exists t, w'. split; [exact Hrun | ].
  destruct (Hrows [rowA] eq_refl eq_refl ltac:(discriminate)) as ((r & Hin & Hr) & _ & Hc).
  split; [ | exact Hc].
  destruct Hin as [<- | []]. symmetry. exact Hr.
Defined.



(** A response with exactly one plate element, which lacks [picName]: no
    vehicle, and the error on the console. *)
Lemma C6_counterexample :
  normalizePlates (JArr [plateNoPic]) = [plateNoPic]
  /\ fetchVehiclesFromCamera jerusalemWinter noFallback lateEvening camera1 worldLoneNoPic
     = (Ok [],
        setConsole [LogSearching "Camera1" lateEvening;
                    ErrCamera "Camera1" (TypeError "Cannot read properties of undefined: 0")]
          (setDevice [] worldLoneNoPic))
  /\ exists vehicles,
       fst (fetchVehiclesFromCamera jerusalemWinter noFallback lateEvening camera1 worldLoneNoPic)
       = Ok vehicles
       /\ length vehicles = 0%nat /\ length vehicles <> 1%nat.
Proof.
  split; [reflexivity | ]. split; [reflexivity | ].
  exists []. split; [reflexivity | ]. split; [reflexivity | discriminate].
Qed.

(** A response with two plate elements. *)
Lemma C6_witness :
  fetchVehiclesFromCamera jerusalemWinter noFallback lateEvening camera1 worldTwoPlates
  = (Ok [vehicleA; vehicleB],
     setConsole [LogSearching "Camera1" lateEvening; LogFound "Camera1" 2]
       (setDevice [] worldTwoPlates)).
Proof.
  destruct (C6_parser_normalization jerusalemWinter noFallback lateEvening camera1 worldTwoPlates
              200 "OK" [("Plates", JObj [("Plate", JArr [plateA; plateB])])] []
              eq_refl eq_refl) as (_ & _ & _ & _ & Htwo).
  exact (Htwo plateA plateB vehicleA vehicleB eq_refl eq_refl eq_refl eq_refl).
Defined.

(** The first camera times out, the second reports one detection: the
    second stores its row and reports its count, as it does when it runs
    alone on the surroundings less the first camera's query and call. *)
Lemma C7_witness :
  exists w2 w3 added,
    syncVehicles utc jerusalemWinter noFallback camera1 worldFirstDown = (Ok tt, w2)
    /\ tables w2 = tables worldFirstDown
    /\ syncAllCameras utc jerusalemWinter noFallback [camera1; camera2] worldFirstDown
       = (Ok tt, setConsole (console w2 ++ added)%list w3)
    /\ syncAllCameras utc jerusalemWinter noFallback [camera2] (skipped worldFirstDown)
       = (Ok tt, setConsole (console worldFirstDown ++ added)%list w3)
    /\ tables w3 !! "VehicleDetection2" = Some [rowOf 1705302930000 vehicleA lateEvening]
    /\ In (LogFound "Camera2" 1) added
    /\ In (LogSaved "Camera2" 1) added.
Proof.
  destruct (C7_sources_are_isolated utc jerusalemWinter noFallback [] [camera2] camera1
              worldFirstDown
              (Unreachable "ETIMEDOUT") [okReply [plateA]] (NetError "ETIMEDOUT") eq_refl eq_refl)
    as (w1 & w2 & lines & Hbefore & Hrun & _ & Ht & _ & _ & _ & _ & _ & _ & Hsplit & Hsame & _).
  injection Hbefore as <-. destruct Hsame as (w3 & added & Hlater & Halone).
  exists w2, w3, added. split; [exact Hrun | ]. split; [exact Ht | ].
  split; [rewrite <- Hlater; exact Hsplit | ]. split; [exact Halone | ].
  pose proof (f_equal (fun r => tables (snd r)) Halone) as Htables.
  pose proof (f_equal (fun r => console (snd r)) Halone) as Hconsole.
  cbv beta in Htables, Hconsole. cbn [snd tables console setConsole] in Htables, Hconsole.
  change (console worldFirstDown) with (@nil LogEntry) in Hconsole.
  cbn [app] in Hconsole.
  rewrite <- Htables, <- Hconsole. split; [vm_compute; reflexivity | ].
  split; vm_compute; tauto.
Defined.

(** A device that answers 503. *)
Lemma C8_witness :
  fetchVehiclesFromCamera jerusalemWinter noFallback lateEvening camera1 world503
  = (Ok [],
     setConsole [LogSearching "Camera1" lateEvening;
                 ErrCamera "Camera1" (HttpError 503 "Service Unavailable")]
       (setDevice [] world503))
  /\ exists w', syncVehicles utc jerusalemWinter noFallback camera1 world503 = (Ok tt, w')
       /\ tables w' = tables world503 /\ device w' = []
       /\ In (ErrCamera "Camera1" (HttpError 503 "Service Unavailable")) (console w')
       /\ In (LogNoNew "Camera1") (console w').
Proof.
  apply (C8_non_success_response utc jerusalemWinter noFallback lateEvening camera1 world503
           503 "Service Unavailable" (BodyDoc (docOf [plateA])) []).
  - reflexivity.
  - lia.
Defined.


(** The table holds A; a cycle adds the later B. *)
Lemma C10_witness :
  fst (getLastSyncTime utc "VehicleDetection" worldOneRow) = Ok 1705302930000
  /\ fst (getLastSyncTime utc "VehicleDetection"
            (snd (syncAllCameras utc jerusalemWinter noFallback [camera1] worldOneRow)))
     = Ok 1705306530000
  /\ 1705302930000 <= 1705306530000.
Proof.
  apply (C10_watermark_monotone utc jerusalemWinter noFallback worldOneRow
           (snd (syncAllCameras utc jerusalemWinter noFallback [camera1] worldOneRow))).
  - apply cycles_sync with (cameras := [camera1]). apply cycles_done.
  - reflexivity.
  - vm_compute. reflexivity.
Defined.

(** * Further properties *)

Section MoreProperties.

Variable host : Zone.
Variable jerusalem : Zone.
Variable dateFallback : string -> JDate.

Local Abbreviation accepted := (Spec.accepted host).
Local Abbreviation appendIfAbsent := (Sync.appendIfAbsent host).
Local Abbreviation insertLoop := (Sync.insertLoop host).
Local Abbreviation insertVehiclesToSQL := (Sync.insertVehiclesToSQL host).
Local Abbreviation persistPhase := (Sync.persistPhase host).
Local Abbreviation getLastSyncTime := (Sync.getLastSyncTime host).
Local Abbreviation decodePlate := (Sync.decodePlate jerusalem dateFallback).
Local Abbreviation forEachPlate := (Sync.forEachPlate jerusalem dateFallback).
Local Abbreviation fetchVehiclesFromCamera := (Sync.fetchVehiclesFromCamera jerusalem dateFallback).
Local Abbreviation syncVehicles := (Sync.syncVehicles host jerusalem dateFallback).
Local Abbreviation syncAllCameras := (Sync.syncAllCameras host jerusalem dateFallback).

(** ** What a pass of the insert loop adds *)

Lemma candidateRows_cons (v : Vehicle) (vs : list Vehicle) (at_ : Z) :
  candidateRows (v :: vs) at_
  = match captureTime v with
    | ValidDate t => rowOf t v at_ :: candidateRows vs at_
    | InvalidDate => candidateRows vs at_
    end.
Proof. unfold candidateRows. simpl. destruct (captureTime v); reflexivity. Qed.

Lemma candidateRows_length (vs : list Vehicle) (at_ : Z) :
  (length (candidateRows vs at_) <= length vs)%nat.
Proof.
  induction vs as [ | v vs IH]; [reflexivity | ].
  rewrite candidateRows_cons. destruct (captureTime v); simpl; lia.
Qed.

(** The loop on a table that exists, whatever fails. *)
Lemma insertLoop_adds (vs : list Vehicle) (table cam : string) (n : nat) (w : World)
  (rows : list Row) :
  tables w !! table = Some rows ->
  exists w' added,
    insertLoop vs table cam n w = (Ok (n + length added)%nat, w')
    /\ tables w' = <[table := (rows ++ added)%list]> (tables w)
    /\ now w' = now w
    /\ sublist added (candidateRows vs (now w)).
Proof.
  revert n w rows. induction vs as [ | v vs IH]; intros n w rows Ht.
  - exists w, []. simpl. rewrite Nat.add_0_r, app_nil_r, insert_id by assumption.
    repeat split. constructor.
  - destruct (appendIfAbsent_cases host v table cam n w)
      as (n1 & w1 & Hrun & Hnow & _ & _ & Hcase).
    simpl Sync.insertLoop. unfold bind. rewrite Hrun. rewrite candidateRows_cons.
    destruct Hcase as [[-> Ht1] | (rows0 & t & -> & Hrows & Hacc & _ & Ht1)].
    + destruct (IH n w1 rows) as (w2 & added & Hrun2 & Ht2 & Hnow2 & Hsub);
        [congruence | ].
      exists w2, added. split; [exact Hrun2 | ]. split; [congruence | ].
      split; [congruence | ]. rewrite Hnow in Hsub.
      destruct (captureTime v); [now apply sublist_cons | exact Hsub].
    + rewrite Hrows in Ht. injection Ht as ->.
      destruct (IH (S n) w1 (rows ++ [rowOf t v (now w)])%list)
        as (w2 & added & Hrun2 & Ht2 & Hnow2 & Hsub).
      { rewrite Ht1. apply lookup_insert_eq. }
      exists w2, (rowOf t v (now w) :: added).
      split; [rewrite Hrun2; simpl; do 2 f_equal; lia | ].
      split; [rewrite Ht2, Ht1, insert_insert_eq, <- app_assoc; reflexivity | ].
      split; [congruence | ]. rewrite (accepted_date host v t Hacc), <- Hnow.
      now apply sublist_skip.
Qed.

Lemma insertLoop_no_table (vs : list Vehicle) (table cam : string) (n : nat) (w : World) :
  tables w !! table = None ->
  exists w', insertLoop vs table cam n w = (Ok n, w') /\ tables w' = tables w.
Proof.
  intros Hnone. apply insertLoop_settled. now rewrite Hnone.
Qed.

Lemma insertVehiclesToSQL_adds (vehicles : list Vehicle) (table cam : string) (w : World)
  (rows : list Row) :
  tables w !! table = Some rows ->
  exists n w' added,
    insertVehiclesToSQL vehicles table cam w = (Ok n, w')
    /\ n = length added
    /\ tables w' = <[table := (rows ++ added)%list]> (tables w)
    /\ now w' = now w
    /\ sublist added (candidateRows vehicles (now w)).
Proof.
  intros Ht. unfold Sync.insertVehiclesToSQL.
  destruct (length vehicles =? 0)%nat.
  - exists 0%nat, w, []. rewrite app_nil_r, insert_id by assumption.
    repeat split. apply sublist_nil_l.
  - destruct (insertLoop_adds vehicles table cam 0 w rows Ht)
      as (w' & added & Hrun & Ht' & Hnow & Hsub).
    unfold bind. rewrite Hrun. simpl.
    eexists _, _, added. split; [reflexivity | ]. simpl. auto.
Qed.

Lemma insertVehiclesToSQL_no_table (vehicles : list Vehicle) (table cam : string) (w : World) :
  tables w !! table = None ->
  exists w', insertVehiclesToSQL vehicles table cam w = (Ok 0%nat, w')
    /\ tables w' = tables w.
Proof.
  intros Hnone. unfold Sync.insertVehiclesToSQL. destruct (length vehicles =? 0)%nat.
  - exists w. split; reflexivity.
  - destruct (insertLoop_no_table vehicles table cam 0 w Hnone) as (w' & Hrun & Ht).
    unfold bind. rewrite Hrun. simpl. eexists. split; [reflexivity | exact Ht].
Qed.



(** ** The console and the device under the insert loop *)

Lemma appendIfAbsent_console (v : Vehicle) (table cam : string) (n : nat) (w : World) :
  exists n' w' added, appendIfAbsent v table cam n w = (Ok n', w')
    /\ console w' = (console w ++ added)%list /\ quiet added
    /\ device w' = device w.
Proof.
  unfold Sync.appendIfAbsent, tryCatch, bind, quiet.
  destruct (sqlSelectByPicName_cases table (picName v) w)
    as (r & w1 & -> & Hn1 & Hc1 & Hd1 & _ & _ & Hcase).
  destruct Hcase as [(e & -> & _) | (rows & found & -> & _)].
  { unfold consoleWrite, ret. simpl. eexists _, _, [_]. split; [reflexivity | ]. simpl.
    rewrite Hc1. repeat constructor. exact Hd1. }
  destruct (length found =? 0)%nat.
  2:{ unfold ret. eexists _, _, []. split; [reflexivity | ]. rewrite app_nil_r.
      repeat constructor; assumption. }
  unfold newDate. simpl.
  destruct (sqlInsert_cases host v table (now w1) w1)
    as (r2 & w2 & -> & _ & Hc2 & Hd2 & _ & Hcase2).
  destruct Hcase2 as [(e & -> & _) | (rows2 & t & -> & _)];
    unfold consoleWrite, ret; simpl; eexists _, _, [_]; (split; [reflexivity | ]); simpl;
    rewrite Hc2, Hc1; repeat constructor; congruence.
Qed.

Lemma quiet_app (a b : list LogEntry) : quiet a -> quiet b -> quiet (a ++ b).
Proof. unfold quiet. intros. now apply Forall_app. Qed.

Lemma insertLoop_console (vs : list Vehicle) (table cam : string) (n : nat) (w : World) :
  exists n' w' added, insertLoop vs table cam n w = (Ok n', w')
    /\ console w' = (console w ++ added)%list /\ quiet added
    /\ device w' = device w.
Proof.
  revert n w. induction vs as [ | v vs IH]; intros n w; simpl.
  - exists n, w, []. rewrite app_nil_r. repeat split. constructor.
  - destruct (appendIfAbsent_console v table cam n w) as (n1 & w1 & a1 & Hrun & Hc1 & Hq1 & Hd1).
    destruct (IH n1 w1) as (n2 & w2 & a2 & Hrun2 & Hc2 & Hq2 & Hd2).
    unfold bind. rewrite Hrun. exists n2, w2, (a1 ++ a2)%list.
    split; [exact Hrun2 | ]. split; [rewrite Hc2, Hc1, app_assoc; reflexivity | ].
    split; [now apply quiet_app | congruence].
Qed.

Lemma persistPhase_console (vs : list Vehicle) (cam : CameraConfig) (w : World) :
  exists w' added, persistPhase vs cam w = (Ok tt, w')
    /\ console w' = (console w ++ added ++ [LogCompleted (name cam)])%list
    /\ quiet added /\ device w' = device w.
Proof.
  unfold Sync.persistPhase, Sync.insertVehiclesToSQL.
  destruct (0 <? length vs)%nat.
  - destruct (length vs =? 0)%nat.
    + eexists _, []. unfold bind, consoleWrite. simpl. repeat split. constructor.
    + destruct (insertLoop_console vs (tableName cam) (name cam) 0 w)
        as (n & w1 & a & Hrun & Hc & Hq & Hd).
      unfold bind, consoleWrite. rewrite Hrun. simpl.
      eexists _, (a ++ [LogSaved (name cam) n])%list. split; [reflexivity | ]. simpl.
      split; [rewrite Hc, <- !app_assoc; reflexivity | ].
      split; [apply quiet_app; [exact Hq | repeat constructor] | exact Hd].
  - eexists _, [LogNoNew (name cam)]. unfold bind, consoleWrite. simpl.
    split; [reflexivity | ]. simpl. rewrite <- app_assoc. repeat split. repeat constructor.
Qed.

(** ** What a fetch does to the world *)

Lemma forEachPlate_prefix (plates : list JsVal) (acc : list Vehicle) (w : World) :
  forEachPlate plates (w, acc)
  = (match firstFailure decodePlate plates with
     | None => Ok tt
     | Some e => Throw e
     end,
     (w, (acc ++ decodePrefix decodePlate plates)%list)).
Proof.
  revert acc. induction plates as [ | p ps IH]; intros acc; simpl.
  - now rewrite app_nil_r.
  - unfold bind, liftR. destruct (decodePlate p) as [v | e]; simpl.
    + change (Sync.forEachPlate jerusalem dateFallback ps (w, (acc ++ [v])%list))
        with (forEachPlate ps (w, (acc ++ [v])%list)).
      rewrite IH, <- app_assoc. reflexivity.
    + now rewrite app_nil_r.
Qed.

Lemma decodePrefix_length (plates : list JsVal) :
  (length (decodePrefix decodePlate plates) <= length plates)%nat
  /\ (firstFailure decodePlate plates = None
      <-> length (decodePrefix decodePlate plates) = length plates).
Proof.
  induction plates as [ | p ps [IH1 IH2]]; simpl; [split; [lia | tauto] | ].
  destruct (decodePlate p) as [v | e]; simpl.
  - split; [lia | ]. rewrite IH2. split; lia.
  - split; [lia | ]. split; [discriminate | lia].
Qed.

(** The world a fetch leaves: the world it found with one reply taken
    from the device and two lines added to the console. *)
Lemma fetch_world (fromTime : Z) (cam : CameraConfig) (w : World) :
  exists vs entry,
    fetchVehiclesFromCamera fromTime cam w
    = (Ok vs,
       setConsole (console w ++ [LogSearching (name cam) fromTime; entry])%list
         (setDevice (tail (device w)) w))
    /\ (entry = LogFound (name cam) (length vs)
        \/ exists e, entry = ErrCamera (name cam) e).
Proof.
  unfold Sync.fetchVehiclesFromCamera, tryCatch, Sync.fetchBody, bind, liftW, liftR,
    clientFetch, consoleWrite.
  simpl.
  destruct (device w) as [ | [what | status text body] rest] eqn:Hdev; simpl.
  { eexists [], _. split; [ | right; eauto]. unfold setConsole, setDevice. simpl.
    rewrite Hdev, <- app_assoc. reflexivity. }
  { eexists [], _. split; [ | right; eauto]. unfold setConsole, setDevice. simpl.
    rewrite <- app_assoc. reflexivity. }
  destruct (ok status); simpl.
  2:{ eexists [], _. split; [ | right; eauto]. unfold setConsole, setDevice. simpl.
      rewrite <- app_assoc. reflexivity. }
  destruct body as [what | result]; simpl.
  { eexists [], _. split; [ | right; eauto]. unfold setConsole, setDevice. simpl.
    rewrite <- app_assoc. reflexivity. }
  destruct (getField result "Plates") as [Plates | e]; simpl.
  2:{ eexists [], _. split; [ | right; eauto]. unfold setConsole, setDevice. simpl.
      rewrite <- app_assoc. reflexivity. }
  destruct (truthy Plates); simpl.
  2:{ eexists [], _. split; [ | left; reflexivity]. unfold setConsole, setDevice. simpl.
      rewrite <- app_assoc. reflexivity. }
  destruct (getField Plates "Plate") as [Plate | e]; simpl.
  2:{ eexists [], _. split; [ | right; eauto]. unfold setConsole, setDevice. simpl.
      rewrite <- app_assoc. reflexivity. }
  destruct (truthy Plate); simpl.
  2:{ eexists [], _. split; [ | left; reflexivity]. unfold setConsole, setDevice. simpl.
      rewrite <- app_assoc. reflexivity. }
  match goal with |- context [Sync.forEachPlate _ _ ?ps (?w1, ?acc)] =>
    change (Sync.forEachPlate jerusalem dateFallback ps (w1, acc))
      with (forEachPlate ps (w1, acc));
    rewrite (forEachPlate_prefix ps acc w1) end.
  destruct (firstFailure decodePlate (normalizePlates Plate)); simpl.
  - eexists _, _. split; [ | right; eauto]. unfold setConsole, setDevice. simpl.
    rewrite <- app_assoc. reflexivity.
  - eexists _, _. split; [ | left; reflexivity]. unfold setConsole, setDevice. simpl.
    rewrite <- app_assoc. reflexivity.
Qed.

(** X5. A fetch never throws, whatever the device answers. It sends no
    SQL request and leaves the tables and the clock alone, takes exactly
    one reply from the device, and writes exactly two lines: the search
    line with the watermark it was given, then either the number of
    vehicles it returns or the error it caught. *)
Theorem X5_fetch_leaves_the_store_alone (fromTime : Z) (cam : CameraConfig) (w : World) :
  exists vs w' entry,
    fetchVehiclesFromCamera fromTime cam w = (Ok vs, w')
    /\ tables w' = tables w /\ sqlFaults w' = sqlFaults w /\ now w' = now w
    /\ device w' = tail (device w)
    /\ console w' = (console w ++ [LogSearching (name cam) fromTime; entry])%list
    /\ (entry = LogFound (name cam) (length vs)
        \/ exists e, entry = ErrCamera (name cam) e).
Proof.
  destruct (fetch_world fromTime cam w) as (vs & entry & Hrun & Hentry).
  eexists vs, _, entry. split; [exact Hrun | ]. simpl. auto 10.
Qed.

(** X6. For a 2xx response whose document has plate elements, the fetch
    returns the vehicles of the elements up to the first one whose
    decoding throws, and all of them when none does: never more vehicles
    than elements, and as many exactly when no element throws. The second
    console line is the count in that case and the error thrown
    otherwise. *)
Theorem X6_fetch_returns_the_decodable_prefix (fromTime : Z) (cam : CameraConfig) (w : World)
  (status : Z) (statusText : string) (result Plates Plate : JsVal) (rest : list Reply) :
  device w = Http status statusText (BodyDoc result) :: rest -> ok status = true ->
  getField result "Plates" = Ok Plates -> truthy Plates = true ->
  getField Plates "Plate" = Ok Plate -> truthy Plate = true ->
  let plates := normalizePlates Plate in
  let vs := decodePrefix decodePlate plates in
  fetchVehiclesFromCamera fromTime cam w
  = (Ok vs,
     setConsole (console w ++ [LogSearching (name cam) fromTime;
                               match firstFailure decodePlate plates with
                               | None => LogFound (name cam) (length vs)
                               | Some e => ErrCamera (name cam) e
                               end])%list
       (setDevice rest w))
  /\ (length vs <= length plates)%nat
  /\ (firstFailure decodePlate plates = None <-> length vs = length plates).
Proof.
  intros Hdev Hok HP HtP HPl HtPl plates vs. split; [ | apply decodePrefix_length].
  rewrite (fetch_plates jerusalem dateFallback fromTime cam w status statusText
             result Plates Plate rest Hdev Hok HP HtP HPl HtPl
             (match firstFailure decodePlate plates with
              | None => Ok tt
              | Some e => Throw e
              end) vs).
  - destruct (firstFailure decodePlate plates); reflexivity.
  - apply (forEachPlate_prefix plates []).
Qed.

(** ** Which plate elements decode *)

Lemma field0_throws (plate : JsVal) (name : string) :
  (exists e, field0 plate name = Throw e)
  <-> match getField plate name with
      | Ok JUndefined | Ok JNull | Throw _ => True
      | Ok _ => False
      end.
Proof.
  unfold field0, bindR. destruct (getField plate name) as [[ | | s | items | props] | e]; simpl.
  - split; [auto | eauto].
  - split; [auto | eauto].
  - destruct s; split; try contradiction; intros [e He]; discriminate.
  - destruct items; split; try contradiction; intros [e He]; discriminate.
  - split; [intros [e He]; discriminate | contradiction].
  - split; [auto | eauto].
Qed.

(** X7. A plate element decodes exactly when [captureTime[0]] is a string
    and [plateNumber[0]], [picName[0]], [country[0]] and [direction[0]]
    can be read, that is when none of the five fields is missing; the
    vehicle then carries the decoded capture time and those four values
    as they are. Reading [name[0]] throws exactly when the element is
    undefined or null or has no field [name] (or has null there). *)
Theorem X7_which_plates_decode (plate : JsVal) :
  (forall v,
      decodePlate plate = Ok v
      <-> exists s plateNumber picName country direction,
            field0 plate "captureTime" = Ok (JStr s)
            /\ field0 plate "plateNumber" = Ok plateNumber
            /\ field0 plate "picName" = Ok picName
            /\ field0 plate "country" = Ok country
            /\ field0 plate "direction" = Ok direction
            /\ v = mkVehicle (decodeCaptureTime jerusalem dateFallback s)
                     plateNumber picName country direction)
  /\ (forall name,
        (exists e, field0 plate name = Throw e)
        <-> match getField plate name with
            | Ok JUndefined | Ok JNull | Throw _ => True
            | Ok _ => False
            end).
Proof.
  split; [ | intros name; apply field0_throws].
  intros v. unfold Sync.decodePlate, field0, bindR.
  destruct (getField plate "captureTime") as [f1 | e1].
  2:{ split; [discriminate | intros (? & ? & ? & ? & ? & H & _); discriminate]. }
  destruct (getIndex0 f1) as [c | e1].
  2:{ split; [discriminate | intros (? & ? & ? & ? & ? & H & _); discriminate]. }
  destruct c as [ | | s | items | props]; simpl;
    try (split; [discriminate | intros (? & ? & ? & ? & ? & H & _); discriminate]).
  destruct (getField plate "plateNumber") as [f2 | e2].
  2:{ split; [discriminate | intros (? & ? & ? & ? & ? & _ & H & _); discriminate]. }
  destruct (getIndex0 f2) as [pn | e2].
  2:{ split; [discriminate | intros (? & ? & ? & ? & ? & _ & H & _); discriminate]. }
  destruct (getField plate "picName") as [f3 | e3].
  2:{ split; [discriminate | intros (? & ? & ? & ? & ? & _ & _ & H & _); discriminate]. }
  destruct (getIndex0 f3) as [pic | e3].
  2:{ split; [discriminate | intros (? & ? & ? & ? & ? & _ & _ & H & _); discriminate]. }
  destruct (getField plate "country") as [f4 | e4].
  2:{ split; [discriminate | intros (? & ? & ? & ? & ? & _ & _ & _ & H & _); discriminate]. }
  destruct (getIndex0 f4) as [co | e4].
  2:{ split; [discriminate | intros (? & ? & ? & ? & ? & _ & _ & _ & H & _); discriminate]. }
  destruct (getField plate "direction") as [f5 | e5].
  2:{ split; [discriminate | intros (? & ? & ? & ? & ? & _ & _ & _ & _ & H & _); discriminate]. }
  destruct (getIndex0 f5) as [di | e5].
  2:{ split; [discriminate | intros (? & ? & ? & ? & ? & _ & _ & _ & _ & H & _); discriminate]. }
  split.
  - intros [= <-]. exists s, pn, pic, co, di. repeat split.
  - intros (s' & pn' & pic' & co' & di' & [= <-] & [= <-] & [= <-] & [= <-] & [= <-] & ->).
    reflexivity.
Qed.

(** ** What a cycle writes and calls *)

Lemma insertVehiclesToSQL_frame (vehicles : list Vehicle) (table cam other : string)
  (w : World) :
  other <> table ->
  tables (snd (insertVehiclesToSQL vehicles table cam w)) !! other = tables w !! other.
Proof.
  intros Hne. destruct (tables w !! table) as [rows | ] eqn:Ht.
  - destruct (insertVehiclesToSQL_adds vehicles table cam w rows Ht)
      as (n & w' & added & Hrun & _ & Ht' & _).
    rewrite Hrun. simpl. rewrite Ht'. now apply lookup_insert_ne.
  - destruct (insertVehiclesToSQL_no_table vehicles table cam w Ht) as (w' & Hrun & Ht').
    rewrite Hrun. simpl. now rewrite Ht'.
Qed.

Lemma syncVehicles_frame (cam : CameraConfig) (w : World) (other : string) :
  other <> tableName cam ->
  tables (snd (syncVehicles cam w)) !! other = tables w !! other.
Proof.
  intros Hne.
  destruct (syncVehicles_phases host jerusalem dateFallback cam w)
    as (lastSync & w1 & vs & w2 & w3 & _ & _ & Hp & Hrun & Ht & _).
  rewrite Hrun. simpl. rewrite <- Ht.
  unfold persistPhase, bind in Hp. destruct (0 <? length vs)%nat.
  - pose proof (insertVehiclesToSQL_frame vs (tableName cam) (name cam) other w2 Hne) as Hfr.
    destruct (insertVehiclesToSQL vs (tableName cam) (name cam) w2) as [[n | e] w4];
      simpl in *; [injection Hp as <-; exact Hfr | discriminate].
  - simpl in Hp. injection Hp as <-. reflexivity.
Qed.

Lemma syncAllCameras_frame (cameras : list CameraConfig) (w : World) (other : string) :
  ~ In other (map tableName cameras) ->
  tables (snd (syncAllCameras cameras w)) !! other = tables w !! other.
Proof.
  revert w. induction cameras as [ | cam rest IH]; intros w Hnot; [reflexivity | ].
  simpl in Hnot. simpl. unfold bind.
  destruct (syncVehicles_evolves host jerusalem dateFallback cam w) as (w1 & Hrun & _).
  pose proof (syncVehicles_frame cam w other) as Hfr. rewrite Hrun in *. simpl in Hfr.
  rewrite IH by tauto. apply Hfr. intros ->. tauto.
Qed.

(** X3. A run of [syncAllCameras] changes only the tables its cameras
    name: every other table, and in the cycle of one camera every table
    but its own, is after the run what it was before. *)
Theorem X3_run_writes_only_its_cameras_tables (cameras : list CameraConfig) (w : World)
  (other : string) :
  ~ In other (map tableName cameras) ->
  tables (snd (syncAllCameras cameras w)) !! other = tables w !! other.
Proof. apply syncAllCameras_frame. Qed.

Lemma syncVehicles_console (cam : CameraConfig) (w : World) :
  exists w' middle,
    syncVehicles cam w = (Ok tt, w')
    /\ console w'
       = (console w ++ LogStart (name cam) (now w) :: middle ++ [LogCompleted (name cam)])%list
    /\ quiet middle
    /\ device w' = tail (device w).
Proof.
  destruct (syncVehicles_phases host jerusalem dateFallback cam w)
    as (lastSync & w1 & vs & w2 & w3 & Hwm & Hf & Hp & Hrun & _).
  destruct (getLastSyncTime_cases host (tableName cam)
              (setConsole (console w ++ [LogStart (name cam) (now w)])%list w))
    as (x & w1' & Hwm' & _ & _ & _ & Hd1 & Hcase).
  rewrite Hwm in Hwm'. injection Hwm' as <- <-. simpl in Hd1, Hcase.
  destruct (fetch_world lastSync cam
              (setConsole (console w1 ++ [LogLastSync (name cam) lastSync])%list w1))
    as (vs' & entry & Hf' & Hentry).
  rewrite Hf in Hf'. injection Hf' as <- Hw2.
  destruct (persistPhase_console vs cam w2) as (w3' & added & Hp' & Hc3 & Hq & Hd3).
  rewrite Hp in Hp'. injection Hp' as <-.
  rewrite Hw2 in Hc3, Hd3. simpl in Hc3, Hd3.
  assert (isSyncError entry = false) as Hqe.
  { destruct Hentry as [-> | [e ->]]; reflexivity. }
  assert (exists first, console w1 = (console w ++ LogStart (name cam) (now w) :: first)%list
                        /\ quiet first) as (first & Hc1 & Hq1).
  { destruct (if nextFault _ then None else _) as [rows | ].
    - destruct Hcase as [-> _]. exists []. split; [reflexivity | constructor].
    - destruct Hcase as [[error ->] _]. exists [ErrLastSync (tableName cam) error].
      rewrite <- app_assoc. split; [reflexivity | repeat constructor]. }
  exists w3, (first ++ [LogLastSync (name cam) lastSync; LogSearching (name cam) lastSync; entry]
              ++ added)%list.
  split; [exact Hrun | ]. split; [ | split].
  - rewrite Hc3, Hc1. rewrite <- !app_assoc. simpl. rewrite <- ?app_assoc. reflexivity.
  - apply quiet_app; [exact Hq1 | ]. apply quiet_app; [ | exact Hq].
    repeat constructor. exact Hqe.
  - rewrite Hd3, Hd1. reflexivity.
Qed.


Lemma syncAllCameras_device (cameras : list CameraConfig) (w : World) :
  device (snd (syncAllCameras cameras w)) = drop (length cameras) (device w).
Proof.
  revert w. induction cameras as [ | cam rest IH]; intros w; [reflexivity | ].
  simpl. unfold bind.
  destruct (syncVehicles_console cam w) as (w1 & middle & Hrun & _ & _ & Hd).
  rewrite Hrun, IH, Hd. destruct (device w); simpl; [now rewrite drop_nil | reflexivity].
Qed.

(** X11. A cycle consumes exactly one answer of the device, whatever the
    answer is and whatever the store does; a run over a list of cameras
    consumes one per camera, so the camera at position k of the list is
    answered by the k-th pending reply. *)
Theorem X11_one_device_call_per_camera (cameras : list CameraConfig) (w : World) :
  device (snd (syncAllCameras cameras w)) = drop (length cameras) (device w)
  /\ forall cam, device (snd (syncVehicles cam w)) = drop 1 (device w).
Proof.
  split; [apply syncAllCameras_device | ].
  intros cam. destruct (syncVehicles_console cam w) as (w1 & middle & Hrun & _ & _ & Hd).
  rewrite Hrun. simpl. rewrite Hd. now destruct (device w).
Qed.

(** ** A cycle on a store that answers *)

Lemma persistPhase_noFaults (vs : list Vehicle) (cam : CameraConfig) (w : World)
  (rows : list Row) :
  noFaults w -> tables w !! tableName cam = Some rows ->
  exists w', persistPhase vs cam w = (Ok tt, w')
    /\ tables w' = <[tableName cam := persisted host rows vs (now w)]> (tables w).
Proof.
  intros Hnf Ht. unfold Sync.persistPhase, Sync.insertVehiclesToSQL, bind, consoleWrite.
  destruct vs as [ | v vs].
  - simpl. eexists. split; [reflexivity | ]. simpl. now rewrite insert_id.
  - change (0 <? length (v :: vs))%nat with true.
    change (length (v :: vs) =? 0)%nat with false. cbv iota.
    destruct (insertLoop_noFaults host (v :: vs) (tableName cam) (name cam) 0 w rows Hnf Ht)
      as (n & w1 & Hrun & Ht1).
    unfold bind. rewrite Hrun. simpl. eexists. split; [reflexivity | ]. simpl. exact Ht1.
Qed.

Lemma accepted_valid (v : Vehicle) (t : Z) :
  captureTime v = ValidDate t -> 1 <= fullYear host t <= 9999 ->
  isText 50 (plateNumber v) = true -> isText 100 (picName v) = true ->
  isText 10 (country v) = true -> isText 20 (direction v) = true ->
  accepted v = Some t.
Proof.
  intros Hct Hy Hp Hn Hc Hd. apply accepted_some. repeat split; try assumption.
  rewrite Hct. simpl.
  destruct (Z.ltb_spec (fullYear host t) 1); [lia | ].
  destruct (Z.ltb_spec 9999 (fullYear host t)); [lia | reflexivity].
Qed.


(** ** What the decoder reads of a capture time *)

Lemma substring_empty (n m : nat) : String.substring n m "" = "".
Proof. destruct n, m; reflexivity. Qed.

Lemma substring_ext (n m : nat) (s s' : string) :
  (forall i, (n <= i < n + m)%nat -> String.get i s = String.get i s') ->
  String.substring n m s = String.substring n m s'.
Proof.
  revert m s s'. induction n as [ | n IHn].
  - induction m as [ | m IHm]; intros s s' H.
    + destruct s, s'; reflexivity.
    + pose proof (H 0%nat ltac:(lia)) as H0.
      destruct s as [ | c s], s' as [ | c' s']; simpl in H0; try discriminate; [reflexivity | ].
      injection H0 as <-. simpl. f_equal. apply IHm.
      intros i Hi. apply (H (S i)). lia.
  - intros m s s' H.
    destruct s as [ | c s], s' as [ | c' s']; simpl.
    + reflexivity.
    + rewrite <- (IHn m "" s'); [now rewrite substring_empty | ].
      intros i Hi. specialize (H (S i) ltac:(lia)). simpl in H. rewrite <- H.
      now destruct i.
    + rewrite (IHn m s ""); [now rewrite substring_empty | ].
      intros i Hi. specialize (H (S i) ltac:(lia)). simpl in H. rewrite H.
      now destruct i.
    + apply IHn. intros i Hi. apply (H (S i)). lia.
Qed.

Lemma read_range (n m : nat) :
  forallb (fun i => existsb (Nat.eqb i) readPositions) (seq n m) = true ->
  forall i, (n <= i < n + m)%nat -> In i readPositions.
Proof.
  intros Hall i Hi. rewrite forallb_forall in Hall.
  specialize (Hall i ltac:(apply in_seq; lia)). apply existsb_exists in Hall.
  destruct Hall as (j & Hj & Heq). apply Nat.eqb_eq in Heq. now subst.
Qed.

Lemma captureTimeIso_ext (s s' : string) :
  (forall i, In i readPositions -> String.get i s = String.get i s') ->
  captureTimeIso s = captureTimeIso s'.
Proof.
  intros H. unfold captureTimeIso, captureTimeFields, substring.
  assert (forall n m, forallb (fun i => existsb (Nat.eqb i) readPositions) (seq n m) = true ->
                      String.substring n m s = String.substring n m s') as Hsub.
  { intros n m Hr. apply substring_ext. intros i Hi. apply H. now apply (read_range n m). }
  rewrite (Hsub 0 (4 - 0))%nat by reflexivity.
  rewrite (Hsub 4 (6 - 4))%nat by reflexivity.
  rewrite (Hsub 6 (8 - 6))%nat by reflexivity.
  rewrite (Hsub 9 (11 - 9))%nat by reflexivity.
  rewrite (Hsub 11 (13 - 11))%nat by reflexivity.
  rewrite (Hsub 13 (15 - 13))%nat by reflexivity.
  reflexivity.
Qed.

(** X8. The decoded capture time depends only on the fourteen characters
    at positions 0-7 and 9-14: two strings that agree there (or both end
    there) decode to the same date, whatever stands at position 8 and
    after position 14, such as the device's own UTC offset. *)
Theorem X8_decode_reads_fourteen_positions (s s' : string) :
  (forall i, In i readPositions -> String.get i s = String.get i s') ->
  decodeCaptureTime jerusalem dateFallback s = decodeCaptureTime jerusalem dateFallback s'.
Proof.
  intros H. unfold decodeCaptureTime. now rewrite (captureTimeIso_ext s s' H).
Qed.

Lemma short_not_iso (s : string) :
  (String.length s < 15)%nat ->
  momentIso (captureTimeIso s) = IsoNoMatch /\ allDigitsAt s = false.
Proof.
  intros Hlen.
  do 15 (destruct s as [ | ? s];
         [split; [reflexivity | unfold allDigitsAt; cbn -[isDigit];
                                rewrite ?andb_false_r; reflexivity] | ]).
  simpl in Hlen. lia.
Qed.

(** X9. moment reads the template built from a capture time as a calendar
    time, in range or not, exactly when the capture time has a decimal
    digit at each of the fourteen positions 0-7 and 9-14, so has at least
    15 characters. Any other capture time, a shorter one among them, is
    left to the [Date] constructor. *)
Theorem X9_when_a_capture_time_is_recognised (s : string) :
  (momentIso (captureTimeIso s) = IsoNoMatch <-> allDigitsAt s = false)
  /\ (allDigitsAt s = false ->
      decodeCaptureTime jerusalem dateFallback s = dateFallback (captureTimeIso s))
  /\ ((String.length s < 15)%nat -> allDigitsAt s = false).
Proof.
  assert (momentIso (captureTimeIso s) = IsoNoMatch <-> allDigitsAt s = false) as Hiff.
  { destruct (Nat.lt_ge_cases (String.length s) 15) as [Hshort | Hlong].
    { destruct (short_not_iso s Hshort) as [-> ->]. tauto. }
    do 15 (destruct s as [ | ? s]; [simpl in Hlong; lia | ]).
    clear Hlong. unfold allDigitsAt.
    destruct s; cbv -[isDigit digitVal Z.add Z.mul civilInRange];
      repeat match goal with
             | |- context [isDigit ?c] =>
                 destruct (isDigit c); cbv -[isDigit digitVal Z.add Z.mul civilInRange];
                 [ | split; intros _; reflexivity]
             end;
      match goal with |- context [civilInRange ?c] => destruct (civilInRange c) end;
      split; discriminate. }
  split; [exact Hiff | ]. split.
  - intros Hno. apply Hiff in Hno. unfold decodeCaptureTime, momentTz. now rewrite Hno.
  - intros Hshort. apply (short_not_iso s Hshort).
Qed.

(** ** Start-up *)

Variable parseInt : option string -> option Z.

Local Abbreviation main := (Startup.main host jerusalem dateFallback parseInt).
Local Abbreviation Ticks := (Startup.Ticks host jerusalem dateFallback).

Lemma configuredCameras_cases (env : Environment) :
  exists c1 c2,
    name c1 = "Camera1" /\ tableName c1 = "VehicleDetection"
    /\ name c2 = "Camera2" /\ tableName c2 = "VehicleDetection2"
    /\ configuredCameras env
       = ((if envTruthy (env !! "CAMERA1_URL") then [c1] else [])
          ++ (if envTruthy (env !! "CAMERA2_URL") then [c2] else []))%list.
Proof.
  exists (mkCamera "Camera1" (envText (env !! "CAMERA1_URL"))
            (envText (env !! "CAMERA1_USERNAME"))
            (envText (env !! "CAMERA1_PASSWORD")) "VehicleDetection"),
         (mkCamera "Camera2" (envText (env !! "CAMERA2_URL"))
            (envText (env !! "CAMERA2_USERNAME"))
            (envText (env !! "CAMERA2_PASSWORD")) "VehicleDetection2").
  unfold configuredCameras.
  destruct (envTruthy (env !! "CAMERA1_URL")), (envTruthy (env !! "CAMERA2_URL"));
    repeat split.
Qed.

Lemma configuredCameras_tables (env : Environment) (cam : CameraConfig) :
  In cam (configuredCameras env) ->
  (name cam = "Camera1" /\ tableName cam = "VehicleDetection"
   /\ envTruthy (env !! "CAMERA1_URL") = true)
  \/ (name cam = "Camera2" /\ tableName cam = "VehicleDetection2"
      /\ envTruthy (env !! "CAMERA2_URL") = true).
Proof.
  destruct (configuredCameras_cases env) as (c1 & c2 & Hn1 & Ht1 & Hn2 & Ht2 & ->).
  intros Hin. apply in_app_or in Hin as [Hin | Hin].
  - destruct (envTruthy (env !! "CAMERA1_URL")); [ | destruct Hin].
    destruct Hin as [<- | []]. now left.
  - destruct (envTruthy (env !! "CAMERA2_URL")); [ | destruct Hin].
    destruct Hin as [<- | []]. now right.
Qed.

Lemma Ticks_Cycles (cameras : list CameraConfig) (w w' : World) :
  Ticks cameras w w' -> Cycles host jerusalem dateFallback w w'.
Proof.
  induction 1 as [w | w w' _ IH | w w1 w' Heq _ IH].
  - apply cycles_done.
  - eapply cycles_sync. exact IH.
  - eapply cycles_env; eassumption.
Qed.

Lemma Ticks_frame (cameras : list CameraConfig) (w w' : World) (other : string) :
  ~ In other (map tableName cameras) ->
  Ticks cameras w w' -> tables w' !! other = tables w !! other.
Proof.
  intros Hnot. induction 1 as [w | w w' _ IH | w w1 w' Heq _ IH].
  - reflexivity.
  - rewrite IH. now apply syncAllCameras_frame.
  - now rewrite IH, Heq.
Qed.

(** X12. The cameras [main] configures have names and tables of their own:
    of two of them with different names, the cycle of one never changes
    the table of the other, whatever the device and the store do. *)
Theorem X12_configured_cameras_keep_apart (env : Environment) (cam other : CameraConfig)
  (w : World) :
  In cam (configuredCameras env) -> In other (configuredCameras env) ->
  name cam <> name other ->
  tableName cam <> tableName other
  /\ tables (snd (syncVehicles cam w)) !! tableName other = tables w !! tableName other.
Proof.
  intros Hc Ho Hne.
  assert (tableName other <> tableName cam) as Hdiff.
  { destruct (configuredCameras_tables env cam Hc) as [(Hn & Ht & _) | (Hn & Ht & _)],
      (configuredCameras_tables env other Ho) as [(Hn' & Ht' & _) | (Hn' & Ht' & _)];
      rewrite Ht, Ht'; try discriminate; congruence. }
  split; [congruence | ]. now apply syncVehicles_frame.
Qed.

(** X13. How [main] starts. The period of the timer is never 0 (an
    interval that is absent, not a number or 0 gives 2). With no camera URL
    set, or when the connection to the store fails, the process exits with
    code 1 before any device or store request is made. Otherwise it runs
    [syncAllCameras] once over the configured cameras, Camera 1 first,
    which ends normally and consumes one device answer per camera, and
    stays up. *)
Theorem X13_main_exits_or_runs (env : Environment) (connects : bool) (w : World) :
  intervalMinutes parseInt env <> 0
  /\ ((envTruthy (env !! "CAMERA1_URL") = false /\ envTruthy (env !! "CAMERA2_URL") = false)
      \/ connects = false ->
      main env connects w = Exited 1 w)
  /\ (envTruthy (env !! "CAMERA1_URL") = true \/ envTruthy (env !! "CAMERA2_URL") = true ->
      connects = true ->
      exists w1,
        main env connects w = Running (configuredCameras env) (intervalMinutes parseInt env) w1
        /\ syncAllCameras (configuredCameras env) w = (Ok tt, w1)
        /\ map name (configuredCameras env)
           = ((if envTruthy (env !! "CAMERA1_URL") then ["Camera1"] else [])
              ++ (if envTruthy (env !! "CAMERA2_URL") then ["Camera2"] else []))%list
        /\ evolves (tables w) (tables w1)
        /\ device w1 = drop (length (configuredCameras env)) (device w)).
Proof.
  split; [ | split].
  - unfold intervalMinutes. destruct (parseInt _) as [n | ]; [ | discriminate].
    destruct (n =? 0) eqn:Hn; [discriminate | ]. now apply Z.eqb_neq.
  - destruct (configuredCameras_cases env) as (c1 & c2 & _ & _ & _ & _ & Hcams).
    unfold Startup.main. rewrite Hcams.
    intros [[-> ->] | ->]; [reflexivity | ].
    now destruct (length _ =? 0)%nat.
  - destruct (configuredCameras_cases env) as (c1 & c2 & Hn1 & _ & Hn2 & _ & Hcams).
    intros Hsome ->.
    destruct (syncAllCameras_evolves host jerusalem dateFallback (configuredCameras env) w)
      as (w1 & Hrun & Hev).
    exists w1. unfold Startup.main.
    pose proof (syncAllCameras_device (configuredCameras env) w) as Hd.
    rewrite Hrun in *. simpl in Hd. repeat split; try assumption.
    + rewrite Hcams.
      destruct (envTruthy (env !! "CAMERA1_URL")), (envTruthy (env !! "CAMERA2_URL"));
        try reflexivity. destruct Hsome; discriminate.
    + rewrite Hcams.
      destruct (envTruthy (env !! "CAMERA1_URL")), (envTruthy (env !! "CAMERA2_URL"));
        simpl; congruence.
Qed.

(** X14. The running service and its tables. Once [main] is up, over its
    first run and any number of firings of its timer, the runs following
    one another and nothing else writing the tables: distinct picture
    names stay distinct, every row a table had stays in its place, and no
    table other than VehicleDetection and VehicleDetection2 is ever
    changed. *)
Theorem X14_service_keeps_to_its_two_tables (env : Environment) (w : World)
  (cameras : list CameraConfig) (minutes : Z) (w1 w' : World) :
  main env true w = Running cameras minutes w1 ->
  Ticks cameras w1 w' ->
  (uniquePicNames (tables w) -> uniquePicNames (tables w'))
  /\ (forall table rows, tables w !! table = Some rows ->
        exists more, tables w' !! table = Some (rows ++ more)%list)
  /\ (forall table, table <> "VehicleDetection" -> table <> "VehicleDetection2" ->
        tables w' !! table = tables w !! table).
Proof.
  unfold Startup.main. destruct (length _ =? 0)%nat; [discriminate | ]. simpl.
  intros Hmain Hticks. injection Hmain as <- _ <-.
  assert (Cycles host jerusalem dateFallback w w') as Hcycles.
  { eapply cycles_sync, Ticks_Cycles, Hticks. }
  apply Cycles_evolves in Hcycles.
  split; [now apply evolves_unique | split].
  - intros table rows Ht. destruct (evolves_grows _ _ table rows Hcycles Ht) as (more & Hm & _).
    now exists more.
  - intros table H1 H2.
    assert (~ In table (map tableName (configuredCameras env))) as Hnot.
    { rewrite in_map_iff. intros (cam & <- & Hin).
      destruct (configuredCameras_tables env cam Hin) as [(_ & Ht & _) | (_ & Ht & _)];
        congruence. }
    rewrite (Ticks_frame _ _ _ _ Hnot Hticks). now apply syncAllCameras_frame.
Qed.

(** ** The search time sent to the device *)

Lemma allFrom_spec (check : Z -> bool) (count : nat) (from : Z) :
  allFrom check from count = true ->
  forall k, from <= k < from + Z.of_nat count -> check k = true.
Proof.
  revert from. induction count as [ | n IH]; intros from Hall k Hk; [lia | ].
  simpl in Hall. destruct (check from) eqn:Hc; [ | discriminate].
  destruct (Z.eq_dec k from) as [-> | Hne]; [assumption | ].
  apply (IH (from + 1) Hall). lia.
Qed.

Lemma two_digits (n : Z) : 0 <= n < 100 -> twoDigitsOk n = true.
Proof.
  intros H. apply (allFrom_spec twoDigitsOk (Z.to_nat 100) 0); [ | lia].
  vm_compute. reflexivity.
Qed.

Lemma four_digits (n : Z) : 0 <= n < 10000 -> fourDigitsOk n = true.
Proof.
  intros H. apply (allFrom_spec fourDigitsOk (Z.to_nat 10000) 0); [ | lia].
  vm_compute. reflexivity.
Qed.

Lemma isLeap_cases (y : Z) :
  if isLeap y then y mod 4 = 0 /\ (y mod 100 <> 0 \/ y mod 400 = 0)
  else y mod 4 <> 0 \/ (y mod 100 = 0 /\ y mod 400 <> 0).
Proof.
  unfold isLeap.
  destruct (Z.eqb_spec (y mod 4) 0), (Z.eqb_spec (y mod 100) 0), (Z.eqb_spec (y mod 400) 0);
    simpl; try tauto; Z.div_mod_to_equations; lia.
Qed.

Lemma isLeap_shift (y e : Z) : isLeap (y + e * 400) = isLeap y.
Proof.
  unfold isLeap.
  replace ((y + e * 400) mod 4) with (y mod 4)
    by (replace (y + e * 400) with (y + (e * 100) * 4) by lia; now rewrite Z_mod_plus_full).
  replace ((y + e * 400) mod 100) with (y mod 100)
    by (replace (y + e * 400) with (y + (e * 4) * 100) by lia; now rewrite Z_mod_plus_full).
  now rewrite Z_mod_plus_full.
Qed.

(** The month counted from March, and back. *)
Lemma marchMonth_cases (mp : Z) :
  0 <= mp <= 11 ->
  1 <= marchMonth mp <= 12
  /\ (marchMonth mp + 9) mod 12 = mp
  /\ (marchMonth mp <=? 2) = (10 <=? mp).
Proof.
  intros H. unfold marchMonth.
  destruct (Z.ltb_spec mp 10), (Z.leb_spec 10 mp); try lia.
  - split; [lia | ]. split; [symmetry; apply Z.mod_unique with 1; lia | ].
    apply Z.leb_gt. lia.
  - split; [lia | ]. split; [symmetry; apply Z.mod_unique with 0; lia | ].
    apply Z.leb_le. lia.
Qed.

(** The length of the month that is [mp] months after March. *)
Lemma daysInMonth_march (y mp : Z) :
  0 <= mp <= 11 ->
  daysInMonth y (marchMonth mp)
  = if (mp =? 1) || (mp =? 3) || (mp =? 6) || (mp =? 8) then 30
    else if mp =? 11 then (if isLeap y then 29 else 28) else 31.
Proof.
  intros H.
  assert (mp = 0 \/ mp = 1 \/ mp = 2 \/ mp = 3 \/ mp = 4 \/ mp = 5 \/ mp = 6 \/ mp = 7
          \/ mp = 8 \/ mp = 9 \/ mp = 10 \/ mp = 11) as Hcases by lia.
  repeat (destruct Hcases as [-> | Hcases]; [reflexivity | ]). subst mp. reflexivity.
Qed.

(** The year of the era and the day of that year, counted from 1 March. *)
Lemma era_year (doe : Z) :
  0 <= doe < 146097 ->
  let yoe := (doe - doe / 1460 + doe / 36524 - doe / 146096) / 365 in
  let doy := doe - (365 * yoe + yoe / 4 - yoe / 100) in
  0 <= yoe <= 399 /\ 0 <= doy <= 365
  /\ (doy = 365 -> (yoe + 1) mod 4 = 0 /\ ((yoe + 1) mod 100 <> 0 \/ (yoe + 1) mod 400 = 0))
  /\ (doe <= 146036 <-> (yoe <= 398 \/ doy <= 305)).
Proof. intros H. cbv zeta. Z.div_mod_to_equations. lia. Qed.

(** The day of the era of a day of a year of the era. *)
Lemma year_era (yoe doy : Z) :
  0 <= yoe <= 399 -> 0 <= doy <= 365 ->
  (doy = 365 -> (yoe + 1) mod 4 = 0 /\ ((yoe + 1) mod 100 <> 0 \/ (yoe + 1) mod 400 = 0)) ->
  let doe := 365 * yoe + yoe / 4 - yoe / 100 + doy in
  0 <= doe < 146097
  /\ (doe - doe / 1460 + doe / 36524 - doe / 146096) / 365 = yoe.
Proof. intros Hy Hd Hleap. cbv zeta. Z.div_mod_to_equations. lia. Qed.

(** The month and the day of the month of a day of the year. *)
Lemma year_day (doy : Z) :
  0 <= doy <= 365 ->
  let mp := (5 * doy + 2) / 153 in
  let d := doy - (153 * mp + 2) / 5 + 1 in
  0 <= mp <= 11 /\ 1 <= d
  /\ d <= (if (mp =? 1) || (mp =? 3) || (mp =? 6) || (mp =? 8) then 30
           else if mp =? 11 then (if doy =? 365 then 29 else 28) else 31)
  /\ (10 <= mp <-> 306 <= doy).
Proof.
  intros H. cbv zeta.
  assert (0 <= (5 * doy + 2) / 153 <= 11) as Hmp by (Z.div_mod_to_equations; lia).
  set (mp := (5 * doy + 2) / 153) in *.
  assert (mp = 0 \/ mp = 1 \/ mp = 2 \/ mp = 3 \/ mp = 4 \/ mp = 5 \/ mp = 6 \/ mp = 7
          \/ mp = 8 \/ mp = 9 \/ mp = 10 \/ mp = 11) as Hcases by lia.
  split; [exact Hmp | ].
  repeat (destruct Hcases as [Hc | Hcases]); [ .. | rename Hcases into Hc];
    rewrite Hc; simpl; subst mp;
    try (destruct (Z.eqb_spec doy 365)); Z.div_mod_to_equations; lia.
Qed.

(** The day of the year of a day of a month. *)
Lemma day_year (mp d : Z) :
  0 <= mp <= 11 -> 1 <= d ->
  d <= (if (mp =? 1) || (mp =? 3) || (mp =? 6) || (mp =? 8) then 30
        else if mp =? 11 then 29 else 31) ->
  let doy := (153 * mp + 2) / 5 + d - 1 in
  0 <= doy <= 365
  /\ (doy = 365 <-> mp = 11 /\ d = 29)
  /\ (5 * doy + 2) / 153 = mp.
Proof.
  intros Hmp Hd. cbv zeta.
  assert (mp = 0 \/ mp = 1 \/ mp = 2 \/ mp = 3 \/ mp = 4 \/ mp = 5 \/ mp = 6 \/ mp = 7
          \/ mp = 8 \/ mp = 9 \/ mp = 10 \/ mp = 11) as Hcases by lia.
  repeat (destruct Hcases as [Hc | Hcases]); [ .. | rename Hcases into Hc];
    rewrite Hc; simpl; intros Hle; Z.div_mod_to_equations; lia.
Qed.

Lemma daysInMonth_shift (y e m : Z) : daysInMonth (y + e * 400) m = daysInMonth y m.
Proof. unfold daysInMonth. now rewrite isLeap_shift. Qed.

(** The date of a day of the era is a date of the calendar, in the years
    0 to 400 of the era (400 in January and February of the last year
    only), and counts back to that day. *)
Lemma civilInEra_days (doe : Z) :
  0 <= doe < 146097 ->
  let '(y, m, d) := civilInEra doe in
  daysFromCivil y m d = doe - 719468
  /\ 1 <= m <= 12 /\ 1 <= d <= daysInMonth y m
  /\ 0 <= y <= 400 /\ (doe <= 146036 <-> y <= 399).
Proof.
  intros Hdoe. unfold civilInEra. cbv zeta.
  pose proof (era_year doe Hdoe) as Hyear. cbv zeta in Hyear.
  set (yoe := (doe - doe / 1460 + doe / 36524 - doe / 146096) / 365) in *.
  set (doy := doe - (365 * yoe + yoe / 4 - yoe / 100)) in *.
  destruct Hyear as (Hyoe & Hdoy & Hleap & Hlate).
  pose proof (year_day doy Hdoy) as Hday. cbv zeta in Hday.
  set (mp := (5 * doy + 2) / 153) in *.
  set (d := doy - (153 * mp + 2) / 5 + 1) in *.
  destruct Hday as (Hmp & Hd1 & Hd2 & Hjan).
  destruct (marchMonth_cases mp Hmp) as (Hm & Hback & Hle).
  rewrite Hle.
  split; [ | split; [exact Hm | split; [split; [exact Hd1 | ] | ]]].
  - unfold daysFromCivil. rewrite Hle, Hback.
    replace (if 10 <=? mp then (if 10 <=? mp then yoe + 1 else yoe) - 1
             else (if 10 <=? mp then yoe + 1 else yoe))
      with yoe by (destruct (10 <=? mp); lia).
    cbv zeta. replace (yoe / 400) with 0 by (symmetry; apply Z.div_small; lia).
    replace (yoe - 0 * 400) with yoe by lia.
    subst d doy. lia.
  - rewrite daysInMonth_march by exact Hmp.
    destruct ((mp =? 1) || (mp =? 3) || (mp =? 6) || (mp =? 8)); [exact Hd2 | ].
    destruct (Z.eqb_spec mp 11) as [Hfeb | _]; [ | exact Hd2].
    replace (10 <=? mp) with true by (symmetry; apply Z.leb_le; lia).
    pose proof (isLeap_cases (yoe + 1)) as Hl.
    destruct (Z.eqb_spec doy 365) as [H365 | _], (isLeap (yoe + 1)); lia.
  - destruct (Z.leb_spec 10 mp); lia.
Qed.

(** A date of the calendar in a year of the era is the date of the day
    of the era it counts to. *)
Lemma civilInEra_date (yoe mp d : Z) :
  0 <= yoe <= 399 -> 0 <= mp <= 11 ->
  1 <= d <= daysInMonth (if 10 <=? mp then yoe + 1 else yoe) (marchMonth mp) ->
  let doe := yoe * 365 + yoe / 4 - yoe / 100 + ((153 * mp + 2) / 5 + d - 1) in
  0 <= doe < 146097
  /\ civilInEra doe = (if 10 <=? mp then yoe + 1 else yoe, marchMonth mp, d).
Proof.
  intros Hyoe Hmp Hd. rewrite daysInMonth_march in Hd by exact Hmp.
  assert (d <= (if (mp =? 1) || (mp =? 3) || (mp =? 6) || (mp =? 8) then 30
                else if mp =? 11 then 29 else 31)) as Hd'.
  { destruct ((mp =? 1) || (mp =? 3) || (mp =? 6) || (mp =? 8)); [lia | ].
    destruct (mp =? 11); [ | lia]. destruct (isLeap _); lia. }
  pose proof (day_year mp d Hmp ltac:(lia) Hd') as Hday. cbv zeta in Hday.
  set (doy := (153 * mp + 2) / 5 + d - 1) in *.
  destruct Hday as (Hdoy & H365 & Hback).
  assert (doy = 365 ->
          (yoe + 1) mod 4 = 0 /\ ((yoe + 1) mod 100 <> 0 \/ (yoe + 1) mod 400 = 0)) as Hleap.
  { intros Hlast. apply H365 in Hlast as [-> ->]. simpl in Hd.
    pose proof (isLeap_cases (yoe + 1)) as Hl. destruct (isLeap (yoe + 1)); [exact Hl | lia]. }
  pose proof (year_era yoe doy Hyoe Hdoy Hleap) as Hera. cbv zeta in Hera.
  cbv zeta. replace (yoe * 365) with (365 * yoe) by lia.
  set (doe := 365 * yoe + yoe / 4 - yoe / 100 + doy) in *.
  destruct Hera as [Hdoe Hyear]. split; [exact Hdoe | ].
  unfold civilInEra. cbv zeta. rewrite Hyear.
  replace (doe - (365 * yoe + yoe / 4 - yoe / 100)) with doy by (subst doe; lia).
  rewrite Hback.
  destruct (marchMonth_cases mp Hmp) as (_ & _ & ->).
  f_equal. subst doy. lia.
Qed.

Lemma daysFromCivil_shift (y e m d : Z) :
  daysFromCivil (y + e * 400) m d = daysFromCivil y m d + e * 146097.
Proof.
  unfold daysFromCivil.
  replace (if m <=? 2 then y + e * 400 - 1 else y + e * 400)
    with ((if m <=? 2 then y - 1 else y) + e * 400) by (destruct (m <=? 2); lia).
  generalize (if m <=? 2 then y - 1 else y). intros y'.
  rewrite Z.div_add by lia. cbv zeta.
  replace (y' + e * 400 - (y' / 400 + e) * 400) with (y' - y' / 400 * 400) by lia.
  lia.
Qed.

(** The date of a day is a date of the calendar and counts back to the
    day. *)
Lemma civilFromDays_days (z : Z) :
  let '(y, m, d) := civilFromDays z in
  daysFromCivil y m d = z /\ 1 <= m <= 12 /\ 1 <= d <= daysInMonth y m.
Proof.
  unfold civilFromDays. cbv zeta.
  set (z' := z + 719468). set (era := z' / 146097). set (doe := z' - era * 146097).
  assert (0 <= doe < 146097) as Hdoe.
  { subst doe era. pose proof (Z.mod_pos_bound z' 146097 ltac:(lia)) as Hm.
    rewrite Z.mod_eq in Hm by lia. lia. }
  pose proof (civilInEra_days doe Hdoe) as Hok.
  destruct (civilInEra doe) as [[y m] d]. destruct Hok as (Hback & Hm & Hd & _).
  rewrite daysFromCivil_shift, daysInMonth_shift. lia.
Qed.

(** Within the years 0 to 9999. *)
Lemma civilFromDays_year (z : Z) :
  -719528 <= z < 2932897 ->
  let '(y, m, d) := civilFromDays z in 0 <= y <= 9999.
Proof.
  intros Hz. unfold civilFromDays. cbv zeta.
  set (z' := z + 719468). set (era := z' / 146097). set (doe := z' - era * 146097).
  assert (0 <= doe < 146097) as Hdoe.
  { subst doe era. pose proof (Z.mod_pos_bound z' 146097 ltac:(lia)) as Hm.
    rewrite Z.mod_eq in Hm by lia. lia. }
  assert (-1 <= era <= 24) as Hera.
  { subst era z'. split.
    - apply Z.div_le_lower_bound; lia.
    - apply Z.lt_succ_r. apply Z.div_lt_upper_bound; lia. }
  pose proof (civilInEra_days doe Hdoe) as Hok.
  destruct (civilInEra doe) as [[y m] d]. destruct Hok as (_ & _ & _ & Hy & Hlate).
  subst doe z'. lia.
Qed.

(** A date of the calendar is the date of the day it counts to. *)
Lemma daysFromCivil_date (y m d : Z) :
  1 <= m <= 12 -> 1 <= d <= daysInMonth y m ->
  civilFromDays (daysFromCivil y m d) = (y, m, d).
Proof.
  intros Hm Hd.
  set (mp := (m + 9) mod 12).
  assert (0 <= mp <= 11) as Hmp by (subst mp; pose proof (Z.mod_pos_bound (m + 9) 12); lia).
  assert (m = marchMonth mp) as Hmarch.
  { unfold marchMonth. subst mp. destruct (Z.ltb_spec ((m + 9) mod 12) 10);
      Z.div_mod_to_equations; lia. }
  destruct (marchMonth_cases mp Hmp) as (_ & _ & Hle). rewrite <- Hmarch in Hle.
  set (y' := if m <=? 2 then y - 1 else y).
  set (era := y' / 400). set (yoe := y' - era * 400).
  assert (0 <= yoe <= 399) as Hyoe.
  { subst yoe era. pose proof (Z.mod_pos_bound y' 400 ltac:(lia)) as Hb.
    rewrite Z.mod_eq in Hb by lia. lia. }
  assert (y = (if 10 <=? mp then yoe + 1 else yoe) + era * 400) as Hy.
  { rewrite <- Hle. subst yoe y'. destruct (m <=? 2); lia. }
  rewrite Hy, daysInMonth_shift, Hmarch in Hd.
  pose proof (civilInEra_date yoe mp d Hyoe Hmp Hd) as Hdate. cbv zeta in Hdate.
  unfold daysFromCivil, civilFromDays. cbv zeta. fold mp. fold y'. fold era. fold yoe.
  set (doe := yoe * 365 + yoe / 4 - yoe / 100 + ((153 * mp + 2) / 5 + d - 1)) in *.
  destruct Hdate as [Hdoe Hdate].
  replace (era * 146097 + doe - 719468 + 719468) with (doe + era * 146097) by lia.
  rewrite Z.div_add, (Z.div_small doe) by lia.
  replace (doe + era * 146097 - (0 + era) * 146097) with doe by lia.
  rewrite Hdate, <- Hmarch. f_equal. f_equal. lia.
Qed.

Lemma civilOfMs_fields (l : Z) :
  exists y m d,
    civilFromDays (l / msPerDay) = (y, m, d)
    /\ civilOfMs l
       = mkCivil y m d (l mod msPerDay / 3600000) (l mod msPerDay / 60000 mod 60)
           (l mod msPerDay / 1000 mod 60).
Proof.
  unfold civilOfMs. destruct (civilFromDays (l / msPerDay)) as [[y m] d].
  now exists y, m, d.
Qed.

(** The reading of a time value is a reading of the clock, before 24:00,
    and counts back to the time value less its milliseconds. *)
Lemma civilOfMs_ms (l : Z) :
  civilMs (civilOfMs l) = l - l mod 1000
  /\ civilInRange (civilOfMs l) = true
  /\ 0 <= hour (civilOfMs l) <= 23
  /\ 0 <= minute (civilOfMs l) <= 59
  /\ 0 <= second (civilOfMs l) <= 59
  /\ 1 <= month (civilOfMs l) <= 12
  /\ 1 <= day (civilOfMs l) <= 31.
Proof.
  destruct (civilOfMs_fields l) as (y & m & d & Hdate & ->).
  pose proof (civilFromDays_days (l / msPerDay)) as Hdays. rewrite Hdate in Hdays.
  destruct Hdays as (Hback & Hm & Hd).
  unfold civilMs, civilInRange. simpl. rewrite Hback.
  assert (daysInMonth y m <= 31) as H31.
  { unfold daysInMonth. destruct (m =? 2); [destruct (isLeap y); lia | ].
    destruct (_ || _); lia. }
  unfold msPerDay in *.
  pose proof (Z.mod_pos_bound l 86400000 ltac:(lia)) as Hrest.
  pose proof (Z.div_mod l 86400000 ltac:(lia)) as Hl.
  set (rest := l mod 86400000) in *. set (days := l / 86400000) in *.
  assert (l mod 1000 = rest mod 1000) as ->.
  { rewrite Hl. replace (86400000 * days + rest) with (rest + (days * 86400) * 1000) by lia.
    apply Z_mod_plus_full. }
  assert (0 <= rest / 3600000 <= 23) as Hh.
  { split; [apply Z.div_pos; lia | ].
    apply Z.lt_succ_r, Z.div_lt_upper_bound; lia. }
  pose proof (Z.mod_pos_bound (rest / 60000) 60 ltac:(lia)) as Hmi.
  pose proof (Z.mod_pos_bound (rest / 1000) 60 ltac:(lia)) as Hs.
  split; [ | split; [ | lia]].
  - pose proof (Z.div_mod rest 1000 ltac:(lia)) as H1.
    pose proof (Z.div_mod (rest / 1000) 60 ltac:(lia)) as H2.
    pose proof (Z.div_mod (rest / 60000) 60 ltac:(lia)) as H3.
    replace (rest / 60000) with (rest / 1000 / 60) in *
      by (rewrite Z.div_div by lia; reflexivity).
    replace (rest / 3600000) with (rest / 1000 / 60 / 60)
      by (rewrite !Z.div_div by lia; reflexivity).
    lia.
  - repeat (apply andb_true_intro; split); try (apply Z.leb_le; lia).
    apply negb_true_iff, andb_false_intro1, Z.eqb_neq. lia.
Qed.

Lemma civilOfMs_year (l : Z) :
  yearZeroMs <= l < yearTenThousandMs -> 0 <= year (civilOfMs l) <= 9999.
Proof.
  unfold yearZeroMs, yearTenThousandMs. intros Hl.
  destruct (civilOfMs_fields l) as (y & m & d & Hdate & ->). simpl.
  assert (-719528 <= l / msPerDay < 2932897) as Hdays.
  { unfold msPerDay. split.
    - apply Z.div_le_lower_bound; lia.
    - apply Z.div_lt_upper_bound; lia. }
  pose proof (civilFromDays_year _ Hdays) as Hy. now rewrite Hdate in Hy.
Qed.

(** A reading of the clock before 24:00 is the reading of the time value
    it counts to. *)
Lemma civilMs_reading (c : Civil) :
  civilInRange c = true ->
  0 <= hour c <= 23 -> 0 <= minute c -> 0 <= second c ->
  civilOfMs (civilMs c) = c.
Proof.
  destruct c as [y m d h mi s]. unfold civilInRange, civilMs. simpl.
  intros Hr Hh Hmi Hs.
  repeat (apply andb_prop in Hr as [Hr ?]).
  repeat match goal with H : (_ <=? _) = true |- _ => apply Z.leb_le in H end.
  unfold civilOfMs, msPerDay.
  set (tod := (h * 3600 + mi * 60 + s) * 1000).
  assert (0 <= tod < 86400000) as Htod by (subst tod; lia).
  replace ((daysFromCivil y m d * 86400000 + tod) / 86400000) with (daysFromCivil y m d)
    by (apply Z.div_unique with tod; lia).
  replace ((daysFromCivil y m d * 86400000 + tod) mod 86400000) with tod
    by (apply Z.mod_unique with (daysFromCivil y m d); lia).
  rewrite daysFromCivil_date by lia.
  f_equal; subst tod.
  - symmetry. apply Z.div_unique with ((mi * 60 + s) * 1000); lia.
  - replace (((h * 3600 + mi * 60 + s) * 1000) / 60000) with (h * 60 + mi)
      by (apply Z.div_unique with (s * 1000); lia).
    symmetry. apply Z.mod_unique with h; lia.
  - replace (((h * 3600 + mi * 60 + s) * 1000) / 1000) with (h * 3600 + mi * 60 + s)
      by (apply Z.div_unique with 0; lia).
    symmetry. apply Z.mod_unique with (h * 60 + mi); lia.
Qed.

Lemma digitChar_digit (v : Z) :
  0 <= v <= 9 -> isDigit (digitChar v) = true /\ digitVal (digitChar v) = v.
Proof.
  intros Hv.
  assert (v = 0 \/ v = 1 \/ v = 2 \/ v = 3 \/ v = 4 \/ v = 5 \/ v = 6 \/ v = 7 \/ v = 8
          \/ v = 9) as Hcases by lia.
  repeat (destruct Hcases as [-> | Hcases]; [split; reflexivity | ]).
  subst v. split; reflexivity.
Qed.

Lemma digit_digitChar (c : ascii) :
  isDigit c = true -> digitChar (digitVal c) = c /\ 0 <= digitVal c <= 9.
Proof.
  unfold isDigit, digitChar, digitVal. intros Hd.
  apply andb_prop in Hd as [Hlo Hhi].
  apply Nat.leb_le in Hlo. apply Nat.leb_le in Hhi.
  split; [ | lia].
  replace (48 + Z.to_nat (Z.of_nat (nat_of_ascii c) - 48))%nat with (nat_of_ascii c) by lia.
  apply ascii_nat_embedding.
Qed.

Lemma digits_two_chars (a b : ascii) :
  digits 2 (String a (String b ""))
  = if isDigit a && isDigit b then Some (digitVal a * 10 + digitVal b) else None.
Proof.
  unfold digits. simpl. destruct (isDigit a), (isDigit b); reflexivity.
Qed.

Lemma digits_four_chars (a b c d : ascii) :
  digits 4 (String a (String b (String c (String d ""))))
  = if isDigit a && isDigit b && isDigit c && isDigit d
    then Some (((digitVal a * 10 + digitVal b) * 10 + digitVal c) * 10 + digitVal d)
    else None.
Proof.
  unfold digits. simpl. destruct (isDigit a), (isDigit b), (isDigit c), (isDigit d);
    reflexivity.
Qed.

Lemma zeroFill_two (n : Z) :
  0 <= n < 100 ->
  zeroFill n 2 = String (digitChar (n / 10)) (String (digitChar (n mod 10)) "").
Proof. intros Hn. apply String.eqb_eq. exact (two_digits n Hn). Qed.

Lemma zeroFill_four (n : Z) :
  0 <= n < 10000 ->
  zeroFill n 4
  = String (digitChar (n / 1000)) (String (digitChar (n / 100 mod 10))
      (String (digitChar (n / 10 mod 10)) (String (digitChar (n mod 10)) ""))).
Proof. intros Hn. apply String.eqb_eq. exact (four_digits n Hn). Qed.

Lemma two_chars_zeroFill (a b : ascii) :
  isDigit a = true -> isDigit b = true ->
  zeroFill (digitVal a * 10 + digitVal b) 2 = String a (String b "").
Proof.
  intros Ha Hb.
  destruct (digit_digitChar a Ha) as [Hca Hva], (digit_digitChar b Hb) as [Hcb Hvb].
  rewrite zeroFill_two by lia.
  replace ((digitVal a * 10 + digitVal b) / 10) with (digitVal a)
    by (apply Z.div_unique with (digitVal b); lia).
  replace ((digitVal a * 10 + digitVal b) mod 10) with (digitVal b)
    by (apply Z.mod_unique with (digitVal a); lia).
  now rewrite Hca, Hcb.
Qed.

Lemma four_chars_zeroFill (a b c d : ascii) :
  isDigit a = true -> isDigit b = true -> isDigit c = true -> isDigit d = true ->
  zeroFill (((digitVal a * 10 + digitVal b) * 10 + digitVal c) * 10 + digitVal d) 4
  = String a (String b (String c (String d ""))).
Proof.
  intros Ha Hb Hc Hd.
  destruct (digit_digitChar a Ha) as [Hca Hva], (digit_digitChar b Hb) as [Hcb Hvb],
    (digit_digitChar c Hc) as [Hcc Hvc], (digit_digitChar d Hd) as [Hcd Hvd].
  set (n := ((digitVal a * 10 + digitVal b) * 10 + digitVal c) * 10 + digitVal d).
  rewrite zeroFill_four by lia.
  replace (n / 1000) with (digitVal a)
    by (apply Z.div_unique with ((digitVal b * 10 + digitVal c) * 10 + digitVal d); lia).
  replace (n / 100) with (digitVal a * 10 + digitVal b)
    by (apply Z.div_unique with (digitVal c * 10 + digitVal d); lia).
  replace (n / 10) with ((digitVal a * 10 + digitVal b) * 10 + digitVal c)
    by (apply Z.div_unique with (digitVal d); lia).
  replace ((digitVal a * 10 + digitVal b) mod 10) with (digitVal b)
    by (apply Z.mod_unique with (digitVal a); lia).
  replace (((digitVal a * 10 + digitVal b) * 10 + digitVal c) mod 10) with (digitVal c)
    by (apply Z.mod_unique with (digitVal a * 10 + digitVal b); lia).
  replace (n mod 10) with (digitVal d)
    by (apply Z.mod_unique with ((digitVal a * 10 + digitVal b) * 10 + digitVal c); lia).
  now rewrite Hca, Hcb, Hcc, Hcd.
Qed.

Lemma digits_zeroFill_two (n : Z) : 0 <= n < 100 -> digits 2 (zeroFill n 2) = Some n.
Proof.
  intros Hn. rewrite zeroFill_two, digits_two_chars by assumption.
  assert (0 <= n / 10 <= 9) as Ha
    by (split; [apply Z.div_pos; lia | apply Z.lt_succ_r, Z.div_lt_upper_bound; lia]).
  pose proof (Z.mod_pos_bound n 10 ltac:(lia)) as Hb.
  destruct (digitChar_digit (n / 10) Ha) as [-> ->].
  destruct (digitChar_digit (n mod 10) ltac:(lia)) as [-> ->].
  simpl. f_equal. pose proof (Z.div_mod n 10 ltac:(lia)). lia.
Qed.

Lemma digits_zeroFill_four (n : Z) : 0 <= n < 10000 -> digits 4 (zeroFill n 4) = Some n.
Proof.
  intros Hn. rewrite zeroFill_four, digits_four_chars by assumption.
  assert (0 <= n / 1000 <= 9) as Ha
    by (split; [apply Z.div_pos; lia | apply Z.lt_succ_r, Z.div_lt_upper_bound; lia]).
  pose proof (Z.mod_pos_bound (n / 100) 10 ltac:(lia)) as Hb.
  pose proof (Z.mod_pos_bound (n / 10) 10 ltac:(lia)) as Hc.
  pose proof (Z.mod_pos_bound n 10 ltac:(lia)) as Hd.
  destruct (digitChar_digit (n / 1000) Ha) as [-> ->].
  destruct (digitChar_digit (n / 100 mod 10) ltac:(lia)) as [-> ->].
  destruct (digitChar_digit (n / 10 mod 10) ltac:(lia)) as [-> ->].
  destruct (digitChar_digit (n mod 10) ltac:(lia)) as [-> ->].
  simpl. f_equal.
  pose proof (Z.div_mod n 10 ltac:(lia)) as H1.
  pose proof (Z.div_mod (n / 10) 10 ltac:(lia)) as H2.
  pose proof (Z.div_mod (n / 100) 10 ltac:(lia)) as H3.
  replace (n / 100) with (n / 10 / 10) in * by (rewrite Z.div_div by lia; reflexivity).
  replace (n / 1000) with (n / 10 / 10 / 10) by (rewrite !Z.div_div by lia; reflexivity).
  lia.
Qed.

(** The recogniser on a string of the shape of the template. *)
Lemma momentIso_shape (y1 y2 y3 y4 m1 m2 d1 d2 h1 h2 i1 i2 s1 s2 : ascii) :
  momentIso
    (String y1 (String y2 (String y3 (String y4 (String "-" (String m1 (String m2
      (String "-" (String d1 (String d2 (String "T" (String h1 (String h2
        (String ":" (String i1 (String i2 (String ":" (String s1 (String s2
          "")))))))))))))))))))
  = match digits 4 (String y1 (String y2 (String y3 (String y4 "")))),
          digits 2 (String m1 (String m2 "")), digits 2 (String d1 (String d2 "")),
          digits 2 (String h1 (String h2 "")), digits 2 (String i1 (String i2 "")),
          digits 2 (String s1 (String s2 "")) with
    | Some y, Some mo, Some d, Some h, Some mi, Some s =>
        let c := mkCivil y mo d h mi s in
        if civilInRange c then IsoCivil c else IsoOverflow
    | _, _, _, _, _, _ => IsoNoMatch
    end.
Proof. reflexivity. Qed.

(** What is written with four-digit year and two-digit fields is read
    back as written. *)
Lemma momentIso_formatCivil (c : Civil) :
  0 <= year c <= 9999 -> 0 <= month c < 100 -> 0 <= day c < 100 ->
  0 <= hour c < 100 -> 0 <= minute c < 100 -> 0 <= second c < 100 ->
  String.length (formatCivil c) = 19%nat
  /\ momentIso (formatCivil c) = if civilInRange c then IsoCivil c else IsoOverflow.
Proof.
  intros Hy Hmo Hd Hh Hmi Hs.
  pose proof (digits_zeroFill_four (year c) ltac:(lia)) as Py.
  pose proof (digits_zeroFill_two (month c) Hmo) as Pmo.
  pose proof (digits_zeroFill_two (day c) Hd) as Pd.
  pose proof (digits_zeroFill_two (hour c) Hh) as Ph.
  pose proof (digits_zeroFill_two (minute c) Hmi) as Pmi.
  pose proof (digits_zeroFill_two (second c) Hs) as Ps.
  unfold formatCivil.
  rewrite zeroFill_four in * by lia. rewrite !zeroFill_two in * by assumption.
  cbv [String.append]. split; [reflexivity | ].
  rewrite momentIso_shape, Py, Pmo, Pd, Ph, Pmi, Ps. now destruct c.
Qed.

(** What is read is what would be written. *)
Lemma momentIso_written (iso : string) (c : Civil) :
  momentIso iso = IsoCivil c ->
  formatCivil c = iso /\ civilInRange c = true
  /\ 0 <= hour c /\ 0 <= minute c /\ 0 <= second c.
Proof.
  intros H.
  assert ((String.length iso =? 19)%nat = true) as Hlen.
  { unfold momentIso in H. destruct (String.length iso =? 19)%nat; [reflexivity | ].
    discriminate H. }
  do 19 (destruct iso as [ | ? iso]; [discriminate Hlen | ]).
  destruct iso; [clear Hlen | discriminate Hlen].
  pose proof H as Hsep. cbv -[digits civilInRange Ascii.eqb] in Hsep.
  repeat match type of Hsep with
         | context [Ascii.eqb ?x ?y] =>
             destruct (Ascii.eqb_spec x y) as [Heq | _]; [subst y | discriminate Hsep]
         end.
  clear Hsep. rewrite momentIso_shape, digits_four_chars, !digits_two_chars in H.
  repeat match type of H with
         | context [isDigit ?x] =>
             destruct (isDigit x) eqn:?; cbn [andb] in H; [ | discriminate H]
         end.
  match type of H with
  | context [civilInRange ?r] => destruct (civilInRange r) eqn:Hr; [ | discriminate H]
  end.
  injection H as <-. cbn [year month day hour minute second].
  unfold formatCivil. cbn [year month day hour minute second].
  rewrite four_chars_zeroFill, !two_chars_zeroFill by assumption.
  split; [reflexivity | ]. split; [exact Hr | ].
  repeat match goal with
         | Hd : isDigit ?x = true |- _ => apply digit_digitChar in Hd as [_ ?]
         end.
  lia.
Qed.

Local Abbreviation decodeCaptureTime := (TimeCodec.decodeCaptureTime jerusalem dateFallback).
Local Abbreviation momentTz := (TimeCodec.momentTz jerusalem dateFallback).

(** X15. The search time of the request. For a watermark whose wall-clock
    reading in the zone falls in the years 0 to 9999, [picTime] is the
    19-character spelling [YYYY-MM-DDTHH:mm:ss] of that reading, and
    moment reads it back to the same wall-clock second: the request loses
    the milliseconds of the watermark and nothing else. *)
Theorem X15_search_time_reads_back (fromTime : Z) :
  yearZeroMs <= toLocal jerusalem fromTime < yearTenThousandMs ->
  String.length (picTime jerusalem fromTime) = 19%nat
  /\ momentIso (picTime jerusalem fromTime) = IsoCivil (civilOfMs (toLocal jerusalem fromTime))
  /\ momentTz (picTime jerusalem fromTime)
     = ValidDate (fromLocal jerusalem
                    (toLocal jerusalem fromTime - toLocal jerusalem fromTime mod 1000)).
Proof.
  intros Hrange. unfold picTime. set (l := toLocal jerusalem fromTime) in *.
  pose proof (civilOfMs_year l Hrange) as Hy.
  destruct (civilOfMs_ms l) as (Hms & Hin & Hh & Hmi & Hs & Hmo & Hd).
  destruct (momentIso_formatCivil (civilOfMs l)) as [Hlen Hiso]; try lia.
  rewrite Hin in Hiso. split; [exact Hlen | ]. split; [exact Hiso | ].
  unfold TimeCodec.momentTz. now rewrite Hiso, Hms.
Qed.

(** X16. From a capture time to the next request. When the capture time
    of an event is recognised as the reading [c], not 24:00:00, of a
    wall-clock time the zone has, the instant it decodes to, taken later
    as the watermark, is sent to the device as the digits of that capture
    time: year, month, day, hour, minute and second as the device wrote
    them. *)
Theorem X16_watermark_spells_the_capture_time (captureTimeStr : string) (c : Civil) :
  momentIso (captureTimeIso captureTimeStr) = IsoCivil c ->
  hour c <> 24 ->
  toLocal jerusalem (fromLocal jerusalem (civilMs c)) = civilMs c ->
  decodeCaptureTime captureTimeStr = ValidDate (fromLocal jerusalem (civilMs c))
  /\ picTime jerusalem (fromLocal jerusalem (civilMs c)) = captureTimeIso captureTimeStr.
Proof.
  intros Hiso Hh Hzone.
  destruct (momentIso_written _ _ Hiso) as (Hwritten & Hin & Hh0 & Hmi0 & Hs0).
  split.
  - unfold TimeCodec.decodeCaptureTime, TimeCodec.momentTz. now rewrite Hiso.
  - unfold picTime. rewrite Hzone, civilMs_reading; try assumption.
    split; [assumption | ].
    unfold civilInRange in Hin. repeat (apply andb_prop in Hin as [Hin ?]).
    assert (hour c <= 24) by now apply Z.leb_le. lia.
Qed.

End MoreProperties.

(** ** The further properties at the sample data *)

Lemma envBoth_cameras : configuredCameras envBoth = [camera1; camera2].
Proof. vm_compute. reflexivity. Qed.


(** A run of the first camera and the table of the second. *)
Lemma X3_witness :
  tables (snd (syncAllCameras utc jerusalemWinter noFallback [camera1] worldTwoPlates))
    !! "VehicleDetection2"
  = tables worldTwoPlates !! "VehicleDetection2".
Proof.
  apply (X3_run_writes_only_its_cameras_tables utc jerusalemWinter noFallback
           [camera1] worldTwoPlates "VehicleDetection2").
  simpl. intros [H | []]. discriminate H.
Defined.


(** The second of three plate elements has no [picName]. *)
Lemma X6_witness :
  fetchVehiclesFromCamera jerusalemWinter noFallback lateEvening camera1 worldMissingPic
  = (Ok (decodePrefix (decodePlate jerusalemWinter noFallback) [plateA; plateNoPic; plateC]),
     setConsole
       (console worldMissingPic
        ++ [LogSearching "Camera1" lateEvening;
            match firstFailure (decodePlate jerusalemWinter noFallback)
                    [plateA; plateNoPic; plateC] with
            | None =>
                LogFound "Camera1"
                  (length (decodePrefix (decodePlate jerusalemWinter noFallback)
                             [plateA; plateNoPic; plateC]))
            | Some e => ErrCamera "Camera1" e
            end])%list
       (setDevice [] worldMissingPic)).
Proof.
  apply (X6_fetch_returns_the_decodable_prefix jerusalemWinter noFallback lateEvening
           camera1 worldMissingPic 200 "OK" (docOf [plateA; plateNoPic; plateC])
           (JObj [("Plate", JArr [plateA; plateNoPic; plateC])])
           (JArr [plateA; plateNoPic; plateC]) []);
    reflexivity.
Defined.

(** Another character in the gap, nothing after the seconds. *)
Lemma X8_witness :
  decodeCaptureTime jerusalemWinter noFallback "20240115T091530+0200"
  = decodeCaptureTime jerusalemWinter noFallback "20240115 091530".
Proof.
  apply (X8_decode_reads_fourteen_positions jerusalemWinter noFallback).
  intros i Hi. unfold readPositions in Hi. simpl in Hi.
  repeat (destruct Hi as [<- | Hi]; [reflexivity | ]). destruct Hi.
Defined.

(** A capture time of four characters. *)
Lemma X9_witness :
  decodeCaptureTime jerusalemWinter noFallback "2024" = noFallback (captureTimeIso "2024").
Proof.
  destruct (X9_when_a_capture_time_is_recognised jerusalemWinter noFallback "2024")
    as (_ & Hfallback & Hshort).
  apply Hfallback, Hshort. simpl. lia.
Defined.

(** The two cameras of the sample environment. *)
Lemma X12_witness :
  tableName camera1 <> tableName camera2
  /\ tables (snd (syncVehicles utc jerusalemWinter noFallback camera1 worldTwoPlates))
       !! tableName camera2
     = tables worldTwoPlates !! tableName camera2.
Proof.
  apply (X12_configured_cameras_keep_apart utc jerusalemWinter noFallback envBoth
           camera1 camera2 worldTwoPlates).
  - rewrite envBoth_cameras. left. reflexivity.
  - rewrite envBoth_cameras. right. left. reflexivity.
  - discriminate.
Defined.

(** No connection to the store. *)
Lemma X13_witness :
  main utc jerusalemWinter noFallback parseIntUnset envBoth false worldTwoPlates
  = Exited 1 worldTwoPlates.
Proof.
  apply (X13_main_exits_or_runs utc jerusalemWinter noFallback parseIntUnset envBoth false
           worldTwoPlates).
  right. reflexivity.
Defined.

(** The sample environment, a first run and one firing of the timer. *)
Lemma X14_witness :
  (uniquePicNames (tables worldDuplicates) ->
   uniquePicNames (tables (afterTick worldDuplicates)))
  /\ (forall table rows, tables worldDuplicates !! table = Some rows ->
        exists more, tables (afterTick worldDuplicates) !! table = Some (rows ++ more)%list)
  /\ (forall table, table <> "VehicleDetection" -> table <> "VehicleDetection2" ->
        tables (afterTick worldDuplicates) !! table = tables worldDuplicates !! table).
Proof.
  apply (X14_service_keeps_to_its_two_tables utc jerusalemWinter noFallback parseIntUnset
           envBoth worldDuplicates [camera1; camera2] 2 (afterStart worldDuplicates)
           (afterTick worldDuplicates)).
  - unfold Startup.main. rewrite envBoth_cameras. reflexivity.
  - apply ticks_job. apply ticks_none.
Defined.

(** The capture time of the detection A as the watermark. *)
Lemma X15_witness :
  String.length (picTime jerusalemWinter 1705302930000) = 19%nat
  /\ momentIso (picTime jerusalemWinter 1705302930000)
     = IsoCivil (civilOfMs (toLocal jerusalemWinter 1705302930000))
  /\ momentTz jerusalemWinter noFallback (picTime jerusalemWinter 1705302930000)
     = ValidDate (fromLocal jerusalemWinter
                    (toLocal jerusalemWinter 1705302930000
                     - toLocal jerusalemWinter 1705302930000 mod 1000)).
Proof.
  apply (X15_search_time_reads_back jerusalemWinter noFallback 1705302930000).
  cbv. split; [discriminate | reflexivity].
Defined.

(** The capture time of the detection A. *)
Lemma X16_witness :
  decodeCaptureTime jerusalemWinter noFallback "20240115T091530+0200"
  = ValidDate (fromLocal jerusalemWinter (civilMs quarterPastNine))
  /\ picTime jerusalemWinter (fromLocal jerusalemWinter (civilMs quarterPastNine))
     = captureTimeIso "20240115T091530+0200".
Proof.
  apply (X16_watermark_spells_the_capture_time jerusalemWinter noFallback
           "20240115T091530+0200" quarterPastNine).
  - reflexivity.
  - discriminate.
  - reflexivity.
Defined.
